(** * Enhanced code blocks of Primer Spec: a shallow embedding

    The development follows
    [src_js/components/main_content/useEnhancedCodeBlocks.tsx].  JavaScript
    values are modelled as the code uses them.  The strings the range parser
    is given are sequences of UTF-16 code units ([CodeUnits.ustring]); the
    strings of the DOM (tag names, attributes, text) are sequences of code
    units below 256, which the code only compares with ASCII words, splits at
    line feeds and at ASCII white space, and hands on.  Numbers are doubles
    ([JSNum]), a [Set<number>] is an insertion-ordered list without
    repetition, DOM nodes form a tree whose nodes are addressed by their path
    from the root the code holds. *)

From Stdlib Require Import List String Ascii Bool Arith ZArith NArith.
From Stdlib Require Import QArith Qround Qpower.
From Stdlib Require Import Lia Lqa Sorted.
Import ListNotations.

Close Scope Q_scope.
Local Open Scope string_scope.
Local Open Scope list_scope.
Local Open Scope nat_scope.

(** String concatenation, [a + b] on strings. *)
Infix "+++" := String.append (right associativity, at level 60).

(* ================================================================== *)
(** * JavaScript strings *)
(* ================================================================== *)

Module JSString.

(** [s.split(sep)] for a one-character separator.  The result is never
    empty: the empty string splits into one empty piece. *)
Fixpoint split (sep : ascii) (s : string) : list string :=
  match s with
  | EmptyString => [EmptyString]
  | String c rest =>
      if Ascii.eqb c sep then EmptyString :: split sep rest
      else match split sep rest with
           | [] => [String c EmptyString]
           | piece :: pieces => String c piece :: pieces
           end
  end.

(** [pieces.join(sep)]. *)
Fixpoint join (sep : string) (pieces : list string) : string :=
  match pieces with
  | [] => EmptyString
  | [p] => p
  | p :: rest => p +++ sep +++ join sep rest
  end.

Definition is_empty (s : string) : bool :=
  match s with EmptyString => true | _ => false end.

(** Whether the character [c] occurs in [s]. *)
Fixpoint has_char (c : ascii) (s : string) : bool :=
  match s with
  | EmptyString => false
  | String d rest => Ascii.eqb d c || has_char c rest
  end.

(** [s.startsWith(p)], returning what follows the prefix. *)
Fixpoint stripPrefix (p s : string) : option string :=
  match p, s with
  | EmptyString, _ => Some s
  | String a p', String b s' =>
      if Ascii.eqb a b then stripPrefix p' s' else None
  | String _ _, EmptyString => None
  end.

Definition startsWith (s p : string) : bool :=
  match stripPrefix p s with Some _ => true | None => false end.

Definition lower_char (c : ascii) : ascii :=
  let n := nat_of_ascii c in
  if (65 <=? n) && (n <=? 90) then ascii_of_nat (n + 32) else c.

Definition upper_char (c : ascii) : ascii :=
  let n := nat_of_ascii c in
  if (97 <=? n) && (n <=? 122) then ascii_of_nat (n - 32) else c.

Fixpoint map_chars (f : ascii -> ascii) (s : string) : string :=
  match s with
  | EmptyString => EmptyString
  | String c rest => String (f c) (map_chars f rest)
  end.

Definition toLowerCase : string -> string := map_chars lower_char.
Definition toUpperCase : string -> string := map_chars upper_char.

(** Decimal rendering of an integer, as a template literal prints it. *)
Definition digit_char (d : nat) : ascii := ascii_of_nat (48 + d).

Fixpoint nat_digits (fuel n : nat) (acc : string) : string :=
  match fuel with
  | O => acc
  | S fuel' =>
      let acc' := String (digit_char (n mod 10)) acc in
      if n <? 10 then acc' else nat_digits fuel' (n / 10) acc'
  end.

Definition nat_toString (n : nat) : string := nat_digits (S n) n EmptyString.

Definition Z_toString (z : Z) : string :=
  match z with
  | Zneg p => String "-"%char (nat_toString (Pos.to_nat p))
  | _ => nat_toString (Z.to_nat z)
  end.

End JSString.

(* ================================================================== *)
(** * JavaScript strings as code units *)
(* ================================================================== *)

Module CodeUnits.

(** A JavaScript string as the language has it: a sequence of UTF-16 code
    units. *)
Definition ustring : Type := list N.

(** The code units of a string of characters below 256. *)
Definition units (s : string) : ustring := map N_of_ascii (list_ascii_of_string s).

Fixpoint ustring_eqb (a b : ustring) : bool :=
  match a, b with
  | [], [] => true
  | x :: a', y :: b' => N.eqb x y && ustring_eqb a' b'
  | _, _ => false
  end.

Definition is_empty (s : ustring) : bool :=
  match s with [] => true | _ => false end.

(** [s.split(sep)] for a separator of one code unit.  The result is never
    empty: the empty string splits into one empty piece. *)
Fixpoint split (sep : N) (s : ustring) : list ustring :=
  match s with
  | [] => [[]]
  | c :: rest =>
      if N.eqb c sep then [] :: split sep rest
      else match split sep rest with
           | [] => [[c]]
           | piece :: pieces => (c :: piece) :: pieces
           end
  end.

(** White space and line terminators, the code units [trim] and the
    conversion to a number skip: TAB, LF, VT, FF, CR, SPACE, NBSP, the other
    space separators (U+1680, U+2000 to U+200A, U+202F, U+205F, U+3000), the
    line and paragraph separators (U+2028, U+2029) and U+FEFF. *)
Definition is_white_space (c : N) : bool :=
  existsb (N.eqb c)
    [9; 10; 11; 12; 13; 32; 160; 5760; 8192; 8193; 8194; 8195; 8196; 8197;
     8198; 8199; 8200; 8201; 8202; 8232; 8233; 8239; 8287; 12288; 65279]%N.

Fixpoint trimStart (s : ustring) : ustring :=
  match s with
  | [] => []
  | c :: rest => if is_white_space c then trimStart rest else s
  end.

(** Drops the trailing white space: a code unit stays when something that
    is not white space follows it or it is not white space itself. *)
Fixpoint trimEnd (s : ustring) : ustring :=
  match s with
  | [] => []
  | c :: rest =>
      match trimEnd rest with
      | [] => if is_white_space c then [] else [c]
      | kept => c :: kept
      end
  end.

Definition trim (s : ustring) : ustring := trimEnd (trimStart s).

End CodeUnits.

(* ================================================================== *)
(** * JavaScript numbers *)
(* ================================================================== *)

Module JSNumber.
Import CodeUnits.

(** A number is NaN, an infinity or a finite double.  A finite double is
    kept as the rational it stands for, in lowest terms; the results of
    conversions and of arithmetic are rounded to the nearest double, ties to
    the even significand ([round64]).  The two zeros are not told apart: no
    comparison the code makes distinguishes them. *)
Inductive JSNum : Type :=
| NaN : JSNum
| Inf (negative : bool) : JSNum
| Fin (q : Q) : JSNum.

Definition isNaN (n : JSNum) : bool :=
  match n with NaN => true | _ => false end.

(** [a <= b]; false as soon as one side is NaN. *)
Definition num_le (a b : JSNum) : bool :=
  match a, b with
  | NaN, _ | _, NaN => false
  | Inf true, _ => true
  | _, Inf false => true
  | Inf false, _ => false
  | _, Inf true => false
  | Fin x, Fin y => Qle_bool x y
  end.

(** [a >= b] *)
Definition num_ge (a b : JSNum) : bool := num_le b a.

(** SameValueZero, the equality of [Set.prototype.has]. *)
Definition num_eqb (a b : JSNum) : bool :=
  match a, b with
  | NaN, NaN => true
  | Inf s, Inf t => Bool.eqb s t
  | Fin x, Fin y => Qeq_bool x y
  | _, _ => false
  end.

(** ** Rounding to a double *)

Definition pow2 (e : Z) : Q := Qpower 2 e.

(** The exponent [e] with [2^e <= a < 2^(e+1)], for [a] positive. *)
Definition ilog2 (a : Q) : Z :=
  let e0 := (Z.log2 (Qnum a) - Z.log2 (Zpos (Qden a)))%Z in
  if Qle_bool (pow2 e0) a then e0 else (e0 - 1)%Z.

(** The nearest integer, the even one of two that are equally near. *)
Definition round_half_even (x : Q) : Z :=
  let f := Qfloor x in
  match Qcompare (x - inject_Z f) (1 # 2) with
  | Lt => f
  | Gt => (f + 1)%Z
  | Eq => if Z.even f then f else (f + 1)%Z
  end.

(** The double nearest to a positive rational: 53 significant bits, the
    spacing never finer than [2^-1074]; infinity from [2^1024] on. *)
Definition round_pos (a : Q) : JSNum :=
  let p := Z.max (ilog2 a - 52) (-1074) in
  let v := (inject_Z (round_half_even (a / pow2 p)) * pow2 p)%Q in
  if Qle_bool (pow2 1024) v then Inf false else Fin (Qred v).

Definition negate (n : JSNum) : JSNum :=
  match n with
  | NaN => NaN
  | Inf s => Inf (negb s)
  | Fin q => Fin (Qred (- q))
  end.

(** The double nearest to a rational. *)
Definition round64 (q : Q) : JSNum :=
  let r := Qred q in
  match Qcompare r 0 with
  | Eq => Fin 0
  | Gt => round_pos r
  | Lt => negate (round_pos (- r))
  end.

(** [++i]: the double nearest to [i + 1]. *)
Definition num_succ (i : JSNum) : JSNum :=
  match i with
  | Fin q => round64 (q + 1)
  | other => other
  end.

(** ** String to number ([+s], [Number(s)]) *)

Definition digit_of (base : N) (c : N) : option N :=
  let v :=
    if (48 <=? c)%N && (c <=? 57)%N then Some (c - 48)%N
    else if (97 <=? c)%N && (c <=? 102)%N then Some (c - 87)%N
    else if (65 <=? c)%N && (c <=? 70)%N then Some (c - 55)%N
    else None in
  match v with
  | Some d => if (d <? base)%N then Some d else None
  | None => None
  end.

(** The longest run of digits at the front of [s], most significant
    first, and what follows it. *)
Fixpoint span_digits (base : N) (s : ustring) : list N * ustring :=
  match s with
  | [] => ([], [])
  | c :: rest =>
      match digit_of base c with
      | Some d => let (ds, tail) := span_digits base rest in (d :: ds, tail)
      | None => ([], s)
      end
  end.

Definition digits_value (base : N) (ds : list N) : Z :=
  fold_left (fun acc d => (acc * Z.of_N base + Z.of_N d)%Z) ds 0%Z.

(** [m * 10^e] *)
Definition scale10 (m e : Z) : Q :=
  match e with
  | Zneg p => Qmake m (Z.to_pos (10 ^ Zpos p))
  | _ => inject_Z (m * 10 ^ e)
  end.

(** [0x..], [0o..], [0b..]: a prefix in either case and at least one
    digit, nothing else. *)
Definition parse_nondecimal (s : ustring) : option Q :=
  match s with
  | 48%N :: p :: rest =>
      let base :=
        if (p =? 120)%N || (p =? 88)%N then Some 16%N
        else if (p =? 111)%N || (p =? 79)%N then Some 8%N
        else if (p =? 98)%N || (p =? 66)%N then Some 2%N
        else None in
      match base with
      | Some b =>
          match span_digits b rest with
          | (d :: ds, []) => Some (inject_Z (digits_value b (d :: ds)))
          | _ => None
          end
      | None => None
      end
  | _ => None
  end.

Definition strip_sign (s : ustring) : bool * ustring :=
  match s with
  | 45%N :: rest => (true, rest)
  | 43%N :: rest => (false, rest)
  | _ => (false, s)
  end.

(** The exponent part: empty, or [e]/[E], an optional sign and digits. *)
Definition parse_exponent (s : ustring) : option Z :=
  match s with
  | [] => Some 0%Z
  | c :: rest =>
      if (c =? 101)%N || (c =? 69)%N then
        let (neg, body) := strip_sign rest in
        match span_digits 10 body with
        | (d :: ds, []) =>
            let e := digits_value 10 (d :: ds) in
            Some (if neg then (- e)%Z else e)
        | _ => None
        end
      else None
  end.

(** [digits], [digits.], [digits.digits], [.digits], each with an
    optional exponent: the mathematical value. *)
Definition parse_unsigned_decimal (s : ustring) : option Q :=
  let (ip, after_int) := span_digits 10 s in
  let '(fp, after_frac) :=
    match after_int with
    | 46%N :: rest => span_digits 10 rest
    | _ => ([], after_int)
    end in
  match ip, fp with
  | [], [] => None
  | _, _ =>
      match parse_exponent after_frac with
      | Some e =>
          Some (scale10 (digits_value 10 (ip ++ fp))
                        (e - Z.of_nat (List.length fp)))
      | None => None
      end
  end.

(** The numeric value of a string: surrounding white space is ignored,
    the empty string is 0, anything that is not a numeric literal is NaN,
    and the value of a literal is rounded to the nearest double. *)
Definition ToNumber (s : ustring) : JSNum :=
  let t := trim s in
  if is_empty t then Fin 0%Q
  else match parse_nondecimal t with
       | Some q => round64 q
       | None =>
           let (neg, u) := strip_sign t in
           if ustring_eqb u (units "Infinity") then Inf neg
           else match parse_unsigned_decimal u with
                | Some q => if neg then negate (round64 q) else round64 q
                | None => NaN
                end
       end.

End JSNumber.

(* ================================================================== *)
(** * [Set<number>] *)
(* ================================================================== *)

Module JSSet.
Import JSNumber.

(** The members in insertion order; [add] keeps the first occurrence. *)
Definition t : Type := list JSNum.

Definition empty : t := [].

Definition has (x : JSNum) (s : t) : bool := existsb (num_eqb x) s.

Definition add (x : JSNum) (s : t) : t :=
  if has x s then s else s ++ [x].

End JSSet.

(* ================================================================== *)
(** * The range parser *)
(* ================================================================== *)

Module RangeParser.
Import CodeUnits JSNumber.

Definition COMMA : N := 44.
Definition HYPHEN : N := 45.

(** [isNumWithinInclusiveRange]: [num != null && !Number.isNaN(num) &&
    num >= lower && num <= upper].  A number is never [null]. *)
Definition isNumWithinInclusiveRange (num lower upper : JSNum) : bool :=
  negb (isNaN num) && num_ge num lower && num_le num upper.

(** [for (let i = lower; i <= upper; ++i) highlightedLines.add(i)]: the
    set when the loop has ended, [None] when it is still running after
    [fuel] tests of its condition. *)
Fixpoint addRange (fuel : nat) (i upper : JSNum) (set : JSSet.t) : option JSSet.t :=
  match fuel with
  | O => None
  | S fuel' =>
      if num_le i upper
      then addRange fuel' (num_succ i) upper (JSSet.add i set)
      else Some set
  end.

(** The body of [ranges.forEach]. *)
Definition parseRange (fuel : nat) (maxLineNumber : JSNum)
           (highlightedLines : JSSet.t) (range : ustring) : option JSSet.t :=
  let potentialLineNum := ToNumber range in
  if isNumWithinInclusiveRange potentialLineNum (Fin 1%Q) maxLineNumber
  then Some (JSSet.add potentialLineNum highlightedLines)
  else
    let rangeParts := split HYPHEN (trim range) in
    match rangeParts with
    | [p0; p1] =>
        let lower := ToNumber p0 in
        let upper := ToNumber p1 in
        if isNumWithinInclusiveRange lower (Fin 1%Q) maxLineNumber
           && isNumWithinInclusiveRange upper (Fin 1%Q) maxLineNumber
           && num_le lower upper
        then addRange fuel lower upper highlightedLines
        else Some highlightedLines
    | _ => Some highlightedLines
    end.

(** [ranges.forEach(...)]: a range whose loop does not end keeps the
    ranges after it from being looked at. *)
Fixpoint forEachRange (fuel : nat) (maxLineNumber : JSNum)
         (ranges : list ustring) (highlightedLines : JSSet.t) : option JSSet.t :=
  match ranges with
  | [] => Some highlightedLines
  | range :: rest =>
      match parseRange fuel maxLineNumber highlightedLines range with
      | Some set => forEachRange fuel maxLineNumber rest set
      | None => None
      end
  end.

(** Loop tests within which the loop over a range ends when the maximum
    is at most 2^53 - 1: the bounds lie within [[1, max]] and [++i] adds a
    half or more as long as the sum stays below 2^53. *)
Definition loop_tests (maxLineNumber : JSNum) : nat :=
  match maxLineNumber with
  | Fin m => S (Z.to_nat (Qfloor (2 * m)))
  | _ => 1
  end.

(** [parseCodeHighlightRanges(rawHighlightRanges, maxLineNumber)]; [None]
    as the first argument is [null].  The result is the set returned, or
    [None] when a loop over a range is still running after [fuel] tests. *)
Definition parseCodeHighlightRanges (fuel : nat)
           (rawHighlightRanges : option ustring) (maxLineNumber : JSNum)
  : option JSSet.t :=
  match rawHighlightRanges with
  | None => Some JSSet.empty
  | Some raw =>
      if is_empty raw then Some JSSet.empty
      else forEachRange fuel maxLineNumber (split COMMA raw) JSSet.empty
  end.

End RangeParser.

(* ================================================================== *)
(** * The DOM *)
(* ================================================================== *)

Module DOM.
Import JSString.

Definition LF : ascii := "010"%char.
Definition NEWLINE : string := String LF EmptyString.
Definition NBSP : ascii := "160"%char.
Definition DQUOTE : ascii := "034"%char.

(** A node with everything below it.  An element carries its local name
    (lower case, as the parser of an HTML document produces it), its
    attributes in source order and its child nodes. *)
#[local] Unset Elimination Schemes.
Inductive Node : Type :=
| Text (data : string)
| Comment (data : string)
| Element (tag : string) (attrs : list (string * string)) (children : list Node).
#[local] Set Elimination Schemes.

Definition isElement (n : Node) : bool :=
  match n with Element _ _ _ => true | _ => false end.

(** [el.tagName] of an HTML element: the local name in upper case. *)
Definition tagName (n : Node) : option string :=
  match n with Element t _ _ => Some (toUpperCase t) | _ => None end.

Definition tagName_is (n : Node) (name : string) : bool :=
  match tagName n with Some t => String.eqb t name | None => false end.

Definition childNodes (n : Node) : list Node :=
  match n with Element _ _ cs => cs | _ => [] end.

Definition firstChild (n : Node) : option Node := hd_error (childNodes n).

Definition firstElementChild (n : Node) : option Node :=
  find isElement (childNodes n).

(** ** Attributes *)

Definition attributes (n : Node) : list (string * string) :=
  match n with Element _ a _ => a | _ => [] end.

Fixpoint lookup_attr (name : string) (attrs : list (string * string)) : option string :=
  match attrs with
  | [] => None
  | (k, v) :: rest => if String.eqb k name then Some v else lookup_attr name rest
  end.

Definition getAttribute (n : Node) (name : string) : option string :=
  lookup_attr name (attributes n).

(** [setAttribute]: the value is replaced where the attribute stands, a
    new attribute goes last. *)
Fixpoint set_attr (name value : string) (attrs : list (string * string))
  : list (string * string) :=
  match attrs with
  | [] => [(name, value)]
  | (k, v) :: rest =>
      if String.eqb k name then (k, value) :: rest
      else (k, v) :: set_attr name value rest
  end.

Definition setAttribute (n : Node) (name value : string) : Node :=
  match n with
  | Element t a cs => Element t (set_attr name value a) cs
  | _ => n
  end.

(** [el.id]: the attribute, the empty string when it is missing. *)
Definition id (n : Node) : string :=
  match getAttribute n "id" with Some v => v | None => EmptyString end.

(** [el.dataset[key]] for a key without capitals. *)
Definition dataset (n : Node) (key : string) : option string :=
  getAttribute n ("data-" +++ key).

(** ** Class lists *)

(** ASCII white space, which separates the tokens of an attribute: TAB,
    LF, FF, CR and SPACE. *)
Definition is_ascii_whitespace (c : ascii) : bool :=
  let n := nat_of_ascii c in
  (n =? 9) || (n =? 10) || (n =? 12) || (n =? 13) || (n =? 32).

(** The pieces of [s] between white space, none of them empty; [cur] is
    the piece being read. *)
Fixpoint tokens_from (s : string) (cur : string) : list string :=
  let flush (k : list string) :=
    if is_empty cur then k else cur :: k in
  match s with
  | EmptyString => flush []
  | String c rest =>
      if is_ascii_whitespace c then flush (tokens_from rest EmptyString)
      else tokens_from rest (cur +++ String c EmptyString)
  end.

Definition mem_string (x : string) (l : list string) : bool :=
  existsb (String.eqb x) l.

Fixpoint dedup (l : list string) (seen : list string) : list string :=
  match l with
  | [] => []
  | x :: rest =>
      if mem_string x seen then dedup rest seen
      else x :: dedup rest (x :: seen)
  end.

(** [el.classList] as an ordered set of tokens. *)
Definition classList (n : Node) : list string :=
  match getAttribute n "class" with
  | Some v => dedup (tokens_from v EmptyString) []
  | None => []
  end.

Definition classList_contains (n : Node) (cls : string) : bool :=
  mem_string cls (classList n).

(** [el.classList.add(cls)]: nothing happens when the token is there,
    otherwise the attribute becomes the tokens joined by one space. *)
Definition classList_add (n : Node) (cls : string) : Node :=
  if isElement n then
    if classList_contains n cls then n
    else setAttribute n "class" (join " " (classList n ++ [cls]))
  else n.

(** ** Text content *)

Fixpoint textContent (n : Node) : string :=
  match n with
  | Text d => d
  | Comment d => d
  | Element _ _ cs =>
      (fix go (l : list Node) : string :=
         match l with
         | [] => EmptyString
         | Comment _ :: l' => go l'
         | c :: l' => textContent c +++ go l'
         end) cs
  end.

(** [el.textContent = s]: the children are replaced by one text node, by
    nothing when [s] is empty. *)
Definition set_textContent (n : Node) (s : string) : Node :=
  match n with
  | Element t a _ => Element t a (if is_empty s then [] else [Text s])
  | Text _ => Text s
  | Comment _ => Comment s
  end.

(** [node.cloneNode()] and [node.cloneNode(true)]. *)
Definition cloneNode (deep : bool) (n : Node) : Node :=
  match n with
  | Element t a cs => Element t a (if deep then cs else [])
  | _ => n
  end.

Definition appendChild (parent child : Node) : Node :=
  match parent with
  | Element t a cs => Element t a (cs ++ [child])
  | _ => parent
  end.

(** ** Paths *)

(** A node of a tree is named by the child indices that lead to it. *)
Abbreviation Path := (list nat) (only parsing).

Fixpoint node_at (root : Node) (p : Path) : option Node :=
  match p with
  | [] => Some root
  | i :: p' =>
      match nth_error (childNodes root) i with
      | Some c => node_at c p'
      | None => None
      end
  end.

Fixpoint update_nth {A} (i : nat) (f : A -> A) (l : list A) : list A :=
  match l, i with
  | [], _ => []
  | x :: l', O => f x :: l'
  | x :: l', S i' => x :: update_nth i' f l'
  end.

(** The tree with [f] applied to the node at [p]; unchanged when there is
    no such node. *)
Fixpoint update_at (root : Node) (p : Path) (f : Node -> Node) : Node :=
  match p with
  | [] => f root
  | i :: p' =>
      match root with
      | Element t a cs => Element t a (update_nth i (fun c => update_at c p' f) cs)
      | _ => root
      end
  end.

Definition parent_path (p : Path) : option Path :=
  match p with
  | [] => None
  | _ => Some (removelast p)
  end.

Fixpoint is_prefix (p q : Path) : bool :=
  match p, q with
  | [], _ => true
  | i :: p', j :: q' => (i =? j) && is_prefix p' q'
  | _ :: _, [] => false
  end.

Definition is_proper_prefix (p q : Path) : bool :=
  is_prefix p q && (List.length p <? List.length q).

(** Tree order on paths: [p] comes before [q] when it is a proper
    prefix of [q] (the node at [p] holds the node at [q]) or when, where
    they first differ, [p] takes the earlier child. *)
Fixpoint precedes (p q : Path) : bool :=
  match p, q with
  | [], [] => false
  | [], _ :: _ => true
  | _ :: _, [] => false
  | i :: p', j :: q' => (i <? j) || ((i =? j) && precedes p' q')
  end.

(** Listed in tree order. *)
Definition in_order (a b : Path * Node) : Prop := precedes (fst a) (fst b) = true.

(** ** Tree order *)

(** The element [n] and the elements below it, in tree order, each with
    its path from [n]. *)
Fixpoint elements_from (n : Node) : list (Path * Node) :=
  match n with
  | Element _ _ cs =>
      ([], n) ::
      (fix go (i : nat) (l : list Node) : list (Path * Node) :=
         match l with
         | [] => []
         | c :: l' =>
             map (fun pm => (i :: fst pm, snd pm)) (elements_from c)
             ++ go (S i) l'
         end) 0 cs
  | _ => []
  end.

(** The elements in and below the nodes [l], the first of which is
    child number [i] of its parent. *)
Fixpoint elements_of_children (i : nat) (l : list Node) : list (Path * Node) :=
  match l with
  | [] => []
  | c :: l' =>
      map (fun pm => (i :: fst pm, snd pm)) (elements_from c)
      ++ elements_of_children (S i) l'
  end.

(** The elements strictly below [n]. *)
Definition descendants (n : Node) : list (Path * Node) := tl (elements_from n).

(** Whether [test] holds of every element in and below [n]. *)
Definition every_element (test : Node -> bool) (n : Node) : bool :=
  forallb (fun pm => test (snd pm)) (elements_from n).

(** ** Selectors *)

(** The selectors the code uses: [tag], [.class], [tag.class] and [#id]. *)
Inductive Selector : Type :=
| ByTag (tag : string)
| ByClass (cls : string)
| ByTagClass (tag cls : string)
| ById (ident : string).

Definition has_tag (n : Node) (tag : string) : bool :=
  match n with Element t _ _ => String.eqb t tag | _ => false end.

Definition has_id (n : Node) (ident : string) : bool :=
  match getAttribute n "id" with
  | Some v => String.eqb v ident
  | None => false
  end.

Definition matches (sel : Selector) (n : Node) : bool :=
  isElement n &&
  match sel with
  | ByTag t => has_tag n t
  | ByClass c => classList_contains n c
  | ByTagClass t c => has_tag n t && classList_contains n c
  | ById i => has_id n i
  end.

Definition querySelectorAll (n : Node) (sel : Selector) : list (Path * Node) :=
  filter (fun pm => matches sel (snd pm)) (descendants n).

Definition querySelector (n : Node) (sel : Selector) : option (Path * Node) :=
  hd_error (querySelectorAll n sel).

(** [document.getElementById(ident)]: the first element in tree order. *)
Definition getElementById (document : Node) (ident : string) : option (Path * Node) :=
  find (fun pm => has_id (snd pm) ident) (elements_from document).

(** The prefixes of [p], longest first: the node itself, then its
    ancestors up to the root. *)
Fixpoint self_and_ancestors (p : Path) : list Path :=
  match p with
  | [] => [[]]
  | i :: p' => map (cons i) (self_and_ancestors p') ++ [[]]
  end.

(** [el.closest(sel)] for the node at [p] of the tree [root]. *)
Definition closest (root : Node) (p : Path) (sel : Selector) : option Path :=
  find (fun q => match node_at root q with
                 | Some n => matches sel n
                 | None => false
                 end)
       (self_and_ancestors p).

(** The identifiers of the elements of a tree, in document order. *)
Definition element_ids (root : Node) : list string :=
  flat_map (fun pm => match getAttribute (snd pm) "id" with
                      | Some i => [i]
                      | None => []
                      end)
           (elements_from root).

(** ** Serialisation ([innerHTML]) *)

Fixpoint escape (in_attribute : bool) (s : string) : string :=
  match s with
  | EmptyString => EmptyString
  | String c rest =>
      let tail := escape in_attribute rest in
      if Ascii.eqb c "&" then "&amp;" +++ tail
      else if Ascii.eqb c NBSP then "&nbsp;" +++ tail
      else if in_attribute then
        if Ascii.eqb c DQUOTE then "&quot;" +++ tail else String c tail
      else if Ascii.eqb c "<" then "&lt;" +++ tail
      else if Ascii.eqb c ">" then "&gt;" +++ tail
      else String c tail
  end.

Definition void_elements : list string :=
  ["area"; "base"; "basefont"; "bgsound"; "br"; "col"; "embed"; "frame";
   "hr"; "img"; "input"; "keygen"; "link"; "meta"; "param"; "source";
   "track"; "wbr"].

(** Elements whose text children are written as they are. *)
Definition raw_text_elements : list string :=
  ["style"; "script"; "xmp"; "iframe"; "noembed"; "noframes"; "plaintext";
   "noscript"].

Definition serialize_attrs (attrs : list (string * string)) : string :=
  fold_right
    (fun kv acc =>
       " " +++ fst kv +++ "=" +++
       String DQUOTE (escape true (snd kv) +++ String DQUOTE acc))
    EmptyString attrs.

Fixpoint serialize (raw : bool) (n : Node) : string :=
  match n with
  | Text d => if raw then d else escape false d
  | Comment d => "<!--" +++ d +++ "-->"
  | Element t a cs =>
      let inner :=
        (fix go (l : list Node) : string :=
           match l with
           | [] => EmptyString
           | c :: l' => serialize (mem_string t raw_text_elements) c +++ go l'
           end) cs in
      if mem_string t void_elements
      then "<" +++ t +++ serialize_attrs a +++ ">"
      else "<" +++ t +++ serialize_attrs a +++ ">" +++ inner +++ "</" +++ t +++ ">"
  end.

Definition outerHTML (n : Node) : string := serialize false n.

Definition innerHTML (n : Node) : string :=
  match n with
  | Element t _ cs =>
      fold_right (fun c acc => serialize (mem_string t raw_text_elements) c +++ acc)
                 EmptyString cs
  | _ => EmptyString
  end.

End DOM.

(* ================================================================== *)
(** * Array helpers *)
(* ================================================================== *)

Module JSArray.

(** [arr.forEach((x, i) => ...)] with the state the callback updates. *)
Definition forEach_indexed {A St : Type} (body : St -> A -> nat -> St)
           (arr : list A) (init : St) : St :=
  snd (fold_left (fun (st : nat * St) x => (S (fst st), body (snd st) x (fst st)))
                 arr (0, init)).

(** [arr.map((x, i) => ...)]. *)
Fixpoint map_indexed_from {A B : Type} (i : nat) (f : A -> nat -> B)
         (arr : list A) : list B :=
  match arr with
  | [] => []
  | x :: rest => f x i :: map_indexed_from (S i) f rest
  end.

Definition map_indexed {A B : Type} (f : A -> nat -> B) (arr : list A) : list B :=
  map_indexed_from 0 f arr.

(** [arr.pop()], the array that is left. *)
Definition pop {A : Type} (arr : list A) : list A := removelast arr.

End JSArray.

(* ================================================================== *)
(** * The content extractor *)
(* ================================================================== *)

Module Extractor.
Import JSString DOM JSArray.

(** The body of [lines.forEach] inside [getCodeblockContents]: a clone of
    the span for a line that is not empty, and a line feed after every
    line but the last. *)
Definition appendLine (childNode : Node) (count : nat)
           (resultNode : Node) (line : string) (i : nat) : Node :=
  let resultNode1 :=
    if negb (is_empty line)
    then appendChild resultNode (set_textContent (cloneNode false childNode) line)
    else resultNode in
  if i <? count - 1
  then appendChild resultNode1 (Text NEWLINE)
  else resultNode1.

(** The body of [codeEl.childNodes.forEach]. *)
Definition appendContents (resultNode childNode : Node) : Node :=
  if isElement childNode then
    if tagName_is childNode "SPAN" then
      let lines := split LF (textContent childNode) in
      forEach_indexed (appendLine childNode (List.length lines)) lines resultNode
    else resultNode
  else appendChild resultNode (cloneNode true childNode).

(** The node [getCodeblockContents] builds before it is serialised. *)
Definition codeblockResultNode (codeEl : Node) : Node :=
  fold_left appendContents (childNodes codeEl) (cloneNode false codeEl).

Definition getCodeblockContents (codeEl : Node) : string :=
  innerHTML (codeblockResultNode codeEl).

End Extractor.

(* ================================================================== *)
(** * Collaborators outside the file *)
(* ================================================================== *)

Module Collaborators.
Import DOM.

(** Modelled from the spec: the enumeration [CodeblockVariant] of
    [./types], which is not among the sources.  The spec lists the values
    of the variant attribute as legacy, no-line-numbers and the enhanced
    default; the comment on the expected markup in
    [getCodeElFromJekyllRougeCodeblock] spells them [legacy|enhanced]. *)
Inductive CodeblockVariant : Type :=
| ENHANCED
| NO_LINE_NUMBERS
| LEGACY.

Definition variant_value (v : CodeblockVariant) : string :=
  match v with
  | ENHANCED => "enhanced"
  | NO_LINE_NUMBERS => "no-line-numbers"
  | LEGACY => "legacy"
  end.

(** [Object.values(CodeblockVariant)] with the member each value names. *)
Definition variant_of_value (raw : string) : option CodeblockVariant :=
  find (fun v => String.eqb (variant_value v) raw)
       [ENHANCED; NO_LINE_NUMBERS; LEGACY].

Definition variant_eqb (a b : CodeblockVariant) : bool :=
  String.eqb (variant_value a) (variant_value b).

(** What the code takes from its surroundings: the [slugify] package, the
    HTML fragment parser behind [innerHTML] and [dangerouslySetInnerHTML],
    the rendered text of a node ([innerText]), the nodes that jsx-dom
    appends for a [null] child, the AnchorJS library (the tree after
    [new AnchorJS().add(selector)]), and
    [Config.DEFAULT_CODEBLOCK_VARIANT]. *)
Class Host : Type := {
  slugify : string -> string;
  parseFragment : string -> list Node;
  innerText : Node -> string;
  nullChild : list Node;
  anchorjs_add : string -> Node -> Node;
  DEFAULT_CODEBLOCK_VARIANT : CodeblockVariant
}.

End Collaborators.

(* ================================================================== *)
(** * JSX *)
(* ================================================================== *)

Module JSX.
Import JSString DOM Collaborators.

(** [clsx(...)]: the arguments that are strings, joined by a space. *)
Definition clsx (parts : list (option string)) : string :=
  join " " (flat_map (fun p => match p with Some c => [c] | None => [] end) parts).

(** [cond && cls] as an argument of [clsx]. *)
Definition when (cond : bool) (cls : string) : option string :=
  if cond then Some cls else None.

(** An attribute whose value is [undefined] or [null] is not set. *)
Definition props (l : list (string * option string)) : list (string * string) :=
  flat_map (fun kv => match snd kv with
                      | Some v => [(fst kv, v)]
                      | None => []
                      end) l.

(** [<tag ...attrs>{children}</tag>]: every child expression gives the
    nodes it appends. *)
Definition h (tag : string) (attrs : list (string * option string))
           (children : list (list Node)) : Node :=
  Element tag (props attrs) (List.concat children).

(** A child expression that is an element or [null]. *)
Definition orNull `{Host} (child : option Node) : list Node :=
  match child with
  | Some n => [n]
  | None => nullChild
  end.

End JSX.

(* ================================================================== *)
(** * The line renderer and the block assembly *)
(* ================================================================== *)

Module Renderer.
Import JSString JSNumber DOM JSArray Collaborators JSX.

Definition CODEBLOCK_LINE_CLASS : string := "primer-spec-code-block-line-code".
Definition CODEBLOCK_PROCESSED_CLASS : string := "primer-spec-code-block-processed".
Definition CODEBLOCK_TITLE_CLASS : string := "primer-spec-code-block-title".
Definition LANGUAGE_CONSOLE : string := "console".

Definition language_is_console (language : option string) : bool :=
  match language with
  | Some l => String.eqb l LANGUAGE_CONSOLE
  | None => false
  end.

(** The leading children that carry the class [gp] or [w]: the length of
    the prefix the [for] loop of [createCodeBlockLine] walks over. *)
Fixpoint excludedPrefix (children : list Node) : nat :=
  match children with
  | [] => 0
  | child :: rest =>
      if isElement child
         && (classList_contains child "gp" || classList_contains child "w")
      then S (excludedPrefix rest)
      else 0
  end.

(** Whether the first of the children is a [span] with the class [gp]:
    the test that decides whether the content cell gets its wrappers. *)
Definition startsWithPrompt (children : list Node) : bool :=
  match children with
  | first :: _ => tagName_is first "SPAN" && classList_contains first "gp"
  | [] => false
  end.

(** The special handling of [console] blocks, on the content cell. *)
Definition excludePrompt (LC_ID : string) (codeLine : Node) : Node :=
  match firstChild codeLine with
  | Some first =>
      if tagName_is first "SPAN" && classList_contains first "gp" then
        let codeLine1 := setAttribute codeLine "id" EmptyString in
        let children := childNodes codeLine1 in
        let i := excludedPrefix children in
        let childrenToExcludeFromSelection := firstn i children in
        let childrenToIncludeInSelection := skipn i children in
        match codeLine1 with
        | Element t a _ =>
            Element t a
              [ h "span" [("class", Some "primer-spec-code-block-non-selectable")]
                  [childrenToExcludeFromSelection];
                h "span" [("id", Some LC_ID)] [childrenToIncludeInSelection] ]
        | _ => codeLine1
        end
      else codeLine
  | None => codeLine
  end.

Record LineOptions : Type := {
  line_codeblockId : string;
  line_language : option string;
  line_html : string;
  lineNumber : nat;
  shouldHighlight : bool;
  line_showLineNumbers : bool
}.

(** [createCodeBlockLine]: a row with the line-number cell and the content
    cell.  The content cell is the first node of the row with the class
    [CODEBLOCK_LINE_CLASS]: the cell before it has another class and no
    children. *)
Definition createCodeBlockLine `{Host} (o : LineOptions) : Node :=
  let n := nat_toString (lineNumber o) in
  let L_ID := line_codeblockId o +++ "-L" +++ n in
  let LC_ID := line_codeblockId o +++ "-LC" +++ n in
  let LR_ID := line_codeblockId o +++ "-LR" +++ n in
  let numberCell :=
    h "td" [("id", Some L_ID);
            ("class", Some (clsx
               [Some "primer-spec-code-block-line-number";
                when (line_showLineNumbers o)
                     "primer-spec-code-block-line-numbers-shown"]));
            ("data-line-number", Some n)] [] in
  let codeLine :=
    h "td" [("id", Some LC_ID);
            ("class", Some (clsx
               [Some CODEBLOCK_LINE_CLASS;
                when (shouldHighlight o) "primer-spec-code-block-highlighted"]))]
      [parseFragment (line_html o)] in
  let codeLine' :=
    if language_is_console (line_language o)
    then excludePrompt LC_ID codeLine
    else codeLine in
  h "tr" [("id", Some LR_ID)] [[numberCell]; [codeLine']].

Definition genCopyButton (codeblockId : string) (language : option string) : Node :=
  h "div" [("class", Some "primer-spec-zeroclipboard-container position-absolute top-0 right-0")]
    [[ h "button"
         [("type", Some "button");
          ("class", Some "btn-octicon no-print m-2 p-2 tooltipped tooltipped-no-delay tooltipped-n");
          ("tabindex", Some "0");
          ("aria-label", Some (if language_is_console language
                               then "Copy all commands" else "Copy"))]
         [[ h "i" [("class", Some "far fa-copy")] [] ]] ]].

Definition genCodeBlockHeader (title anchorId : option string) : option Node :=
  match title with
  | None => None
  | Some t =>
      Some (h "div"
              [("class", Some "Box-header py-2 pr-2 d-flex flex-shrink-0 flex-md-row flex-items-center primer-spec-code-block-header")]
              [[ h "span"
                   [("class", Some (clsx [Some "flex-auto"; Some CODEBLOCK_TITLE_CLASS]));
                    ("data-anchor-id", anchorId)]
                   [[Text t]] ]])
  end.

Record BlockOptions : Type := {
  codeblockNumericId : nat;
  rawContent : string;
  language : option string;
  rawHighlightRanges : option string;
  title : option string;
  anchorId : option string;
  showLineNumbers : bool
}.

Definition NO_LINES_WARNING : string :=
  "useEnhancedCodeBlocks: Code Block appears to have no lines!".

(** The lines of the block: the content split at line feeds, without the
    last piece when that is empty or a lone closing tag of a span. *)
Definition contentLines (content : string) : list string :=
  let lines := split LF content in
  let lastLine := last lines EmptyString in
  if String.eqb lastLine EmptyString || String.eqb lastLine "</span>"
  then pop lines
  else lines.

(** An index or a count as a number. *)
Definition line_number_value (n : nat) : JSNum :=
  Fin (inject_Z (Z.of_nat n)).

(** [parseCodeHighlightRanges(rawHighlightRanges, lines.length)] as
    [createEnhancedCodeBlock] calls it, the attribute value handed over as
    its code units.  The length of an array is an integer below 2^32; for
    such a maximum every loop of the parser ends within [loop_tests] tests
    and the set is the one returned.  (The empty set stands for line counts
    no array can have, where the loop would still be running.) *)
Definition highlightedLines (rawHighlightRanges : option string) (lineCount : nat)
  : JSSet.t :=
  let maxLineNumber := line_number_value lineCount in
  match RangeParser.parseCodeHighlightRanges
          (RangeParser.loop_tests maxLineNumber)
          (option_map CodeUnits.units rawHighlightRanges) maxLineNumber with
  | Some set => set
  | None => JSSet.empty
  end.

(** [createEnhancedCodeBlock]: the warnings written to the console and
    the block, [None] for [null]. *)
Definition createEnhancedCodeBlock `{Host} (o : BlockOptions)
  : list string * option Node :=
  let lines := split LF (rawContent o) in
  if List.length lines =? 0 then ([NO_LINES_WARNING], None)
  else
    let lines := contentLines (rawContent o) in
    let highlightRanges :=
      highlightedLines (rawHighlightRanges o) (List.length lines) in
    let codeblockId := "primer-spec-code-block-" +++ nat_toString (codeblockNumericId o) in
    let header := genCodeBlockHeader (title o) (anchorId o) in
    let rows :=
      map_indexed
        (fun line lineNumber =>
           createCodeBlockLine
             {| line_codeblockId := codeblockId;
                line_language := language o;
                line_html := line;
                lineNumber := lineNumber + 1;
                shouldHighlight :=
                  JSSet.has (line_number_value (lineNumber + 1)) highlightRanges;
                line_showLineNumbers := showLineNumbers o |})
        lines in
    ([], Some
      (h "div" [("id", Some codeblockId); ("class", Some "Box mt-3 text-mono")]
         [ orNull header;
           [ h "div"
               [("class", Some (clsx
                  [Some "Box-body"; Some "p-0"; Some "primer-spec-code-block-body";
                   when (match header with Some _ => true | None => false end)
                        "primer-spec-code-block-header-present"]))]
               [ [ h "table" [("class", Some "highlight")]
                     [[ h "tbody" [] [rows] ]] ];
                 orNull (if 1 <? List.length lines
                         then Some (genCopyButton codeblockId (language o))
                         else None) ] ] ])).

(** The content cell of a row. *)
Definition contentCell (row : Node) : option Node :=
  nth_error (childNodes row) 1.

(** The rows of a rendered block: the children of its [tbody]. *)
Definition tableRows (block : Node) : list Node :=
  match querySelector block (ByTag "tbody") with
  | Some (_, tbody) => childNodes tbody
  | None => []
  end.

End Renderer.

(* ================================================================== *)
(** * The copy controller *)
(* ================================================================== *)

Module Copy.
Import JSString DOM JSArray Collaborators Renderer.

(** A line extractor: the line, its number and the block give a string,
    or [None] for [null] and [undefined]. *)
Definition MapFn : Type := Node -> nat -> Node -> option string.

Definition DEFAULT_COPY_LINES_MAP_FN `{Host} : MapFn :=
  fun line _ _ => Some (innerText line).

Definition CONSOLE_COPY_LINES_MAP_FN `{Host} : MapFn :=
  fun line lineNumber codeblock =>
    match querySelector line (ByClass "go") with
    | Some _ => None
    | None =>
        let LC_ID := id codeblock +++ "-LC" +++ nat_toString lineNumber in
        match querySelector line (ById LC_ID) with
        | Some (_, lineText) => Some (innerText lineText)
        | None => None
        end
    end.

(** [Boolean(x)] on the result of an extractor. *)
Definition truthy (x : option string) : bool :=
  match x with
  | Some s => negb (is_empty s)
  | None => false
  end.

Definition string_of (x : option string) : string :=
  match x with Some s => s | None => EmptyString end.

(** [copyLines]: the text handed to [navigator.clipboard.writeText]. *)
Definition copyLines (codeblock : Node) (mapFn : MapFn) : string :=
  let lines := map snd (querySelectorAll codeblock (ByClass CODEBLOCK_LINE_CLASS)) in
  let linesOfText :=
    filter truthy (map_indexed (fun line i => mapFn line (i + 1) codeblock) lines) in
  join NEWLINE (map string_of linesOfText).

End Copy.

(* ================================================================== *)
(** * The selection controller *)
(* ================================================================== *)

Module Selection.
Import JSString DOM.

(** A range runs between two boundary points, each a node of the
    document and an offset in it. *)
Record Range : Type := {
  startContainer : Path;
  startOffset : nat;
  endContainer : Path;
  endOffset : nat
}.

(** Whether the boundary point [a] lies before [b] in the document. *)
Definition point_before (a b : Path * nat) : bool :=
  precedes (fst a ++ [snd a]) (fst b ++ [snd b]).

(** [document.createRange()]: collapsed at the start of the document. *)
Definition createRange : Range :=
  {| startContainer := []; startOffset := 0; endContainer := []; endOffset := 0 |}.

(** [range.setStart(node, offset)]: the end follows when the new start
    lies after it. *)
Definition setStart (r : Range) (node : Path) (offset : nat) : Range :=
  if point_before (endContainer r, endOffset r) (node, offset)
  then {| startContainer := node; startOffset := offset;
          endContainer := node; endOffset := offset |}
  else {| startContainer := node; startOffset := offset;
          endContainer := endContainer r; endOffset := endOffset r |}.

(** [range.setEnd(node, offset)]: the start follows when the new end lies
    before it. *)
Definition setEnd (r : Range) (node : Path) (offset : nat) : Range :=
  if point_before (node, offset) (startContainer r, startOffset r)
  then {| startContainer := node; startOffset := offset;
          endContainer := node; endOffset := offset |}
  else {| startContainer := startContainer r; startOffset := startOffset r;
          endContainer := node; endOffset := offset |}.

(** The part of the browser [selectLines] reads and writes: the document,
    whether [document.getSelection()] gives a selection at all, the ranges
    of that selection and the console. *)
Record Browser : Type := {
  document : Node;
  selectionAvailable : bool;
  ranges : list Range;
  console : list string
}.

Definition SELECT_ERROR : string :=
  "Primer Spec Code Block: selectLines: start or end nodes are null. Please report this issue on https://github.com/eecs485staff/primer-spec/issues. Thanks!".

Definition console_error (msg : string) (b : Browser) : Browser :=
  {| document := document b; selectionAvailable := selectionAvailable b;
     ranges := ranges b; console := console b ++ [msg] |}.

(** [document.getSelection()?.removeAllRanges()] *)
Definition removeAllRanges (b : Browser) : Browser :=
  if selectionAvailable b
  then {| document := document b; selectionAvailable := true;
          ranges := []; console := console b |}
  else b.

(** [document.getSelection()?.addRange(range)]: a selection that already
    holds a range keeps it. *)
Definition addRange (r : Range) (b : Browser) : Browser :=
  if selectionAvailable b
  then match ranges b with
       | [] => {| document := document b; selectionAvailable := true;
                  ranges := [r]; console := console b |}
       | _ => b
       end
  else b.

Definition contentCellId (codeblockId : string) (line : Z) : string :=
  codeblockId +++ "-LC" +++ Z_toString line.

(** [selectLines(codeblockId, startLine_, endLine_)] on integer line
    numbers. *)
Definition selectLines (codeblockId : string) (startLine_ endLine_ : Z)
           (b : Browser) : Browser :=
  let '(startLine, endLine) :=
    if (startLine_ >? endLine_)%Z then (endLine_, startLine_)
    else (startLine_, endLine_) in
  let startNode := getElementById (document b) (contentCellId codeblockId startLine) in
  let endNode := getElementById (document b) (contentCellId codeblockId endLine) in
  match startNode, endNode with
  | Some (startPath, _), Some (endPath, endEl) =>
      let range := createRange in
      let range := setStart range startPath 0 in
      let range := setEnd range endPath (List.length (childNodes endEl)) in
      addRange range (removeAllRanges b)
  | _, _ => console_error SELECT_ERROR b
  end.

(** What [selectLines] does once its two line numbers are in order. *)
Definition selectOrdered (codeblockId : string) (startLine endLine : Z)
           (b : Browser) : Browser :=
  match getElementById (document b) (contentCellId codeblockId startLine),
        getElementById (document b) (contentCellId codeblockId endLine) with
  | Some (startPath, _), Some (endPath, endEl) =>
      addRange (setEnd (setStart createRange startPath 0)
                       endPath (List.length (childNodes endEl)))
               (removeAllRanges b)
  | _, _ => console_error SELECT_ERROR b
  end.

End Selection.

(* ================================================================== *)
(** * The block orchestrator *)
(* ================================================================== *)

Module Orchestrator.
Import JSString DOM JSArray Collaborators JSX Renderer Extractor.

Definition MALFORMED_WARNING : string :=
  "useEnhancedCodeBlocks: Code Block has malformed structure. See Primer Spec Docs for expected structure. https://github.com/eecs485staff/primer-spec/blob/main/docs/USAGE_ADVANCED.md#enhanced-code-blocks".
Definition MISSING_PARENT_WARNING : string :=
  "useEnhanccedCodeBlocks: Codeblock missing parent".
Definition MAIN_REF_ERROR : string :=
  "Primer Spec: Main Content: Expected main content ref to be initialized.".

(** [a?.firstElementChild] *)
Definition andThenFirstElementChild (a : option Node) : option Node :=
  match a with
  | Some n => firstElementChild n
  | None => None
  end.

(** A way to find the code element of a block: the warnings it writes and
    the element, [None] for [null]. *)
Definition GetCodeEl : Type := Node -> list string * option Node.

Definition getCodeElFromJekyllRougeCodeblock : GetCodeEl :=
  fun codeblock =>
    match andThenFirstElementChild
            (andThenFirstElementChild (firstElementChild codeblock)) with
    | None => ([MALFORMED_WARNING], None)
    | Some codeEl => ([], Some codeEl)
    end.

Definition getCodeElFromPreCodeblock : GetCodeEl :=
  fun codeblock =>
    match firstElementChild codeblock with
    | Some child =>
        if (List.length (childNodes codeblock) =? 1) && tagName_is child "CODE"
        then ([], Some child)
        else ([], Some codeblock)
    | None => ([], Some codeblock)
    end.

Definition getCodeblockVariant `{Host} (codeblock : Node) : CodeblockVariant :=
  match dataset codeblock "variant" with
  | Some raw =>
      let rawVariant := toLowerCase raw in
      if is_empty rawVariant then DEFAULT_CODEBLOCK_VARIANT
      else match variant_of_value rawVariant with
           | Some v => v
           | None => DEFAULT_CODEBLOCK_VARIANT
           end
  | None => DEFAULT_CODEBLOCK_VARIANT
  end.

Definition shouldRetainLegacyCodeBlock `{Host} (codeblock : Node) : bool :=
  match querySelector codeblock (ByClass "language-mermaid") with
  | Some _ => true
  | None => variant_eqb (getCodeblockVariant codeblock) LEGACY
  end.

(** [getCodeBlockLanguage]: what follows [language-] in the first class
    that starts so. *)
Definition getCodeBlockLanguage (codeblockSrc : Node) : option string :=
  match find (fun className => startsWith className "language-")
             (classList codeblockSrc) with
  | Some className => stripPrefix "language-" className
  | None => None
  end.

Definition createCodeBlockAnchorId `{Host} (codeblockNumericId : nat)
           (title : string) : string :=
  slugify title +++ "-" +++ nat_toString codeblockNumericId.

(** [value || null] on an attribute value. *)
Definition orNullString (value : option string) : option string :=
  match value with
  | Some v => if is_empty v then None else Some v
  | None => None
  end.

(** What became of a block the pass visited. *)
Inductive Outcome : Type :=
| Retained
| Enhanced
| Skipped.

(** A visit of [forEach]: the place of the block in the root when the pass
    began, the block, the number drawn for it (none for a retained block)
    and the outcome. *)
Record Visit : Type := {
  visit_path : Path;
  visit_block : Node;
  visit_id : option nat;
  visit_outcome : Outcome
}.

(** The state a pass works on.  [root] is the tree under the main
    element.  A block that was replaced leaves the root with everything
    below it, and later blocks of the node list may lie inside it: the
    trees that left the root are kept in [detached], the latest first,
    each under the path its top had in the root.  [visits] records what
    [forEach] did, in order. *)
Record Pass : Type := {
  root : Node;
  detached : list (Path * Node);
  nextCodeBlockId : nat;
  console : list string;
  visits : list Visit
}.

Definition path_eqb (p q : Path) : bool :=
  is_prefix p q && is_prefix q p.

(** The tree that holds the block once at [q] in the root. *)
Definition holder (st : Pass) (q : Path) : Path * Node :=
  match find (fun e => is_proper_prefix (fst e) q) (detached st) with
  | Some e => e
  | None => ([], root st)
  end.

(** The block once at [q] in the root, as it is now. *)
Definition fetch (st : Pass) (q : Path) : option Node :=
  node_at (snd (holder st q)) (skipn (List.length (fst (holder st q))) q).

Definition put_tree (st : Pass) (key : Path) (tree : Node) : Pass :=
  match key with
  | [] => {| root := tree; detached := detached st;
             nextCodeBlockId := nextCodeBlockId st;
             console := console st; visits := visits st |}
  | _ => {| root := root st;
            detached := map (fun e => if path_eqb (fst e) key
                                      then (key, tree) else e) (detached st);
            nextCodeBlockId := nextCodeBlockId st;
            console := console st; visits := visits st |}
  end.

Definition detach (st : Pass) (q : Path) (tree : Node) : Pass :=
  {| root := root st; detached := (q, tree) :: detached st;
     nextCodeBlockId := nextCodeBlockId st;
     console := console st; visits := visits st |}.

Definition warn (msgs : list string) (st : Pass) : Pass :=
  {| root := root st; detached := detached st;
     nextCodeBlockId := nextCodeBlockId st;
     console := console st ++ msgs; visits := visits st |}.

Definition record_visit (v : Visit) (st : Pass) : Pass :=
  {| root := root st; detached := detached st;
     nextCodeBlockId := nextCodeBlockId st;
     console := console st; visits := visits st ++ [v] |}.

(** [nextCodeBlockId++] *)
Definition draw_id (st : Pass) : nat * Pass :=
  (nextCodeBlockId st,
   {| root := root st; detached := detached st;
      nextCodeBlockId := S (nextCodeBlockId st);
      console := console st; visits := visits st |}).

(** [<div id={anchorId ?? undefined} class="primer-spec-code-block">
    {enhancedCodeBlock}</div>] *)
Definition wrapEnhanced (anchorId : option string) (enhancedCodeBlock : Node) : Node :=
  h "div" [("id", anchorId); ("class", Some "primer-spec-code-block")]
    [[enhancedCodeBlock]].

(** The body of [forEach] in [enhanceBlocks], for the block that was at
    [q] when the node list was taken. *)
Definition enhanceBlock `{Host} (getCodeEl : GetCodeEl) (st : Pass) (q : Path) : Pass :=
  let key := fst (holder st q) in
  let tree := snd (holder st q) in
  let rel := skipn (List.length key) q in
  match fetch st q with
  | None => st
  | Some codeblock =>
      let visit id outcome :=
        {| visit_path := q; visit_block := codeblock;
           visit_id := id; visit_outcome := outcome |} in
      if shouldRetainLegacyCodeBlock codeblock then
        let marked :=
          update_at tree rel (fun n => classList_add n CODEBLOCK_PROCESSED_CLASS) in
        record_visit (visit None Retained) (put_tree st key marked)
      else
        let (codeblockNumericId, st1) := draw_id st in
        match parent_path rel with
        | None =>
            record_visit (visit (Some codeblockNumericId) Skipped)
                         (warn [MISSING_PARENT_WARNING] st1)
        | Some _ =>
            match getCodeEl codeblock with
            | (msgs, None) =>
                record_visit (visit (Some codeblockNumericId) Skipped) (warn msgs st1)
            | (msgs, Some codeblockContentsEl) =>
                let st2 := warn msgs st1 in
                let codeblockContents := getCodeblockContents codeblockContentsEl in
                let title := orNullString (dataset codeblock "title") in
                let anchorId :=
                  match title with
                  | Some t => Some (createCodeBlockAnchorId codeblockNumericId t)
                  | None => None
                  end in
                match createEnhancedCodeBlock
                        {| codeblockNumericId := codeblockNumericId;
                           rawContent := codeblockContents;
                           language := getCodeBlockLanguage codeblock;
                           rawHighlightRanges := orNullString (dataset codeblock "highlight");
                           title := title;
                           anchorId := anchorId;
                           showLineNumbers :=
                             negb (variant_eqb (getCodeblockVariant codeblock)
                                               NO_LINE_NUMBERS) |} with
                | (msgs', None) =>
                    record_visit (visit (Some codeblockNumericId) Skipped)
                                 (warn msgs' st2)
                | (msgs', Some enhancedCodeBlock) =>
                    let replaced :=
                      update_at tree rel
                                (fun _ => wrapEnhanced anchorId enhancedCodeBlock) in
                    record_visit (visit (Some codeblockNumericId) Enhanced)
                      (detach (put_tree (warn msgs' st2) key replaced) q codeblock)
                end
            end
        end
  end.

(** The filter of [enhanceBlocks]: nothing marked inside the block, and
    neither the block nor anything around it marked. *)
Definition notProcessed (main : Node) (codeblock : Path * Node) : bool :=
  match querySelector (snd codeblock) (ByClass CODEBLOCK_PROCESSED_CLASS) with
  | Some _ => false
  | None =>
      match closest main (fst codeblock) (ByClass CODEBLOCK_PROCESSED_CLASS) with
      | Some _ => false
      | None => true
      end
  end.

(** The blocks a pass over [codeblocks] visits. *)
Definition unprocessed (mainEl : Node) (codeblocks : list (Path * Node))
  : list (Path * Node) :=
  filter (notProcessed mainEl) codeblocks.

(** The state of the page between passes. *)
Record Page : Type := {
  main : Node;
  page_console : list string;
  page_visits : list Visit
}.

(** [enhanceBlocks(codeblocks, getCodeEl, startId)]: the page after the
    pass and the number returned.  When the blocks have been visited,
    AnchorJS adds its anchors to the block titles of the tree. *)
Definition enhanceBlocks `{Host} (codeblocks : list (Path * Node))
           (getCodeEl : GetCodeEl) (startId : nat) (page : Page) : Page * nat :=
  let st :=
    fold_left (enhanceBlock getCodeEl)
              (map fst (unprocessed (main page) codeblocks))
              {| root := main page; detached := [];
                 nextCodeBlockId := startId;
                 console := page_console page;
                 visits := page_visits page |} in
  ({| main := anchorjs_add ("." +++ CODEBLOCK_TITLE_CLASS) (root st);
      page_console := console st; page_visits := visits st |},
   nextCodeBlockId st).

Definition WRAPPED : Selector := ByTagClass "div" "highlighter-rouge".
Definition BARE : Selector := ByTag "pre".

(** The two passes of [useEnhancedCodeBlocks] on the tree of the main
    element. *)
Definition enhancePage `{Host} (page : Page) : Page :=
  let (page1, numCodeBlocks) :=
    enhanceBlocks (querySelectorAll (main page) WRAPPED)
                  getCodeElFromJekyllRougeCodeblock 0 page in
  fst (enhanceBlocks (querySelectorAll (main page1) BARE)
                     getCodeElFromPreCodeblock numCodeBlocks page1).

Definition freshPage (mainEl : Node) : Page :=
  {| main := mainEl; page_console := []; page_visits := [] |}.

(** [useEnhancedCodeBlocks(mainElRef)]: an error for an empty ref,
    otherwise the page after both passes. *)
Definition useEnhancedCodeBlocks `{Host} (current : option Node) : string + Page :=
  match current with
  | None => inl MAIN_REF_ERROR
  | Some mainEl => inr (enhancePage (freshPage mainEl))
  end.

(** The numbers of the visits with a given outcome, in order. *)
Definition ids_with (o : Outcome) (vs : list Visit) : list nat :=
  flat_map (fun v =>
              match visit_outcome v, o, visit_id v with
              | Enhanced, Enhanced, Some n => [n]
              | Skipped, Skipped, Some n => [n]
              | _, _, _ => []
              end) vs.

Definition drawn_ids (vs : list Visit) : list nat :=
  flat_map (fun v => match visit_id v with Some n => [n] | None => [] end) vs.

(** ** Notions for reasoning about a pass *)

Definition keys (st : Pass) : list Path := map fst (detached st).

(** The trees that left the root are filed under distinct paths, none of
    them empty, all before [p] in tree order. *)
Record Filed (st : Pass) (p : Path) : Prop := {
  filed_distinct : NoDup (keys st);
  filed_before : forall k, In k (keys st) -> precedes k p = true;
  filed_nonempty : forall k, In k (keys st) -> k <> []
}.

(** The tree that holds the block at [p], with [f] applied to the
    block. *)
Definition rewritten (st : Pass) (p : Path) (f : Node -> Node) : Pass :=
  put_tree st (fst (holder st p))
           (update_at (snd (holder st p))
                      (skipn (List.length (fst (holder st p))) p) f).

(** The markup that takes the place of an enhanced block. *)
Definition Wrapper `{Host} (w : Node) : Prop :=
  exists anchorId options msgs block,
    createEnhancedCodeBlock options = (msgs, Some block)
    /\ w = wrapEnhanced anchorId block.

(** What a visit does to the trees. *)
Inductive Effect `{Host} (st : Pass) (p : Path) (c : Node) (st' : Pass)
  : Outcome -> Prop :=
| effect_retained :
    root st' = root (rewritten st p (fun n => classList_add n CODEBLOCK_PROCESSED_CLASS)) ->
    detached st' = detached (rewritten st p (fun n => classList_add n CODEBLOCK_PROCESSED_CLASS)) ->
    Effect st p c st' Retained
| effect_skipped :
    root st' = root st -> detached st' = detached st ->
    Effect st p c st' Skipped
| effect_enhanced w :
    Wrapper w ->
    root st' = root (rewritten st p (fun _ => w)) ->
    detached st' = (p, c) :: detached (rewritten st p (fun _ => w)) ->
    Effect st p c st' Enhanced.

(** What is known of one visit: it is numbered unless the block is
    retained, and it is retained exactly when the block asks for it. *)
Definition visit_sound `{Host} (v : Visit) : Prop :=
  (visit_id v = None <-> visit_outcome v = Retained)
  /\ (visit_outcome v = Retained <-> shouldRetainLegacyCodeBlock (visit_block v) = true).

Definition visited (v : Visit) : Path * Node := (visit_path v, visit_block v).

End Orchestrator.

(* ================================================================== *)
(** * A host for the worked examples *)
(* ================================================================== *)

Module ExampleHost.
Import JSString DOM Collaborators.

(** A fragment parser for the markup the extractor writes: text with the
    five escapes of the serialiser, comments, and elements whose attribute
    values stand in double quotes.  It stands for the parser of the
    browser on such markup. *)

Definition entities : list (string * ascii) :=
  [("&amp;", "&"%char); ("&lt;", "<"%char); ("&gt;", ">"%char);
   ("&quot;", DQUOTE); ("&nbsp;", NBSP)].

Definition match_entity (s : string) : option (ascii * string) :=
  match find (fun e => startsWith s (fst e)) entities with
  | Some (name, c) =>
      match stripPrefix name s with
      | Some rest => Some (c, rest)
      | None => None
      end
  | None => None
  end.

Fixpoint unescape (fuel : nat) (s : string) : string :=
  match fuel with
  | O => s
  | S fuel' =>
      match s with
      | EmptyString => EmptyString
      | String c rest =>
          match match_entity s with
          | Some (d, rest') => String d (unescape fuel' rest')
          | None => String c (unescape fuel' rest)
          end
      end
  end.

(** The characters before the first one that satisfies [stop], and the
    rest from that character on. *)
Fixpoint span_until (stop : ascii -> bool) (s : string) : string * string :=
  match s with
  | EmptyString => (EmptyString, EmptyString)
  | String c rest =>
      if stop c then (EmptyString, s)
      else let (a, b) := span_until stop rest in (String c a, b)
  end.

(** The characters before the first occurrence of [pat], and what follows
    the occurrence. *)
Fixpoint cut_at (pat s : string) : string * string :=
  match stripPrefix pat s with
  | Some rest => (EmptyString, rest)
  | None =>
      match s with
      | EmptyString => (EmptyString, EmptyString)
      | String c rest => let (a, b) := cut_at pat rest in (String c a, b)
      end
  end.

Fixpoint skip_white_space (s : string) : string :=
  match s with
  | EmptyString => EmptyString
  | String c rest => if is_ascii_whitespace c then skip_white_space rest else s
  end.

Definition tail (s : string) : string :=
  match s with String _ rest => rest | EmptyString => EmptyString end.

(** Attributes up to and including the [>] that ends the tag. *)
Fixpoint parse_attrs (fuel : nat) (s : string) : list (string * string) * string :=
  match fuel with
  | O => ([], s)
  | S fuel' =>
      let s1 := skip_white_space s in
      match s1 with
      | EmptyString => ([], EmptyString)
      | String ">" rest => ([], rest)
      | _ =>
          let (name, r1) :=
            span_until (fun c => Ascii.eqb c "=" || Ascii.eqb c ">"
                                 || is_ascii_whitespace c) s1 in
          match r1 with
          | String "=" (String q r2) =>
              let (value, r3) := span_until (Ascii.eqb q) r2 in
              let (more, r4) := parse_attrs fuel' (tail r3) in
              ((name, unescape (String.length value) value) :: more, r4)
          | _ =>
              let (more, r4) := parse_attrs fuel' r1 in
              ((name, EmptyString) :: more, r4)
          end
      end
  end.

(** The nodes at the front of [s], up to the end of the string or to a
    closing tag, and what is left. *)
Fixpoint parse_nodes (fuel : nat) (s : string) : list Node * string :=
  match fuel with
  | O => ([], s)
  | S fuel' =>
      match s with
      | EmptyString => ([], EmptyString)
      | String "<" (String "/" _) => ([], s)
      | String "<" rest =>
          match stripPrefix "!--" rest with
          | Some r1 =>
              let (data, r2) := cut_at "-->" r1 in
              let (more, r3) := parse_nodes fuel' r2 in
              (Comment data :: more, r3)
          | None =>
              let (name, r1) :=
                span_until (fun c => Ascii.eqb c ">" || is_ascii_whitespace c) rest in
              let (attrs, r2) := parse_attrs (String.length r1) r1 in
              if mem_string name void_elements then
                let (more, r3) := parse_nodes fuel' r2 in
                (Element name attrs [] :: more, r3)
              else
                let (children, r3) := parse_nodes fuel' r2 in
                let r4 := snd (cut_at ">" r3) in
                let (more, r5) := parse_nodes fuel' r4 in
                (Element name attrs children :: more, r5)
          end
      | _ =>
          let (text, r1) := span_until (Ascii.eqb "<") s in
          let (more, r2) := parse_nodes fuel' r1 in
          (Text (unescape (String.length text) text) :: more, r2)
      end
  end.

Definition parse (html : string) : list Node :=
  fst (parse_nodes (S (String.length html)) html).

(** A stand-in for AnchorJS on a class selector: every element with the
    class that does not begin or end with a link of the library gets one
    appended, pointing at the id the element names (its [id], else its
    [data-anchor-id], else its text). *)
Definition anchor_target (n : Node) : string :=
  match getAttribute n "id" with
  | Some i => i
  | None =>
      match getAttribute n "data-anchor-id" with
      | Some i => i
      | None => textContent n
      end
  end.

Definition anchor_link (target : string) : Node :=
  Element "a" [("class", "anchorjs-link "); ("aria-label", "Anchor");
               ("href", "#" +++ target)] [].

Definition has_anchor (n : Node) : bool :=
  match firstChild n, last (map Some (childNodes n)) None with
  | Some first, Some final =>
      classList_contains first "anchorjs-link"
      || classList_contains final "anchorjs-link"
  | _, _ => false
  end.

Fixpoint add_anchors (cls : string) (n : Node) : Node :=
  match n with
  | Element t a cs =>
      let n' := Element t a (map (add_anchors cls) cs) in
      if classList_contains n' cls && negb (has_anchor n')
      then appendChild n' (anchor_link (anchor_target n'))
      else n'
  | other => other
  end.

(** The host of the examples: titles slugify to themselves (the titles
    used are lower-case words), the rendered text of a node is its text
    content (nothing in the examples is hidden or laid out as a block),
    a [null] child becomes an empty comment, anchors are added as the
    stand-in does, and blocks are enhanced by default. *)
#[export] Instance host : Host := {
  slugify := fun title => title;
  parseFragment := parse;
  innerText := textContent;
  nullChild := [Comment EmptyString];
  anchorjs_add := fun selector => add_anchors (tail selector);
  DEFAULT_CODEBLOCK_VARIANT := ENHANCED
}.

(** ** Example documents *)

Definition span (cls text : string) : Node :=
  Element "span" [("class", cls)] [Text text].

(** A console block in the wrapped shape: two commands with a prompt and
    one line of output between them. *)
Definition consoleSource : Node :=
  Element "div" [("class", "language-console highlighter-rouge")]
    [Element "div" [("class", "highlight")]
       [Element "pre" [("class", "highlight")]
          [Element "code" []
             [span "gp" "$"; span "w" " "; Text "ls"; Text NEWLINE;
              span "go" "file.txt"; Text NEWLINE;
              span "gp" "$"; span "w" " "; Text "pwd"; Text NEWLINE]]]].

(** A console block in the wrapped shape whose first command runs over
    two lines, the second of them without a prompt. *)
Definition continuedSource : Node :=
  Element "div" [("class", "language-console highlighter-rouge")]
    [Element "div" [("class", "highlight")]
       [Element "pre" [("class", "highlight")]
          [Element "code" []
             [span "gp" "$"; span "w" " "; Text "ls \"; Text NEWLINE;
              Text "  -la"; Text NEWLINE;
              span "gp" "$"; span "w" " "; Text "pwd"; Text NEWLINE]]]].

(** A page with a wrapped block that lacks the inner levels and holds a
    titled [pre] of two lines. *)
Definition malformedPage : Node :=
  Element "main" []
    [Element "div" [("class", "highlighter-rouge")]
       [Element "pre" [("data-title", "demo")]
          [Text ("x" +++ NEWLINE +++ "y")]]].

(** A page with a wrapped block without any content, followed by a
    regular wrapped block. *)
Definition gapPage : Node :=
  Element "main" []
    [Element "div" [("class", "highlighter-rouge")] [];
     Element "div" [("class", "highlighter-rouge")]
       [Element "div" [("class", "highlight")]
          [Element "pre" [("class", "highlight")]
             [Element "code" [] [Text ("a" +++ NEWLINE +++ "b")]]]]].

(** A page with a regular wrapped block, a legacy one and a bare [pre]. *)
Definition regularPage : Node :=
  Element "main" []
    [Element "div" [("class", "language-python highlighter-rouge"); ("data-highlight", "2")]
       [Element "div" [("class", "highlight")]
          [Element "pre" [("class", "highlight")]
             [Element "code" [] [span "k" "def"; Text (" f():" +++ NEWLINE +++ "  pass" +++ NEWLINE)]]]];
     Element "div" [("class", "highlighter-rouge"); ("data-variant", "legacy")]
       [Element "div" [("class", "highlight")]
          [Element "pre" [("class", "highlight")]
             [Element "code" [] [Text "kept"]]]];
     Element "pre" [] [Element "code" [] [Text ("one" +++ NEWLINE +++ "two")]]].

(** ** Rendered examples *)

(** The block rendered from the console example. *)
Definition renderedConsoleBlock : option Node :=
  option_map snd
    (getElementById
       (Orchestrator.main
          (Orchestrator.enhancePage
             (Orchestrator.freshPage (Element "main" [] [consoleSource]))))
       "primer-spec-code-block-0").

(** The block rendered from the console example with a continued
    command. *)
Definition renderedContinuedBlock : option Node :=
  option_map snd
    (getElementById
       (Orchestrator.main
          (Orchestrator.enhancePage
             (Orchestrator.freshPage (Element "main" [] [continuedSource]))))
       "primer-spec-code-block-0").

(** A browser showing the regular page after a run, with a selection that
    holds one range. *)
Definition exampleBrowser : Selection.Browser :=
  {| Selection.document :=
       Orchestrator.main (Orchestrator.enhancePage (Orchestrator.freshPage regularPage));
     Selection.selectionAvailable := true;
     Selection.ranges :=
       [{| Selection.startContainer := [0]; Selection.startOffset := 0;
           Selection.endContainer := [0]; Selection.endOffset := 1 |}];
     Selection.console := [] |}.

(** The page with one empty [pre], after a run. *)
Definition emptyBlockPage : Orchestrator.Page :=
  Orchestrator.enhancePage
    (Orchestrator.freshPage (Element "main" [] [Element "pre" [] []])).

End ExampleHost.

(* ================================================================== *)
(** * The range parser as the specification words it *)
(* ================================================================== *)

Module RangeSpec.
Import CodeUnits JSNumber RangeParser.

(** A number within [[1, max]]. *)
Definition within (max : JSNum) (n : JSNum) : bool :=
  match n with
  | NaN => false
  | _ => num_le (Fin 1%Q) n && num_le n max
  end.

(** The integers [lo], [lo + 1], ... as long as they do not exceed [hi]. *)
Definition Z_interval (lo hi : Z) : list Z :=
  map (fun k => (lo + Z.of_nat k)%Z) (seq 0 (Z.to_nat (hi - lo + 1))).

(** Every integer in [[lower, upper]], for finite bounds. *)
Definition integers_between (lower upper : JSNum) : list JSNum :=
  match lower, upper with
  | Fin l, Fin u =>
      map (fun z => Fin (inject_Z z)) (Z_interval (Qceiling l) (Qfloor u))
  | _, _ => []
  end.

(** The first [n] of [i], [i + 1], [(i + 1) + 1], ..., each sum rounded
    to a double, as long as the value does not exceed [upper]. *)
Fixpoint steps (n : nat) (i upper : JSNum) : list JSNum :=
  match n with
  | O => []
  | S n' => if num_le i upper then i :: steps n' (num_succ i) upper else []
  end.

(** [lower], [lower + 1], ... as long as the value does not exceed
    [upper]: all of them when the bounds lie within [[1, 2^53 - 1]]. *)
Definition steps_between (lower upper : JSNum) : list JSNum :=
  steps (loop_tests upper) lower upper.

(** What one token contributes; [expand] says which numbers a pair of
    bounds stands for. *)
Definition token_members (expand : JSNum -> JSNum -> list JSNum) (max : JSNum)
           (token : ustring) : list JSNum :=
  if within max (ToNumber token) then [ToNumber token]
  else match split HYPHEN (trim token) with
       | [a; b] =>
           if within max (ToNumber a) && within max (ToNumber b)
              && num_le (ToNumber a) (ToNumber b)
           then expand (ToNumber a) (ToNumber b)
           else []
       | _ => []
       end.

(** The reference algorithm: the members of all tokens, nothing for an
    absent or empty input. *)
Definition parseRanges (expand : JSNum -> JSNum -> list JSNum)
           (raw : option ustring) (max : JSNum) : list JSNum :=
  match raw with
  | None => []
  | Some s => if is_empty s then [] else flat_map (token_members expand max) (split COMMA s)
  end.

(** A maximum for which every loop of the parser ends: anything but a
    finite number above 2^53 - 1 and infinity. *)
Definition safe (max : JSNum) : bool :=
  match max with
  | Fin m => Qle_bool m (inject_Z (2 ^ 53 - 1))
  | Inf negative => negative
  | NaN => true
  end.

End RangeSpec.

(* ================================================================== *)
(** * The content extractor as the specification words it *)
(* ================================================================== *)

Module ExtractorSpec.
Import JSString DOM.

(** A shallow clone of [el] around one segment; nothing for an empty
    segment. *)
Definition lineClone (el : Node) (segment : string) : list Node :=
  if is_empty segment then []
  else match el with
       | Element tag attrs _ => [Element tag attrs [Text segment]]
       | _ => []
       end.

(** The clones of the segments with a line feed between neighbours. *)
Fixpoint lineClones (el : Node) (segments : list string) : list Node :=
  match segments with
  | [] => []
  | [s] => lineClone el s
  | s :: rest => lineClone el s ++ Text NEWLINE :: lineClones el rest
  end.

(** What a child of the code element contributes: the clones of its
    lines for a [span], nothing for another element, itself otherwise. *)
Definition contribution (child : Node) : list Node :=
  match child with
  | Element tag _ _ =>
      if String.eqb (toUpperCase tag) "SPAN"
      then lineClones child (split LF (textContent child))
      else []
  | other => [other]
  end.

(** The text of a list of sibling nodes, comments left out. *)
Definition textOf (nodes : list Node) : string :=
  textContent (Element EmptyString [] nodes).

(** ** Balanced markup *)

Fixpoint skip_quoted (q : ascii) (s : string) : string :=
  match s with
  | EmptyString => EmptyString
  | String c rest => if Ascii.eqb c q then rest else skip_quoted q rest
  end.

(** What follows the [>] that ends a tag; a [>] inside a quoted
    attribute value does not end it. *)
Fixpoint skip_tag (fuel : nat) (s : string) : string :=
  match fuel with
  | O => s
  | S fuel' =>
      match s with
      | EmptyString => EmptyString
      | String c rest =>
          if Ascii.eqb c ">" then rest
          else if Ascii.eqb c DQUOTE then skip_tag fuel' (skip_quoted c rest)
          else skip_tag fuel' rest
      end
  end.

Fixpoint tag_name (s : string) : string :=
  match s with
  | EmptyString => EmptyString
  | String c rest =>
      if Ascii.eqb c ">" || is_ascii_whitespace c then EmptyString
      else String c (tag_name rest)
  end.

(** Whether every opening tag in [s] is closed, innermost first, and no
    closing tag stands alone; [open] holds the tags that wait for
    their end. *)
Fixpoint balanced_from (fuel : nat) (open : list string) (s : string) : bool :=
  match fuel with
  | O => false
  | S fuel' =>
      match s with
      | EmptyString => match open with [] => true | _ => false end
      | String "<" (String "/" rest) =>
          match open with
          | top :: open' =>
              String.eqb top (tag_name rest)
              && balanced_from fuel' open' (skip_tag (String.length rest) rest)
          | [] => false
          end
      | String "<" (String "!" rest) =>
          balanced_from fuel' open (skip_tag (String.length rest) rest)
      | String "<" rest =>
          let name := tag_name rest in
          balanced_from fuel'
            (if mem_string name void_elements then open else name :: open)
            (skip_tag (String.length rest) rest)
      | String _ rest => balanced_from fuel' open rest
      end
  end.

Definition tags_balanced (html : string) : bool :=
  balanced_from (S (String.length html)) [] html.

(** Whether no attribute holds a line feed, in its name or its value. *)
Definition one_line_attrs (attrs : list (string * string)) : bool :=
  forallb (fun kv => negb (has_char LF (fst kv)) && negb (has_char LF (snd kv)))
          attrs.

(** An attribute name that cannot be taken for the end of a tag or the
    start of a value: no [>] and no double quote. *)
Definition plain_name (name : string) : bool :=
  negb (has_char ">" name) && negb (has_char DQUOTE name).

End ExtractorSpec.
(* ================================================================== *)
(** * Facts *)
(* ================================================================== *)

Module NumberFacts.
Import JSNumber.

(** ** Powers of two *)

Lemma two_nonzero : ~ (2 == 0)%Q.
Proof. discriminate. Qed.

Lemma pow2_pos e : (0 < pow2 e)%Q.
Proof. apply Qpower_0_lt. reflexivity. Qed.

Lemma pow2_plus a b : (pow2 (a + b) == pow2 a * pow2 b)%Q.
Proof. apply Qpower_plus. exact two_nonzero. Qed.

Lemma pow2_Z z : (0 <= z)%Z -> (pow2 z == inject_Z (2 ^ z))%Q.
Proof. intro N. unfold pow2. rewrite Zpower_Qpower by exact N. reflexivity. Qed.

Lemma pow2_le a b : (a <= b)%Z -> (pow2 a <= pow2 b)%Q.
Proof.
  intro L. replace b with (a + (b - a))%Z by lia. rewrite pow2_plus.
  assert (P := pow2_pos a).
  assert (O : (1 <= pow2 (b - a))%Q).
  { rewrite pow2_Z by lia. change 1%Q with (inject_Z 1). rewrite <- Zle_Qle.
    assert (0 < 2 ^ (b - a))%Z by (apply Z.pow_pos_nonneg; lia). lia. }
  nra.
Qed.

Lemma pow2_opp e : (pow2 (- e) * pow2 e == 1)%Q.
Proof. rewrite <- pow2_plus. replace (- e + e)%Z with 0%Z by lia. reflexivity. Qed.

(** ** The exponent *)

Lemma Zlog2_bounds n : (0 < n)%Z -> (2 ^ Z.log2 n <= n < 2 ^ (Z.log2 n + 1))%Z.
Proof. intro P. replace (Z.log2 n + 1)%Z with (Z.succ (Z.log2 n)) by lia. apply Z.log2_spec. exact P. Qed.

Lemma ilog2_below a : (0 < a)%Q -> (pow2 (ilog2 a) <= a)%Q.
Proof.
  intro P. unfold ilog2. destruct a as [n d]. cbn [Qnum Qden].
  assert (Pn : (0 < n)%Z) by (unfold Qlt in P; simpl in P; lia).
  destruct (Zlog2_bounds n Pn) as [Ln _].
  destruct (Zlog2_bounds (Z.pos d) (eq_refl)) as [_ Ud].
  assert (Ld := Z.log2_nonneg (Z.pos d)). assert (Ln0 := Z.log2_nonneg n).
  generalize dependent (Z.log2 (Z.pos d)). intros ld Ud Ld.
  generalize dependent (Z.log2 n). intros ln Ln Ln0.
  destruct (Qle_bool (pow2 (ln - ld)) (n # d)) eqn:E; [apply Qle_bool_iff; exact E|].
  assert (K : (pow2 (ln - ld - 1) * inject_Z (2 ^ (ld + 1)) == inject_Z (2 ^ ln))%Q).
  { rewrite <- !pow2_Z by lia. rewrite <- pow2_plus.
    replace (ln - ld - 1 + (ld + 1))%Z with ln by lia. reflexivity. }
  assert (Pp := pow2_pos (ln - ld - 1)).
  assert (D : (pow2 (ln - ld - 1) * inject_Z (Z.pos d) <= inject_Z n)%Q).
  { apply Qle_trans with (pow2 (ln - ld - 1) * inject_Z (2 ^ (ld + 1)))%Q.
    - apply Qmult_le_l; [exact Pp|]. rewrite <- Zle_Qle. lia.
    - rewrite K. rewrite <- Zle_Qle. exact Ln. }
  rewrite (Qmake_Qdiv n d). apply Qle_shift_div_l; [reflexivity|exact D].
Qed.

(** ** The nearest integer *)

Lemma round_half_even_Z k : round_half_even (inject_Z k) = k.
Proof.
  unfold round_half_even. rewrite Qfloor_Z.
  assert (E : (inject_Z k - inject_Z k ?= 1 # 2)%Q = Lt).
  { rewrite <- Qlt_alt. lra. }
  rewrite E. reflexivity.
Qed.

Lemma round_half_even_comp x y : (x == y)%Q -> round_half_even x = round_half_even y.
Proof.
  intro E. unfold round_half_even. rewrite (Qfloor_comp _ _ E).
  assert (C : (x - inject_Z (Qfloor y) ?= 1 # 2)%Q = (y - inject_Z (Qfloor y) ?= 1 # 2)%Q).
  { apply Qcompare_comp; [rewrite E; reflexivity|reflexivity]. }
  rewrite C. reflexivity.
Qed.

Lemma round_half_even_near x :
  (x - (1 # 2) <= inject_Z (round_half_even x))%Q
  /\ (inject_Z (round_half_even x) <= x + (1 # 2))%Q.
Proof.
  unfold round_half_even.
  assert (L := Qfloor_le x). assert (U := Qlt_floor x).
  rewrite inject_Z_plus in U. change (inject_Z 1) with 1%Q in U.
  destruct (Qcompare_spec (x - inject_Z (Qfloor x)) (1 # 2)) as [E|E|E].
  - destruct (Z.even (Qfloor x)).
    + split; lra.
    + rewrite inject_Z_plus. change (inject_Z 1) with 1%Q. split; lra.
  - split; lra.
  - rewrite inject_Z_plus. change (inject_Z 1) with 1%Q. split; lra.
Qed.

(** ** Rounding *)

Lemma Qred_inject_Z z : Qred (inject_Z z) = inject_Z z.
Proof.
  unfold Qred, inject_Z.
  generalize (Z.ggcd_gcd z 1), (Z.ggcd_correct_divisors z 1).
  destruct (Z.ggcd z 1) as (g, (aa, bb)). cbn [fst].
  rewrite Z.gcd_1_r. intros -> [A B]. rewrite Z.mul_1_l in A, B. subst.
  reflexivity.
Qed.

Lemma pow2_1024_big : (inject_Z (2 ^ 53) + 1 < pow2 1024)%Q.
Proof.
  rewrite pow2_Z by lia. change 1%Q with (inject_Z 1).
  rewrite <- inject_Z_plus, <- Zlt_Qlt.
  assert (2 ^ 54 <= 2 ^ 1024)%Z by (apply Z.pow_le_mono_r; lia). lia.
Qed.

(** Up to 2^53 the spacing of the doubles is at most 1, and exactly 2^53
    is where it becomes 2. *)
Lemma spacing_below a :
  (0 < a)%Q -> (a <= inject_Z (2 ^ 53))%Q ->
  let p := Z.max (ilog2 a - 52) (-1074) in
  (p <= 0)%Z \/ ((a == inject_Z (2 ^ 53))%Q /\ p = 1%Z).
Proof.
  intros P U p. assert (B := ilog2_below a P).
  assert (E : (ilog2 a <= 53)%Z).
  { destruct (Z_le_gt_dec (ilog2 a) 53) as [L|G]; [exact L|exfalso].
    assert (M : (pow2 54 <= pow2 (ilog2 a))%Q) by (apply pow2_le; lia).
    rewrite pow2_Z in M by lia.
    assert (T : (inject_Z (2 ^ 54) <= inject_Z (2 ^ 53))%Q) by lra.
    rewrite <- Zle_Qle in T. lia. }
  destruct (Z_le_gt_dec (ilog2 a) 52) as [L|G]; [left; unfold p; lia|right].
  assert (Eq : ilog2 a = 53%Z) by lia. rewrite Eq in B.
  rewrite pow2_Z in B by lia. split; [lra|unfold p; lia].
Qed.

Lemma round_pos_near a :
  (0 < a)%Q -> (a <= inject_Z (2 ^ 53))%Q ->
  exists v, round_pos a = Fin v
            /\ (a - (1 # 2) <= v)%Q /\ (v <= a + (1 # 2))%Q.
Proof.
  intros P U. unfold round_pos.
  set (p := Z.max (ilog2 a - 52) (-1074)).
  set (m := round_half_even (a / pow2 p)).
  assert (Pp := pow2_pos p).
  assert (A : (a == a / pow2 p * pow2 p)%Q) by (field; lra).
  assert (Near : (a - (1 # 2) <= inject_Z m * pow2 p)%Q
                 /\ (inject_Z m * pow2 p <= a + (1 # 2))%Q).
  { destruct (spacing_below a P U) as [L|[Eq Ep]]; fold p in L || fold p in Ep.
    - assert (S : (pow2 p <= 1)%Q).
      { change 1%Q with (pow2 0). apply pow2_le. exact L. }
      destruct (round_half_even_near (a / pow2 p)) as [N1 N2]. fold m in N1, N2.
      set (x := (a / pow2 p)%Q) in *. rewrite A. split; nra.
    - assert (X : (a / pow2 p == inject_Z (2 ^ 52))%Q).
      { rewrite Ep, Eq. reflexivity. }
      assert (M : m = (2 ^ 52)%Z).
      { unfold m. rewrite (round_half_even_comp _ _ X). apply round_half_even_Z. }
      rewrite M, Ep, Eq. split.
      + assert (T : (inject_Z (2 ^ 52) * pow2 1 == inject_Z (2 ^ 53))%Q) by reflexivity.
        rewrite T. lra.
      + assert (T : (inject_Z (2 ^ 52) * pow2 1 == inject_Z (2 ^ 53))%Q) by reflexivity.
        rewrite T. lra. }
  destruct Near as [N1 N2].
  assert (Big := pow2_1024_big).
  destruct (Qle_bool (pow2 1024) (inject_Z m * pow2 p)) eqn:O.
  - apply Qle_bool_iff in O. exfalso. lra.
  - exists (Qred (inject_Z m * pow2 p)). split; [reflexivity|].
    split; rewrite Qred_correct; assumption.
Qed.

Lemma round_pos_integer z :
  (0 < z)%Z -> (z <= 2 ^ 53)%Z -> round_pos (inject_Z z) = Fin (inject_Z z).
Proof.
  intros P U.
  assert (Pa : (0 < inject_Z z)%Q) by (change 0%Q with (inject_Z 0); rewrite <- Zlt_Qlt; exact P).
  assert (Ua : (inject_Z z <= inject_Z (2 ^ 53))%Q) by (rewrite <- Zle_Qle; exact U).
  unfold round_pos.
  set (p := Z.max (ilog2 (inject_Z z) - 52) (-1074)).
  assert (Pp := pow2_pos p).
  assert (V : (inject_Z (round_half_even (inject_Z z / pow2 p)) * pow2 p == inject_Z z)%Q).
  { destruct (spacing_below _ Pa Ua) as [L|[Eq Ep]]; fold p in L || fold p in Ep.
    - assert (X : (inject_Z z / pow2 p == inject_Z (z * 2 ^ (- p)))%Q).
      { rewrite inject_Z_mult, <- pow2_Z by lia.
        assert (O := pow2_opp p). field_simplify_eq; [|lra]. nra. }
      rewrite (round_half_even_comp _ _ X), round_half_even_Z.
      rewrite inject_Z_mult, <- pow2_Z by lia.
      assert (O := pow2_opp p). nra.
    - assert (X : (inject_Z z / pow2 p == inject_Z (2 ^ 52))%Q).
      { rewrite Ep, Eq. reflexivity. }
      rewrite (round_half_even_comp _ _ X), round_half_even_Z, Ep, Eq. reflexivity. }
  assert (Big := pow2_1024_big).
  destruct (Qle_bool (pow2 1024) _) eqn:O.
  - apply Qle_bool_iff in O. exfalso. lra.
  - rewrite (Qred_complete _ _ V). rewrite Qred_inject_Z. reflexivity.
Qed.

Lemma round64_positive q : (0 < q)%Q -> round64 q = round_pos (Qred q).
Proof.
  intro P. unfold round64. cbv zeta.
  assert (C : (Qred q ?= 0)%Q = Gt).
  { rewrite <- Qgt_alt. rewrite Qred_correct. exact P. }
  rewrite C. reflexivity.
Qed.

Lemma round64_comp a b : (a == b)%Q -> round64 a = round64 b.
Proof. intro E. unfold round64. rewrite (Qred_complete _ _ E). reflexivity. Qed.

(** [++i] on an integer below 2^53 is the next integer. *)
Lemma num_succ_integer z :
  (0 <= z)%Z -> (z + 1 <= 2 ^ 53)%Z ->
  num_succ (Fin (inject_Z z)) = Fin (inject_Z (z + 1)).
Proof.
  intros P U. unfold num_succ.
  assert (E : (inject_Z z + 1 == inject_Z (z + 1))%Q)
    by (rewrite inject_Z_plus; reflexivity).
  rewrite (round64_comp _ _ E), round64_positive.
  - rewrite Qred_inject_Z. apply round_pos_integer; lia.
  - change 0%Q with (inject_Z 0). rewrite <- Zlt_Qlt. lia.
Qed.

(** [++i] adds a half or more as long as the sum does not exceed 2^53. *)
Lemma num_succ_near i :
  (0 <= i)%Q -> (i + 1 <= inject_Z (2 ^ 53))%Q ->
  exists v, num_succ (Fin i) = Fin v
            /\ (i + (1 # 2) <= v)%Q /\ (v <= i + (3 # 2))%Q.
Proof.
  intros P U. unfold num_succ. rewrite round64_positive by lra.
  destruct (round_pos_near (Qred (i + 1))) as (v & E & L1 & L2).
  - rewrite Qred_correct. lra.
  - rewrite Qred_correct. exact U.
  - rewrite Qred_correct in L1, L2. exists v. split; [exact E|]. split; lra.
Qed.

End NumberFacts.

Module RangeFacts.
Import CodeUnits JSNumber RangeParser RangeSpec NumberFacts.

Lemma num_eqb_sym x y : num_eqb x y = num_eqb y x.
Proof.
  destruct x as [|a|p], y as [|b|q]; simpl; auto.
  - destruct a, b; reflexivity.
  - apply eq_true_iff_eq. rewrite !Qeq_bool_iff. split; intro E; symmetry; exact E.
Qed.

Lemma num_eqb_trans x y z :
  num_eqb x y = true -> num_eqb y z = true -> num_eqb x z = true.
Proof.
  destruct x as [|a|p], y as [|b|q], z as [|c|r]; simpl; try congruence.
  - destruct a, b, c; simpl; congruence.
  - rewrite !Qeq_bool_iff. intros E1 E2. rewrite E1. exact E2.
Qed.

Lemma num_le_trans x y z :
  num_le x y = true -> num_le y z = true -> num_le x z = true.
Proof.
  destruct x as [|a|p], y as [|b|q], z as [|c|r]; simpl;
    repeat match goal with s : bool |- _ => destruct s end;
    simpl; try congruence.
  rewrite !Qle_bool_iff. intros; lra.
Qed.

(** Equal numbers are members of the same sets. *)
Lemma has_compat x y s : num_eqb x y = true -> JSSet.has x s = JSSet.has y s.
Proof.
  intro E. unfold JSSet.has. induction s as [|z s IH]; simpl; auto.
  rewrite IH. f_equal. apply eq_true_iff_eq. split; intro F.
  - apply num_eqb_trans with x; auto. rewrite num_eqb_sym. exact E.
  - apply num_eqb_trans with y; auto.
Qed.

Lemma has_app x s t : JSSet.has x (s ++ t) = JSSet.has x s || JSSet.has x t.
Proof. apply existsb_app. Qed.

Lemma has_add x y s : JSSet.has x (JSSet.add y s) = JSSet.has x s || num_eqb x y.
Proof.
  unfold JSSet.add. destruct (JSSet.has y s) eqn:Hy.
  - destruct (num_eqb x y) eqn:E.
    + rewrite (has_compat x y s E), Hy. reflexivity.
    + rewrite orb_false_r. reflexivity.
  - rewrite has_app. simpl. rewrite orb_false_r. reflexivity.
Qed.

Lemma in_add x y s : In x (JSSet.add y s) -> In x s \/ x = y.
Proof.
  unfold JSSet.add. destruct (JSSet.has y s); auto.
  intro I. apply in_app_or in I. destruct I as [I|[<-|[]]]; auto.
Qed.

(** ** The guard *)

Lemma isNumWithinInclusiveRange_within n max :
  isNumWithinInclusiveRange n (Fin 1%Q) max = within max n.
Proof. destruct n as [|b|q]; reflexivity. Qed.

Lemma within_spec max n :
  within max n = true <-> num_le (Fin 1%Q) n = true /\ num_le n max = true.
Proof.
  destruct n as [|b|q]; simpl.
  - split; [discriminate|intros [E _]; discriminate].
  - apply andb_true_iff.
  - apply andb_true_iff.
Qed.

(** Within a safe maximum a number is finite, at least 1 and at most
    2^53 - 1. *)
Lemma within_safe max n :
  safe max = true -> within max n = true ->
  exists m q, max = Fin m /\ n = Fin q
              /\ (1 <= q)%Q /\ (q <= m)%Q /\ (m <= inject_Z (2 ^ 53 - 1))%Q.
Proof.
  intros S W. apply within_spec in W. destruct W as [L U].
  destruct max as [|b|m]; [|destruct b|];
    destruct n as [|c|q]; try destruct c; simpl in *; try discriminate.
  apply Qle_bool_iff in S, L, U. exists m, q. auto.
Qed.

(** ** The loop *)

Lemma Qfloor_unique z q :
  (inject_Z z <= q)%Q -> (q < inject_Z (z + 1))%Q -> Qfloor q = z.
Proof.
  intros L U.
  assert (L' := Qfloor_le q). assert (U' := Qlt_floor q).
  assert (A : (z < Qfloor q + 1)%Z) by (rewrite Zlt_Qlt; lra).
  assert (B : (Qfloor q < z + 1)%Z) by (rewrite Zlt_Qlt; lra).
  lia.
Qed.

Lemma Qfloor_shift q z : Qfloor (q - inject_Z z)%Q = (Qfloor q - z)%Z.
Proof.
  assert (L := Qfloor_le q). assert (U := Qlt_floor q).
  apply Qfloor_unique.
  - unfold Z.sub. rewrite inject_Z_plus, inject_Z_opp. lra.
  - replace (Qfloor q - z + 1)%Z with ((Qfloor q + 1) + - z)%Z by lia.
    rewrite inject_Z_plus, inject_Z_opp. lra.
Qed.

Lemma Qfloor_nonneg q : (0 <= q)%Q -> (0 <= Qfloor q)%Z.
Proof.
  intro P. rewrite <- (Qfloor_Z 0). apply Qfloor_resp_le. exact P.
Qed.

(** More loop tests do not change a result. *)
Lemma addRange_more fuel : forall extra i upper s r,
  addRange fuel i upper s = Some r -> addRange (fuel + extra) i upper s = Some r.
Proof.
  induction fuel as [|fuel IH]; intros extra i upper s r E; [discriminate|].
  simpl in *. destruct (num_le i upper); auto.
Qed.

(** When the loop has ended, the set holds what it held and the values
    the loop went through. *)
Lemma addRange_members fuel : forall i upper s r x,
  addRange fuel i upper s = Some r ->
  JSSet.has x r = JSSet.has x s || JSSet.has x (steps fuel i upper).
Proof.
  induction fuel as [|fuel IH]; intros i upper s r x E; [discriminate|].
  simpl in *. destruct (num_le i upper).
  - rewrite (IH _ _ _ _ x E), has_add. cbn [JSSet.has existsb].
    rewrite orb_assoc. reflexivity.
  - inversion E; subst. simpl. rewrite orb_false_r. reflexivity.
Qed.

(** The loop ends when its bounds are at most 2^53 - 1: every round adds
    a half or more. *)
Lemma addRange_ends fuel : forall i upper s,
  (0 <= i)%Q -> (upper <= inject_Z (2 ^ 53 - 1))%Q ->
  (Z.max 1 (Qfloor (2 * (upper - i)) + 2) <= Z.of_nat fuel)%Z ->
  exists r, addRange fuel (Fin i) (Fin upper) s = Some r.
Proof.
  induction fuel as [|fuel IH]; intros i upper s P U F; [lia|].
  cbn [addRange num_le].
  destruct (Qle_bool i upper) eqn:T; [|eexists; reflexivity].
  apply Qle_bool_iff in T.
  destruct (num_succ_near i P) as (v & E & L1 & L2).
  { assert (K : (inject_Z (2 ^ 53 - 1) + 1 == inject_Z (2 ^ 53))%Q) by reflexivity.
    lra. }
  rewrite E. apply IH; [lra|exact U|].
  assert (N : (0 <= Qfloor (2 * (upper - i)))%Z) by (apply Qfloor_nonneg; lra).
  assert (D : (Qfloor (2 * (upper - v)) <= Qfloor (2 * (upper - i)) - 1)%Z).
  { rewrite <- (Qfloor_shift (2 * (upper - i))%Q 1). apply Qfloor_resp_le.
    change (inject_Z 1) with 1%Q. lra. }
  lia.
Qed.

(** [loop_tests] of the upper bound are enough for a lower bound that is
    at least 1. *)
Lemma loop_tests_enough lower upper :
  (1 <= lower)%Q -> (lower <= upper)%Q ->
  (Z.max 1 (Qfloor (2 * (upper - lower)) + 2) <= Z.of_nat (loop_tests (Fin upper)))%Z.
Proof.
  intros L U. unfold loop_tests.
  assert (N : (0 <= Qfloor (2 * upper))%Z) by (apply Qfloor_nonneg; lra).
  assert (D : (Qfloor (2 * (upper - lower)) <= Qfloor (2 * upper) - 2)%Z).
  { rewrite <- (Qfloor_shift (2 * upper)%Q 2). apply Qfloor_resp_le.
    change (inject_Z 2) with 2%Q. lra. }
  lia.
Qed.

Lemma loop_tests_mono a b :
  (0 <= a)%Q -> (a <= b)%Q -> loop_tests (Fin a) <= loop_tests (Fin b).
Proof.
  intros P L. unfold loop_tests.
  assert (Qfloor (2 * a) <= Qfloor (2 * b))%Z by (apply Qfloor_resp_le; lra).
  lia.
Qed.

(** ** One token, then all of them *)

Lemma parseRange_more fuel extra max s token r :
  parseRange fuel max s token = Some r ->
  parseRange (fuel + extra) max s token = Some r.
Proof.
  unfold parseRange.
  destruct (isNumWithinInclusiveRange (ToNumber token) (Fin 1) max); auto.
  destruct (split HYPHEN (trim token)) as [|a [|b [|c rest]]]; auto.
  destruct (_ && _ && _); auto. apply addRange_more.
Qed.

Lemma forEachRange_more fuel extra max tokens : forall s r,
  forEachRange fuel max tokens s = Some r ->
  forEachRange (fuel + extra) max tokens s = Some r.
Proof.
  induction tokens as [|token tokens IH]; intros s r E; simpl in *; auto.
  destruct (parseRange fuel max s token) as [s'|] eqn:P; [|discriminate].
  rewrite (parseRange_more _ extra _ _ _ _ P). auto.
Qed.

Lemma parse_more fuel extra raw max r :
  parseCodeHighlightRanges fuel raw max = Some r ->
  parseCodeHighlightRanges (fuel + extra) raw max = Some r.
Proof.
  unfold parseCodeHighlightRanges. destruct raw as [raw|]; auto.
  destruct (is_empty raw); auto. apply forEachRange_more.
Qed.

(** With a safe maximum a token is dealt with within [loop_tests], and it
    adds its members. *)
Lemma parseRange_spec fuel max s token :
  safe max = true -> loop_tests max <= fuel ->
  exists r, parseRange fuel max s token = Some r
            /\ forall x, JSSet.has x r
                         = JSSet.has x s
                           || JSSet.has x (token_members steps_between max token).
Proof.
  intros S F. unfold parseRange, token_members.
  rewrite isNumWithinInclusiveRange_within.
  destruct (within max (ToNumber token)) eqn:W.
  { eexists. split; [reflexivity|]. intro x. rewrite has_add. simpl.
    rewrite orb_false_r. reflexivity. }
  destruct (split HYPHEN (trim token)) as [|a [|b [|c rest]]];
    try (eexists; split; [reflexivity|intro x; simpl; rewrite orb_false_r; reflexivity]).
  rewrite !isNumWithinInclusiveRange_within.
  destruct (within max (ToNumber a) && within max (ToNumber b)
            && num_le (ToNumber a) (ToNumber b)) eqn:G;
    [|eexists; split; [reflexivity|intro x; simpl; rewrite orb_false_r; reflexivity]].
  apply andb_true_iff in G. destruct G as [G Le].
  apply andb_true_iff in G. destruct G as [Wa Wb].
  destruct (within_safe _ _ S Wa) as (m & lower & -> & Ea & La & Ua & Sm).
  destruct (within_safe _ _ S Wb) as (m' & upper & Em & Eb & Lb & Ub & _).
  inversion Em; subst m'. rewrite Ea, Eb in *. simpl in Le. apply Qle_bool_iff in Le.
  assert (Su : (upper <= inject_Z (2 ^ 53 - 1))%Q) by lra.
  destruct (addRange_ends (loop_tests (Fin upper)) lower upper s) as [r0 E0];
    [lra|exact Su|apply loop_tests_enough; assumption|].
  assert (M : loop_tests (Fin upper) <= fuel).
  { etransitivity; [|exact F]. apply loop_tests_mono; lra. }
  replace fuel with (loop_tests (Fin upper) + (fuel - loop_tests (Fin upper))) by lia.
  exists r0. split; [apply addRange_more; exact E0|].
  intro x. unfold steps_between. apply (addRange_members _ _ _ _ _ x E0).
Qed.

Lemma forEachRange_spec fuel max tokens :
  safe max = true -> loop_tests max <= fuel ->
  forall s,
  exists r, forEachRange fuel max tokens s = Some r
            /\ forall x, JSSet.has x r
                         = JSSet.has x s
                           || JSSet.has x (flat_map (token_members steps_between max) tokens).
Proof.
  intros S F. induction tokens as [|token tokens IH]; intro s; simpl.
  - eexists. split; [reflexivity|]. intro x. rewrite orb_false_r. reflexivity.
  - destruct (parseRange_spec fuel max s token S F) as (s' & E & M).
    rewrite E. destruct (IH s') as (r & E' & M'). exists r. split; [exact E'|].
    intro x. rewrite M', M, has_app, orb_assoc. reflexivity.
Qed.

(** With a safe maximum the parser returns, and the set it returns has
    the members of the reference algorithm. *)
Lemma parse_spec raw max :
  safe max = true ->
  exists r,
    (forall fuel, loop_tests max <= fuel ->
                  parseCodeHighlightRanges fuel raw max = Some r)
    /\ forall x, JSSet.has x r = JSSet.has x (parseRanges steps_between raw max).
Proof.
  intro S.
  assert (At : exists r, parseCodeHighlightRanges (loop_tests max) raw max = Some r
                         /\ forall x, JSSet.has x r
                                      = JSSet.has x (parseRanges steps_between raw max)).
  { unfold parseCodeHighlightRanges, parseRanges. destruct raw as [raw|].
    - destruct (is_empty raw); [eexists; split; reflexivity|].
      destruct (forEachRange_spec (loop_tests max) max (split COMMA raw) S (le_n _)
                                  JSSet.empty) as (r & E & M).
      exists r. split; [exact E|]. intro x. rewrite M. reflexivity.
    - eexists; split; reflexivity. }
  destruct At as (r & E & M). exists r. split; [|exact M].
  intros fuel F. replace fuel with (loop_tests max + (fuel - loop_tests max)) by lia.
  apply parse_more. exact E.
Qed.

(** ** What the loop adds lies between the bounds *)

Lemma round_pos_above a :
  (2 <= a)%Q ->
  match round_pos a with
  | Fin v => (1 <= v)%Q
  | Inf negative => negative = false
  | NaN => False
  end.
Proof.
  intro A. unfold round_pos.
  set (p := Z.max (ilog2 a - 52) (-1074)).
  assert (Pp := pow2_pos p).
  assert (Small : (pow2 p <= a)%Q).
  { destruct (Z_le_gt_dec (-1074) (ilog2 a - 52)) as [L|G].
    - apply Qle_trans with (pow2 (ilog2 a)); [apply pow2_le; unfold p; lia|].
      apply ilog2_below. lra.
    - apply Qle_trans with (pow2 0); [apply pow2_le; unfold p; lia|].
      change (pow2 0) with 1%Q. lra. }
  destruct (round_half_even_near (a / pow2 p)) as [N _].
  set (m := round_half_even (a / pow2 p)) in *.
  assert (E : (a == a / pow2 p * pow2 p)%Q) by (field; lra).
  set (x := (a / pow2 p)%Q) in *.
  destruct (Qle_bool (pow2 1024) (inject_Z m * pow2 p)); [reflexivity|].
  rewrite Qred_correct. nra.
Qed.

Lemma num_succ_above i :
  num_le (Fin 1%Q) i = true -> num_le (Fin 1%Q) (num_succ i) = true.
Proof.
  destruct i as [|b|q]; simpl; auto. intro L. apply Qle_bool_iff in L.
  rewrite round64_positive by lra.
  assert (P2 : (2 <= Qred (q + 1))%Q) by (rewrite Qred_correct; lra).
  assert (A := round_pos_above (Qred (q + 1)) P2).
  destruct (round_pos (Qred (q + 1))) as [|b|v]; [contradiction| |].
  - subst b. reflexivity.
  - simpl. apply Qle_bool_iff. exact A.
Qed.

Lemma num_succ_number i : isNaN i = false -> isNaN (num_succ i) = false.
Proof.
  destruct i as [|b|q]; simpl; auto. intros _. unfold round64, round_pos. cbv zeta.
  destruct (Qred (q + 1) ?= 0)%Q; try reflexivity.
  - destruct (Qle_bool _ _); reflexivity.
  - destruct (Qle_bool _ _); reflexivity.
Qed.

Lemma addRange_within fuel max : forall i upper s r,
  addRange fuel i upper s = Some r ->
  num_le (Fin 1%Q) i = true ->
  num_le upper max = true ->
  (forall x, In x s -> within max x = true) ->
  forall x, In x r -> within max x = true.
Proof.
  induction fuel as [|fuel IH]; intros i upper s r E L U Old x I; [discriminate|].
  simpl in E. destruct (num_le i upper) eqn:T.
  - apply (IH _ _ _ _ E); auto.
    + apply num_succ_above. exact L.
    + intros y Iy. apply in_add in Iy. destruct Iy as [Iy| ->]; auto.
      apply within_spec. split; auto. eapply num_le_trans; eauto.
  - inversion E; subst. auto.
Qed.

Lemma parseRange_within fuel max s token r :
  parseRange fuel max s token = Some r ->
  (forall x, In x s -> within max x = true) ->
  forall x, In x r -> within max x = true.
Proof.
  unfold parseRange. rewrite isNumWithinInclusiveRange_within.
  destruct (within max (ToNumber token)) eqn:W.
  { intros E Old x I. inversion E; subst.
    apply in_add in I. destruct I as [I| ->]; auto. }
  destruct (split HYPHEN (trim token)) as [|a [|b [|c rest]]];
    try (intros E Old x I; inversion E; subst; auto).
  revert E. rewrite !isNumWithinInclusiveRange_within.
  destruct (within max (ToNumber a) && within max (ToNumber b)
            && num_le (ToNumber a) (ToNumber b)) eqn:G;
    [|intro E; inversion E; subst; auto].
  apply andb_true_iff in G. destruct G as [G Le].
  apply andb_true_iff in G. destruct G as [Wa Wb].
  apply within_spec in Wa, Wb. intro E.
  apply (addRange_within _ max _ _ _ _ E); tauto.
Qed.

Lemma forEachRange_within fuel max tokens : forall s r,
  forEachRange fuel max tokens s = Some r ->
  (forall x, In x s -> within max x = true) ->
  forall x, In x r -> within max x = true.
Proof.
  induction tokens as [|token tokens IH]; intros s r E Old; simpl in E.
  - inversion E; subst. exact Old.
  - destruct (parseRange fuel max s token) as [s'|] eqn:P; [|discriminate].
    apply (IH _ _ E). apply (parseRange_within _ _ _ _ _ P Old).
Qed.

(** Whatever the maximum: when the parser returns, every member lies
    within [[1, max]]. *)
Lemma parse_within fuel raw max r :
  parseCodeHighlightRanges fuel raw max = Some r ->
  forall x, In x r -> within max x = true.
Proof.
  unfold parseCodeHighlightRanges. destruct raw as [raw|].
  - destruct (is_empty raw).
    + intro E; inversion E; subst. contradiction.
    + intro E. apply (forEachRange_within _ _ _ _ _ E). contradiction.
  - intro E; inversion E; subst. contradiction.
Qed.

(** A token that is neither a number within the bounds nor a pair of
    such numbers in order adds nothing. *)
Lemma parseRange_nothing fuel max s token :
  within max (ToNumber token) = false ->
  (forall a b, split HYPHEN (trim token) = [a; b] ->
               within max (ToNumber a) && within max (ToNumber b)
               && num_le (ToNumber a) (ToNumber b) = false) ->
  parseRange fuel max s token = Some s.
Proof.
  intros W G. unfold parseRange. rewrite isNumWithinInclusiveRange_within, W.
  destruct (split HYPHEN (trim token)) as [|a [|b [|c rest]]]; auto.
  rewrite !isNumWithinInclusiveRange_within, (G a b eq_refl). reflexivity.
Qed.

(** ** Integer bounds *)

Lemma Z_interval_cons l h :
  (l <= h)%Z -> Z_interval l h = l :: Z_interval (l + 1) h.
Proof.
  intro L. unfold Z_interval.
  replace (Z.to_nat (h - l + 1)) with (S (Z.to_nat (h - (l + 1) + 1))) by lia.
  cbn [seq map]. rewrite <- seq_shift, map_map. f_equal; [lia|].
  apply map_ext. intro k. lia.
Qed.

Lemma Z_interval_nil l h : (h < l)%Z -> Z_interval l h = [].
Proof.
  intro L. unfold Z_interval.
  replace (Z.to_nat (h - l + 1)) with 0 by lia. reflexivity.
Qed.

Lemma le_floor (l : Z) u : (inject_Z l <= u)%Q <-> (l <= Qfloor u)%Z.
Proof.
  split; intro L.
  - rewrite <- (Qfloor_Z l). apply Qfloor_resp_le. exact L.
  - apply Qle_trans with (inject_Z (Qfloor u)); [|apply Qfloor_le].
    rewrite <- Zle_Qle. exact L.
Qed.

(** From an integer the loop goes through the integers. *)
Lemma steps_integers n : forall (l : Z) u,
  (0 <= l)%Z -> (u <= inject_Z (2 ^ 53 - 1))%Q ->
  (Qfloor u - l + 2 <= Z.of_nat n)%Z ->
  steps n (Fin (inject_Z l)) (Fin u)
  = map (fun z => Fin (inject_Z z)) (Z_interval l (Qfloor u)).
Proof.
  induction n as [|n IH]; intros l u P U F.
  - rewrite Z_interval_nil by lia. reflexivity.
  - cbn [steps num_le]. destruct (Qle_bool (inject_Z l) u) eqn:T.
    + apply Qle_bool_iff in T. assert (T' := proj1 (le_floor l u) T).
      assert (Fu : (Qfloor u <= 2 ^ 53 - 1)%Z).
      { rewrite <- (Qfloor_Z (2 ^ 53 - 1)). apply Qfloor_resp_le. exact U. }
      rewrite (Z_interval_cons _ _ T'). cbn [map]. f_equal.
      rewrite num_succ_integer by lia. apply IH; [lia|exact U|lia].
    + assert (N : ~ (l <= Qfloor u)%Z).
      { intro L. apply le_floor in L. apply Qle_bool_iff in L. congruence. }
      rewrite Z_interval_nil by lia. reflexivity.
Qed.

Lemma steps_between_integers (l : Z) u :
  (1 <= l)%Z -> (u <= inject_Z (2 ^ 53 - 1))%Q ->
  steps_between (Fin (inject_Z l)) (Fin u)
  = integers_between (Fin (inject_Z l)) (Fin u).
Proof.
  intros L U. unfold steps_between, integers_between. rewrite Qceiling_Z.
  apply steps_integers; [lia|exact U|]. unfold loop_tests.
  destruct (Qlt_le_dec u 0) as [Neg|Pos].
  - assert (Qfloor u < 0)%Z.
    { assert (B := Qfloor_le u). rewrite Zlt_Qlt. change (inject_Z 0) with 0%Q. lra. }
    lia.
  - assert (Qfloor u <= Qfloor (2 * u))%Z by (apply Qfloor_resp_le; lra).
    assert (0 <= Qfloor u)%Z by (apply Qfloor_nonneg; exact Pos).
    lia.
Qed.

(** ** Loops that never end *)

Lemma addRange_stuck i upper :
  num_succ i = i -> num_le i upper = true ->
  forall fuel s, addRange fuel i upper s = None.
Proof.
  intros S L. induction fuel as [|fuel IH]; intro s; [reflexivity|].
  simpl. rewrite L, S. apply IH.
Qed.

Lemma addRange_unbounded fuel : forall i s,
  isNaN i = false -> addRange fuel i (Inf false) s = None.
Proof.
  induction fuel as [|fuel IH]; intros i s N; [reflexivity|].
  simpl. replace (num_le i (Inf false)) with true
    by (destruct i as [|b|q]; [discriminate|destruct b|]; reflexivity).
  apply IH. apply num_succ_number. exact N.
Qed.

(** The parser on an input that is one pair of bounds. *)
Lemma parse_one_range fuel s max a b :
  is_empty s = false ->
  split COMMA s = [s] ->
  within max (ToNumber s) = false ->
  split HYPHEN (trim s) = [a; b] ->
  within max (ToNumber a) && within max (ToNumber b)
  && num_le (ToNumber a) (ToNumber b) = true ->
  parseCodeHighlightRanges fuel (Some s) max
  = match addRange fuel (ToNumber a) (ToNumber b) JSSet.empty with
    | Some set => Some set
    | None => None
    end.
Proof.
  intros E C W H G. unfold parseCodeHighlightRanges. rewrite E, C.
  cbn [forEachRange]. unfold parseRange.
  rewrite isNumWithinInclusiveRange_within, W, H. cbv zeta.
  rewrite !isNumWithinInclusiveRange_within, G. reflexivity.
Qed.

End RangeFacts.

Module ExtractorFacts.
Import JSString DOM JSArray Extractor ExtractorSpec.

Lemma split_nonempty sep s : split sep s <> [].
Proof.
  destruct s as [|c s]; simpl; [discriminate|].
  destruct (Ascii.eqb c sep); [discriminate|].
  destruct (split sep s); discriminate.
Qed.

Lemma append_empty_r s : s +++ EmptyString = s.
Proof. induction s as [|c s IH]; simpl; congruence. Qed.

Lemma append_assoc a b c : (a +++ b) +++ c = a +++ b +++ c.
Proof. induction a as [|x a IH]; simpl; congruence. Qed.

(** Joining the pieces of a split gives the string back. *)
Lemma join_split s : join NEWLINE (split LF s) = s.
Proof.
  induction s as [|c s IH]; [reflexivity|].
  simpl split. destruct (Ascii.eqb c LF) eqn:E.
  - apply Ascii.eqb_eq in E. subst c.
    destruct (split LF s) as [|p ps] eqn:S; [exact (False_ind _ (split_nonempty _ _ S))|].
    change (join NEWLINE (EmptyString :: p :: ps))
      with (EmptyString +++ NEWLINE +++ join NEWLINE (p :: ps)).
    rewrite IH. reflexivity.
  - destruct (split LF s) as [|p ps] eqn:S; [exact (False_ind _ (split_nonempty _ _ S))|].
    rewrite <- IH. destruct ps; reflexivity.
Qed.

(** ** The loop over the lines of a span *)

Lemma appendLine_fold child t a count lines : forall i acc,
  isElement child = true ->
  i + List.length lines = count ->
  snd (fold_left (fun (s : nat * Node) x =>
                    (S (fst s), appendLine child count (snd s) x (fst s)))
                 lines (i, Element t a acc))
  = Element t a (acc ++ lineClones child lines).
Proof.
  induction lines as [|line lines IH]; intros i acc El Len; simpl.
  - rewrite app_nil_r. reflexivity.
  - destruct child as [d|d|ct ca cc]; try discriminate.
    simpl in Len.
    assert (Step : appendLine (Element ct ca cc) count (Element t a acc) line i
                   = Element t a (acc ++ lineClone (Element ct ca cc) line
                                      ++ (if i <? count - 1 then [Text NEWLINE] else []))).
    { unfold appendLine, lineClone. destruct (is_empty line) eqn:E; simpl.
      - destruct (i <? count - 1); simpl; rewrite ?app_nil_r; reflexivity.
      - rewrite E. destruct (i <? count - 1); simpl.
        + rewrite <- app_assoc. reflexivity.
        + reflexivity. }
    rewrite Step, IH by (auto; lia).
    f_equal. rewrite <- ?app_assoc. f_equal.
    destruct lines as [|l2 lines'].
    + simpl in Len. replace (i <? count - 1) with false
        by (symmetry; apply Nat.ltb_ge; lia).
      simpl. rewrite !app_nil_r. reflexivity.
    + simpl in Len. replace (i <? count - 1) with true
        by (symmetry; apply Nat.ltb_lt; lia).
      reflexivity.
Qed.

Lemma appendContents_contribution t a acc child :
  appendContents (Element t a acc) child = Element t a (acc ++ contribution child).
Proof.
  destruct child as [d|d|ct ca cc]; try reflexivity.
  unfold appendContents, contribution, tagName_is, tagName. cbn [isElement].
  destruct (String.eqb (toUpperCase ct) "SPAN").
  - unfold forEach_indexed. apply appendLine_fold; auto.
  - rewrite app_nil_r. reflexivity.
Qed.

Lemma fold_appendContents t a cs : forall acc,
  fold_left appendContents cs (Element t a acc)
  = Element t a (acc ++ flat_map contribution cs).
Proof.
  induction cs as [|c cs IH]; intro acc; simpl.
  - rewrite app_nil_r. reflexivity.
  - rewrite appendContents_contribution, IH, <- app_assoc. reflexivity.
Qed.

(** The node the extractor builds: the code element with each child
    replaced by its contribution. *)
Lemma resultNode_contributions t a cs :
  codeblockResultNode (Element t a cs) = Element t a (flat_map contribution cs).
Proof. unfold codeblockResultNode. simpl. apply fold_appendContents. Qed.

(** ** Text *)

Lemma textOf_cons n ns :
  textOf (n :: ns) = match n with Comment _ => textOf ns | _ => textContent n +++ textOf ns end.
Proof. destruct n; reflexivity. Qed.

Lemma textOf_app ns : forall ms, textOf (ns ++ ms) = textOf ns +++ textOf ms.
Proof.
  induction ns as [|n ns IH]; intro ms; [reflexivity|].
  simpl app. rewrite !textOf_cons, IH. destruct n; auto using append_assoc.
  all: rewrite append_assoc; reflexivity.
Qed.

Lemma textOf_lineClone t a cs s : textOf (lineClone (Element t a cs) s) = s.
Proof.
  unfold lineClone. destruct s; simpl; [reflexivity|].
  unfold textOf. simpl. rewrite !append_empty_r. reflexivity.
Qed.

Lemma textOf_lineClones t a cs segments :
  textOf (lineClones (Element t a cs) segments) = join NEWLINE segments.
Proof.
  induction segments as [|s rest IH]; [reflexivity|].
  destruct rest as [|s2 rest].
  - apply textOf_lineClone.
  - change (lineClones (Element t a cs) (s :: s2 :: rest))
      with (lineClone (Element t a cs) s
            ++ Text NEWLINE :: lineClones (Element t a cs) (s2 :: rest)).
    rewrite textOf_app, textOf_lineClone, textOf_cons, IH. reflexivity.
Qed.

(** A span contributes its own text, whatever markup it held. *)
Lemma textOf_contribution_span t a cs :
  String.eqb (toUpperCase t) "SPAN" = true ->
  textOf (contribution (Element t a cs)) = textContent (Element t a cs).
Proof.
  intro E. unfold contribution. rewrite E, textOf_lineClones. apply join_split.
Qed.

(** ** Leaving a child out *)

Lemma contribution_other_element child :
  isElement child = true -> tagName_is child "SPAN" = false -> contribution child = [].
Proof.
  destruct child as [d|d|t a cs]; try discriminate.
  unfold tagName_is, tagName, contribution. intros _ E. rewrite E. reflexivity.
Qed.

Lemma contribution_non_element child :
  isElement child = false -> contribution child = [cloneNode true child].
Proof. destruct child; try discriminate; reflexivity. Qed.

End ExtractorFacts.

Module SelectionFacts.
Import JSString DOM Selection.

Lemma selectLines_ordered codeblockId a b br :
  selectLines codeblockId a b br
  = selectOrdered codeblockId (Z.min a b) (Z.max a b) br.
Proof.
  unfold selectLines, selectOrdered.
  destruct (a >? b)%Z eqn:G.
  - apply Z.gtb_lt in G. rewrite Z.min_r, Z.max_l by lia. reflexivity.
  - assert (a <= b)%Z by (rewrite Z.gtb_ltb in G; apply Z.ltb_ge in G; lia).
    rewrite Z.min_l, Z.max_r by lia. reflexivity.
Qed.

Lemma selectOrdered_missing codeblockId lo hi br :
  getElementById (document br) (contentCellId codeblockId lo) = None
  \/ getElementById (document br) (contentCellId codeblockId hi) = None ->
  selectOrdered codeblockId lo hi br = console_error SELECT_ERROR br.
Proof.
  unfold selectOrdered. intros [E|E]; rewrite E.
  - reflexivity.
  - destruct (getElementById (document br) (contentCellId codeblockId lo))
      as [[? ?]|]; reflexivity.
Qed.

Lemma selectOrdered_found codeblockId lo hi br ps ns pe ne :
  getElementById (document br) (contentCellId codeblockId lo) = Some (ps, ns) ->
  getElementById (document br) (contentCellId codeblockId hi) = Some (pe, ne) ->
  selectOrdered codeblockId lo hi br
  = addRange (setEnd (setStart createRange ps 0) pe (List.length (childNodes ne)))
             (removeAllRanges br).
Proof. unfold selectOrdered. intros -> ->. reflexivity. Qed.

(** A range set from a start that does not lie after the end. *)
Lemma range_in_order ps pe n :
  point_before (pe, n) (ps, 0) = false ->
  setEnd (setStart createRange ps 0) pe n
  = {| startContainer := ps; startOffset := 0;
       endContainer := pe; endOffset := n |}.
Proof.
  intro O. unfold setStart, createRange. cbn [endContainer endOffset].
  destruct (point_before ([], 0) (ps, 0));
    unfold setEnd; cbn [startContainer startOffset]; rewrite O; reflexivity.
Qed.

Lemma replaced_selection r br :
  selectionAvailable br = true ->
  ranges (addRange r (removeAllRanges br)) = [r]
  /\ console (addRange r (removeAllRanges br)) = console br
  /\ document (addRange r (removeAllRanges br)) = document br.
Proof.
  intro A. unfold addRange, removeAllRanges. rewrite A. simpl. auto.
Qed.

End SelectionFacts.

Module RendererFacts.
Import JSString DOM JSArray Collaborators JSX Renderer.

(** The guard on the number of lines never fires: a split has at least
    one piece. *)
Lemma createEnhancedCodeBlock_some `{Host} (o : BlockOptions) :
  exists block, createEnhancedCodeBlock o = ([], Some block).
Proof.
  unfold createEnhancedCodeBlock.
  destruct (split LF (rawContent o)) as [|l ls] eqn:S.
  - destruct (rawContent o) as [|c s]; simpl in S; [discriminate|].
    destruct (Ascii.eqb c LF); [discriminate|].
    destruct (split LF s); discriminate.
  - simpl. eexists. reflexivity.
Qed.

Lemma block_id `{Host} (o : BlockOptions) w block :
  createEnhancedCodeBlock o = (w, Some block) ->
  DOM.id block = "primer-spec-code-block-" +++ nat_toString (codeblockNumericId o).
Proof.
  unfold createEnhancedCodeBlock.
  destruct (List.length (split LF (rawContent o)) =? 0); [discriminate|].
  intro E. inversion E. reflexivity.
Qed.

End RendererFacts.

Module DOMFacts.
Import JSString DOM.

(** Induction on a node with the property known of all its children. *)
Lemma Node_induction (P : Node -> Prop) :
  (forall d, P (Text d)) ->
  (forall d, P (Comment d)) ->
  (forall t a cs, Forall P cs -> P (Element t a cs)) ->
  forall n, P n.
Proof.
  intros HT HC HE. fix IH 1. intros [d|d|t a cs].
  - apply HT.
  - apply HC.
  - apply HE. induction cs as [|c cs IHcs]; constructor; [apply IH | exact IHcs].
Qed.

Lemma elements_from_element t a cs :
  elements_from (Element t a cs)
  = ([], Element t a cs) :: elements_of_children 0 cs.
Proof. reflexivity. Qed.

Lemma descendants_element t a cs :
  descendants (Element t a cs) = elements_of_children 0 cs.
Proof. reflexivity. Qed.

(** No element in or below the nodes [l] passes [test]. *)
Lemma filter_children_none (test : Node -> bool) l : forall i,
  forallb (every_element (fun e => negb (test e))) l = true ->
  filter (fun pm => test (snd pm)) (elements_of_children i l) = [].
Proof.
  induction l as [|c l IH]; intros i A; [reflexivity|].
  simpl in A. apply andb_true_iff in A. destruct A as [Ac Al].
  simpl. rewrite filter_app, (IH _ Al), app_nil_r.
  unfold every_element in Ac. clear - Ac.
  induction (elements_from c) as [|[p e] es IHes]; [reflexivity|].
  simpl in Ac. apply andb_true_iff in Ac. destruct Ac as [Ae Aes].
  simpl. apply negb_true_iff in Ae. rewrite Ae. auto.
Qed.

Lemma filter_shifted_none (test : Node -> bool) l i
      (shift : Path * Node -> Path * Node) :
  (forall pm, snd (shift pm) = snd pm) ->
  forallb (every_element (fun e => negb (test e))) l = true ->
  filter (fun pm : Path * Node => test (snd pm))
         (map shift (elements_of_children i l)) = [].
Proof.
  intros S A. assert (F := filter_children_none test l i A). revert F.
  generalize (elements_of_children i l). intro es.
  induction es as [|pm es IH]; intro F; [reflexivity|].
  simpl in *. rewrite S. destruct (test (snd pm)); [discriminate|auto].
Qed.

Lemma filter_empty {A} (f : A -> bool) : filter f [] = [].
Proof. reflexivity. Qed.

Lemma filter_skip {A} (f : A -> bool) x l :
  f x = false -> filter f (x :: l) = filter f l.
Proof. intro E. simpl. rewrite E. reflexivity. Qed.

Lemma filter_keep {A} (f : A -> bool) x l :
  f x = true -> filter f (x :: l) = x :: filter f l.
Proof. intro E. simpl. rewrite E. reflexivity. Qed.

Lemma forallb_firstn {A} (f : A -> bool) n l :
  forallb f l = true -> forallb f (firstn n l) = true.
Proof.
  revert n. induction l as [|x l IH]; intros [|n] F; simpl; auto.
  simpl in F. apply andb_true_iff in F. destruct F as [-> F]. simpl. auto.
Qed.

Lemma forallb_skipn {A} (f : A -> bool) n l :
  forallb f l = true -> forallb f (skipn n l) = true.
Proof.
  revert n. induction l as [|x l IH]; intros [|n] F; simpl; auto.
  simpl in F. apply andb_true_iff in F. destruct F as [_ F]. auto.
Qed.

End DOMFacts.

Module CopyFacts.
Import JSString DOM JSArray Collaborators JSX Renderer Copy DOMFacts.

Lemma console_output_line `{Host} line lineNumber codeblock :
  querySelector line (ByClass "go") <> None ->
  CONSOLE_COPY_LINES_MAP_FN line lineNumber codeblock = None.
Proof.
  unfold CONSOLE_COPY_LINES_MAP_FN.
  destruct (querySelector line (ByClass "go")); [reflexivity|congruence].
Qed.

Lemma console_plain_line `{Host} line lineNumber codeblock :
  querySelector line (ByClass "go") = None ->
  querySelector line (ById (id codeblock +++ "-LC" +++ nat_toString lineNumber)) = None ->
  CONSOLE_COPY_LINES_MAP_FN line lineNumber codeblock = None.
Proof. unfold CONSOLE_COPY_LINES_MAP_FN. intros -> ->. reflexivity. Qed.

(** The content cell of a console line that starts with a prompt. *)
Lemma prompt_cell `{Host} (o : LineOptions) first rest :
  language_is_console (line_language o) = true ->
  parseFragment (line_html o) = first :: rest ->
  tagName_is first "SPAN" && classList_contains first "gp" = true ->
  let cs := first :: rest in
  let LC_ID := line_codeblockId o +++ "-LC" +++ nat_toString (lineNumber o) in
  contentCell (createCodeBlockLine o)
  = Some (Element "td"
            [("id", EmptyString);
             ("class", clsx [Some CODEBLOCK_LINE_CLASS;
                             when (shouldHighlight o) "primer-spec-code-block-highlighted"])]
            [ Element "span" [("class", "primer-spec-code-block-non-selectable")]
                (firstn (excludedPrefix cs) cs);
              Element "span" [("id", LC_ID)] (skipn (excludedPrefix cs) cs) ]).
Proof.
  intros L P G cs LC_ID. unfold createCodeBlockLine, contentCell.
  rewrite L. unfold h. cbn [childNodes props flat_map snd fst app List.concat nth_error].
  unfold excludePrompt. rewrite P.
  cbn [firstChild childNodes hd_error List.concat app].
  rewrite app_nil_r. cbn [hd_error]. rewrite G.
  cbn -[excludedPrefix clsx firstn skipn String.append nat_toString h].
  unfold h. cbn [props flat_map fst snd app List.concat].
  rewrite ?app_nil_r. reflexivity.
Qed.

(** The selection-scoped wrapper is what the console extractor reads. *)
Lemma console_prompt_line `{Host} (o : LineOptions) first rest codeblock :
  language_is_console (line_language o) = true ->
  parseFragment (line_html o) = first :: rest ->
  tagName_is first "SPAN" && classList_contains first "gp" = true ->
  let cs := first :: rest in
  let LC_ID := line_codeblockId o +++ "-LC" +++ nat_toString (lineNumber o) in
  forallb (every_element (fun e => negb (matches (ByClass "go") e))) cs = true ->
  forallb (every_element (fun e => negb (matches (ById LC_ID) e)))
          (firstn (excludedPrefix cs) cs) = true ->
  id codeblock = line_codeblockId o ->
  exists cell,
    contentCell (createCodeBlockLine o) = Some cell
    /\ CONSOLE_COPY_LINES_MAP_FN cell (lineNumber o) codeblock
       = Some (innerText (Element "span" [("id", LC_ID)]
                                  (skipn (excludedPrefix cs) cs))).
Proof.
  intros L P G cs LC_ID NoGo NoId Id.
  eexists. split; [apply (prompt_cell o first rest L P G)|].
  fold cs. fold LC_ID.
  unfold CONSOLE_COPY_LINES_MAP_FN, querySelector, querySelectorAll.
  rewrite descendants_element. rewrite Id. fold LC_ID.
  cbn [elements_of_children]. rewrite !elements_from_element.
  cbn [map fst snd app].
  set (pre := firstn (excludedPrefix cs) cs).
  set (post := skipn (excludedPrefix cs) cs).
  assert (GoPre : forallb (every_element (fun e => negb (matches (ByClass "go") e))) pre = true)
    by (apply forallb_firstn; exact NoGo).
  assert (GoPost : forallb (every_element (fun e => negb (matches (ByClass "go") e))) post = true)
    by (apply forallb_skipn; exact NoGo).
  (* no output marker *)
  rewrite (filter_skip (fun pm => matches (ByClass "go") (snd pm))) by reflexivity.
  rewrite filter_app, (filter_shifted_none (matches (ByClass "go")) pre 0 (fun pm : list nat * Node => (0 :: fst pm, snd pm)) (fun _ => eq_refl) GoPre).
  cbn [app].
  rewrite (filter_skip (fun pm => matches (ByClass "go") (snd pm))) by reflexivity.
  rewrite filter_app, (filter_shifted_none (matches (ByClass "go")) post 0 (fun pm : list nat * Node => (1 :: fst pm, snd pm)) (fun _ => eq_refl) GoPost).
  rewrite filter_empty. cbn [app hd_error].
  (* the wrapper is the first element with the identifier *)
  rewrite (filter_skip (fun pm => matches (ById LC_ID) (snd pm))) by reflexivity.
  rewrite filter_app, (filter_shifted_none (matches (ById LC_ID)) pre 0 (fun pm : list nat * Node => (0 :: fst pm, snd pm)) (fun _ => eq_refl) NoId).
  cbn [app].
  rewrite (filter_keep (fun pm => matches (ById LC_ID) (snd pm))).
  - reflexivity.
  - unfold matches, has_id, getAttribute. simpl. rewrite String.eqb_refl. reflexivity.
Qed.

(** The content cell of a console line that does not start with a prompt
    is the cell as first built: it carries the identifier itself and has
    no wrapper. *)
Lemma bare_cell `{Host} (o : LineOptions) :
  language_is_console (line_language o) = true ->
  startsWithPrompt (parseFragment (line_html o)) = false ->
  let LC_ID := line_codeblockId o +++ "-LC" +++ nat_toString (lineNumber o) in
  contentCell (createCodeBlockLine o)
  = Some (Element "td"
            [("id", LC_ID);
             ("class", clsx [Some CODEBLOCK_LINE_CLASS;
                             when (shouldHighlight o) "primer-spec-code-block-highlighted"])]
            (parseFragment (line_html o))).
Proof.
  intros L G LC_ID. unfold createCodeBlockLine, contentCell.
  rewrite L. unfold h. cbn [childNodes props flat_map snd fst app List.concat nth_error].
  unfold excludePrompt.
  destruct (parseFragment (line_html o)) as [|first rest]; [reflexivity|].
  cbn [firstChild childNodes hd_error List.concat app].
  rewrite app_nil_r. cbn [hd_error]. cbn [startsWithPrompt] in G.
  rewrite G. reflexivity.
Qed.

(** The console extractor takes nothing from such a line: it looks for
    the identifier below the cell, where no wrapper carries it. *)
Lemma console_bare_line `{Host} (o : LineOptions) codeblock :
  language_is_console (line_language o) = true ->
  let cs := parseFragment (line_html o) in
  let LC_ID := line_codeblockId o +++ "-LC" +++ nat_toString (lineNumber o) in
  startsWithPrompt cs = false ->
  forallb (every_element (fun e => negb (matches (ByClass "go") e))) cs = true ->
  forallb (every_element (fun e => negb (matches (ById LC_ID) e))) cs = true ->
  id codeblock = line_codeblockId o ->
  exists cell,
    contentCell (createCodeBlockLine o) = Some cell
    /\ getAttribute cell "id" = Some LC_ID
    /\ childNodes cell = cs
    /\ CONSOLE_COPY_LINES_MAP_FN cell (lineNumber o) codeblock = None.
Proof.
  intros L cs LC_ID G NoGo NoId Id.
  eexists. split; [apply (bare_cell o L G)|].
  fold cs. fold LC_ID.
  split; [reflexivity|].
  split; [reflexivity|].
  apply console_plain_line.
  - unfold querySelector, querySelectorAll. rewrite descendants_element.
    rewrite (filter_children_none (matches (ByClass "go")) cs 0 NoGo). reflexivity.
  - rewrite Id. fold LC_ID.
    unfold querySelector, querySelectorAll. rewrite descendants_element.
    rewrite (filter_children_none (matches (ById LC_ID)) cs 0 NoId). reflexivity.
Qed.

End CopyFacts.

Module PathFacts.
Import JSString DOM.

Lemma node_at_app p : forall t r,
  node_at t (p ++ r)
  = match node_at t p with Some n => node_at n r | None => None end.
Proof.
  induction p as [|i p IH]; intros t r; simpl; [reflexivity|].
  destruct (nth_error (childNodes t) i); auto.
Qed.

Lemma is_prefix_split p : forall q,
  is_prefix p q = true -> q = p ++ skipn (List.length p) q.
Proof.
  induction p as [|i p IH]; intros [|j q] E; simpl in *; try discriminate; auto.
  apply andb_true_iff in E. destruct E as [E1 E2].
  apply Nat.eqb_eq in E1. subst j. f_equal. auto.
Qed.

Lemma is_prefix_refl p : is_prefix p p = true.
Proof. induction p as [|i p IH]; simpl; auto. rewrite Nat.eqb_refl. auto. Qed.

Lemma is_prefix_length p : forall q, is_prefix p q = true -> List.length p <= List.length q.
Proof.
  induction p as [|i p IH]; intros [|j q] E; simpl in *; try discriminate; try lia.
  apply andb_true_iff in E. destruct E as [_ E]. apply IH in E. lia.
Qed.

Lemma is_prefix_trans p : forall q r,
  is_prefix p q = true -> is_prefix q r = true -> is_prefix p r = true.
Proof.
  induction p as [|i p IH]; intros [|j q] [|k r] E1 E2; simpl in *;
    try discriminate; auto.
  apply andb_true_iff in E1. destruct E1 as [A1 B1].
  apply andb_true_iff in E2. destruct E2 as [A2 B2].
  apply Nat.eqb_eq in A1, A2. subst. rewrite Nat.eqb_refl. simpl. eauto.
Qed.

Lemma is_prefix_antisym p : forall q,
  is_prefix p q = true -> is_prefix q p = true -> p = q.
Proof.
  induction p as [|i p IH]; intros [|j q] E1 E2; simpl in *; try discriminate; auto.
  apply andb_true_iff in E1. destruct E1 as [A1 B1].
  apply andb_true_iff in E2. destruct E2 as [A2 B2].
  apply Nat.eqb_eq in A1. subst. f_equal. auto.
Qed.

(** Two prefixes of one path are prefixes of one another, one way or the
    other. *)
Lemma prefixes_comparable p : forall k q,
  is_prefix p q = true -> is_prefix k q = true ->
  is_prefix p k = true \/ is_prefix k p = true.
Proof.
  induction p as [|i p IH]; intros [|j k] [|l q] E1 E2; simpl in *;
    try discriminate; auto.
  apply andb_true_iff in E1. destruct E1 as [A1 B1].
  apply andb_true_iff in E2. destruct E2 as [A2 B2].
  apply Nat.eqb_eq in A1, A2. subst. rewrite !Nat.eqb_refl. simpl. eauto.
Qed.

Lemma path_eqb_eq p q : Orchestrator.path_eqb p q = true <-> p = q.
Proof.
  unfold Orchestrator.path_eqb. rewrite andb_true_iff. split.
  - intros [A B]. apply is_prefix_antisym; auto.
  - intros ->. rewrite is_prefix_refl. auto.
Qed.

Lemma proper_prefix_iff p q :
  is_proper_prefix p q = true <-> is_prefix p q = true /\ p <> q.
Proof.
  unfold is_proper_prefix. rewrite andb_true_iff, Nat.ltb_lt. split.
  - intros [A B]. split; auto. intros ->. lia.
  - intros [A B]. split; auto.
    assert (L := is_prefix_length _ _ A).
    destruct (Nat.eq_dec (List.length p) (List.length q)) as [E|]; [|lia].
    exfalso. apply B. rewrite (is_prefix_split _ _ A).
    rewrite E, skipn_all, app_nil_r. reflexivity.
Qed.

(** ** The order *)

Lemma precedes_irrefl p : precedes p p = false.
Proof.
  induction p as [|i p IH]; simpl; auto.
  rewrite Nat.ltb_irrefl, Nat.eqb_refl, IH. reflexivity.
Qed.

Lemma precedes_trans p : forall q r,
  precedes p q = true -> precedes q r = true -> precedes p r = true.
Proof.
  induction p as [|i p IH]; intros [|j q] [|k r] E1 E2; simpl in *;
    try discriminate; auto.
  apply orb_true_iff in E1. apply orb_true_iff in E2. apply orb_true_iff.
  destruct E1 as [A|A]; destruct E2 as [B|B];
    rewrite ?andb_true_iff, ?Nat.ltb_lt, ?Nat.eqb_eq in *.
  - left. lia.
  - left. lia.
  - left. lia.
  - right. destruct A as [-> A], B as [-> B]. split; eauto.
Qed.

(** A path does not come before its own prefixes. *)
Lemma precedes_not_prefix p : forall q,
  precedes p q = true -> is_prefix q p = false.
Proof.
  induction p as [|i p IH]; intros [|j q] E; simpl in *; try discriminate; auto.
  apply orb_true_iff in E. destruct E as [E|E].
  - apply Nat.ltb_lt in E. replace (j =? i) with false; auto.
    symmetry. apply Nat.eqb_neq. lia.
  - apply andb_true_iff in E. destruct E as [A B].
    rewrite (IH _ B). apply andb_false_r.
Qed.

Lemma precedes_cases p q :
  precedes p q = true ->
  is_proper_prefix p q = true \/ (is_prefix p q = false /\ is_prefix q p = false).
Proof.
  intro E. assert (B := precedes_not_prefix _ _ E).
  destruct (is_prefix p q) eqn:A; auto.
  left. apply proper_prefix_iff. split; auto.
  intros ->. rewrite precedes_irrefl in E. discriminate.
Qed.

Lemma precedes_app k p q : precedes (k ++ p) (k ++ q) = precedes p q.
Proof.
  induction k as [|i k IH]; simpl; auto.
  rewrite Nat.ltb_irrefl, Nat.eqb_refl. simpl. exact IH.
Qed.

Lemma is_prefix_app_same k p q : is_prefix (k ++ p) (k ++ q) = is_prefix p q.
Proof. induction k as [|i k IH]; simpl; auto. rewrite Nat.eqb_refl. auto. Qed.

(** ** Updates *)

Lemma nth_error_update_same {A} (f : A -> A) l : forall i,
  nth_error (update_nth i f l) i = option_map f (nth_error l i).
Proof. induction l as [|x l IH]; intros [|i]; simpl; auto. Qed.

Lemma nth_error_update_other {A} (f : A -> A) l : forall i j,
  i <> j -> nth_error (update_nth i f l) j = nth_error l j.
Proof.
  induction l as [|x l IH]; intros [|i] [|j] N; simpl; auto; try congruence.
Qed.

(** An update leaves alone what lies beside it. *)
Lemma node_at_update_beside f p : forall t q,
  is_prefix p q = false -> is_prefix q p = false ->
  node_at (update_at t p f) q = node_at t q.
Proof.
  induction p as [|i p IH]; intros t [|j q] A B; simpl in *; try discriminate.
  destruct t as [d|d|tag a cs]; auto. simpl.
  destruct (Nat.eq_dec i j) as [->|N].
  - rewrite Nat.eqb_refl in A, B. simpl in A, B.
    rewrite nth_error_update_same. destruct (nth_error cs j); simpl; auto.
  - rewrite nth_error_update_other by auto. reflexivity.
Qed.

(** An update by a function that keeps the children leaves alone what
    lies below it. *)
Lemma node_at_update_below f p : forall t r,
  r <> [] ->
  (forall n, childNodes (f n) = childNodes n) ->
  node_at (update_at t p f) (p ++ r) = node_at t (p ++ r).
Proof.
  induction p as [|i p IH]; intros t r R K; simpl.
  - destruct r as [|j r]; [congruence|]. simpl. rewrite K. reflexivity.
  - destruct t as [d|d|tag a cs]; auto. simpl.
    rewrite nth_error_update_same. destruct (nth_error cs i); simpl; auto.
Qed.

Lemma classList_add_children n c : childNodes (classList_add n c) = childNodes n.
Proof.
  unfold classList_add. destruct n as [d|d|t a cs]; simpl; auto.
  destruct (classList_contains (Element t a cs) c); reflexivity.
Qed.

(** ** The elements of a tree *)

Lemma elements_of_children_shape l : forall i p e,
  In (p, e) (elements_of_children i l) ->
  exists j c r, p = (i + j) :: r /\ nth_error l j = Some c /\ In (r, e) (elements_from c).
Proof.
  induction l as [|c l IH]; intros i p e I; simpl in I; [contradiction|].
  apply in_app_or in I. destruct I as [I|I].
  - apply in_map_iff in I. destruct I as [[r e'] [E I]]. simpl in E.
    inversion E; subst. exists 0, c, r. rewrite Nat.add_0_r. auto.
  - apply IH in I. destruct I as (j & c' & r & -> & N & I).
    exists (S j), c', r. split; [f_equal; lia|]. auto.
Qed.

(** Every listed element stands at its path. *)
Lemma elements_from_at n : forall p e,
  In (p, e) (elements_from n) -> node_at n p = Some e /\ isElement e = true.
Proof.
  induction n as [d|d|t a cs IH] using DOMFacts.Node_induction; intros p e I;
    try contradiction.
  rewrite DOMFacts.elements_from_element in I. destruct I as [I|I].
  - inversion I; subst. auto.
  - apply elements_of_children_shape in I.
    destruct I as (j & c & r & -> & N & I). simpl.
    rewrite N. rewrite Forall_forall in IH.
    apply (IH c); auto. eapply nth_error_In; eauto.
Qed.

Lemma descendants_at n p e :
  In (p, e) (descendants n) -> node_at n p = Some e /\ isElement e = true /\ p <> [].
Proof.
  destruct n as [d|d|t a cs]; try contradiction.
  intro I. assert (I' : In (p, e) (elements_from (Element t a cs))) by (right; exact I).
  apply elements_from_at in I'. destruct I' as [A B]. repeat split; auto.
  rewrite DOMFacts.descendants_element in I.
  apply elements_of_children_shape in I. destruct I as (j & c & r & -> & _).
  discriminate.
Qed.

(** The elements are listed in tree order. *)
Lemma sorted_app {A} (R : A -> A -> Prop) l1 l2 :
  StronglySorted R l1 -> StronglySorted R l2 ->
  (forall a b, In a l1 -> In b l2 -> R a b) ->
  StronglySorted R (l1 ++ l2).
Proof.
  intros S1 S2 C. induction S1 as [|x l1 S1 IH F]; simpl; auto.
  constructor.
  - apply IH. intros a b Ia Ib. apply C; simpl; auto.
  - apply Forall_app. split; auto.
    apply Forall_forall. intros b Ib. apply C; simpl; auto.
Qed.

Lemma sorted_map_shift i l :
  StronglySorted in_order l ->
  StronglySorted in_order (map (fun pm : list nat * Node => (i :: fst pm, snd pm)) l).
Proof.
  induction 1 as [|x l S IH F]; simpl; constructor; auto.
  rewrite Forall_map. eapply Forall_impl; [|exact F].
  intros b R. unfold in_order in *. simpl.
  rewrite Nat.eqb_refl, R. apply orb_true_r.
Qed.

Lemma elements_of_children_sorted l : forall i,
  Forall (fun c => StronglySorted in_order (elements_from c)) l ->
  StronglySorted in_order (elements_of_children i l).
Proof.
  induction l as [|c l IH]; intros i F; simpl; [constructor|].
  inversion F; subst. apply sorted_app.
  - apply sorted_map_shift. assumption.
  - apply IH. assumption.
  - intros [p e] [q e'] Ia Ib. apply in_map_iff in Ia.
    destruct Ia as [[r e''] [E _]]. inversion E; subst.
    apply elements_of_children_shape in Ib.
    destruct Ib as (j & c' & r' & -> & _ & _).
    unfold in_order. cbn [fst precedes].
    assert (T : (i <? S i + j) = true) by (apply Nat.ltb_lt; lia).
    rewrite T. reflexivity.
Qed.

Lemma elements_from_sorted n : StronglySorted in_order (elements_from n).
Proof.
  induction n as [d|d|t a cs IH] using DOMFacts.Node_induction; try constructor.
  - apply elements_of_children_sorted. exact IH.
  - apply Forall_forall. intros [p e] I.
    apply elements_of_children_shape in I. destruct I as (j & c & r & -> & _).
    reflexivity.
Qed.

Lemma descendants_sorted n : StronglySorted in_order (descendants n).
Proof.
  assert (S := elements_from_sorted n). unfold descendants.
  destruct (elements_from n); simpl; [constructor|]. inversion S; assumption.
Qed.

Lemma sorted_filter {A} (R : A -> A -> Prop) f l :
  StronglySorted R l -> StronglySorted R (filter f l).
Proof.
  induction 1 as [|x l S IH F]; simpl; [constructor|].
  destruct (f x); auto. constructor; auto.
  apply Forall_forall. intros y I. apply filter_In in I.
  rewrite Forall_forall in F. apply F. tauto.
Qed.

End PathFacts.

Module PassFacts.
Import JSString DOM Collaborators Renderer Extractor Orchestrator PathFacts.

Lemma find_map_same {A} (P : A -> bool) (g : A -> A) l :
  (forall e, P (g e) = P e) -> find P (map g l) = option_map g (find P l).
Proof.
  intro E. induction l as [|x l IH]; simpl; auto.
  rewrite E. destruct (P x); auto.
Qed.

Lemma find_agree {A} (P Q : A -> bool) l :
  (forall e, In e l -> P e = Q e) -> find P l = find Q l.
Proof.
  induction l as [|x l IH]; intro E; simpl; auto.
  rewrite (E x) by (left; reflexivity). destruct (Q x); auto.
  apply IH. intros e I. apply E. right. exact I.
Qed.

Lemma find_in {A} (P : A -> bool) l e : find P l = Some e -> In e l /\ P e = true.
Proof. apply find_some. Qed.

Lemma same_key_same_tree (l : list (list nat * Node)) k a b :
  NoDup (map fst l) -> In (k, a) l -> In (k, b) l -> a = b.
Proof.
  induction l as [|[k' c] l IH]; simpl; intros N Ia Ib; [contradiction|].
  inversion N as [|? ? Nin N']; subst.
  destruct Ia as [Ia|Ia], Ib as [Ib|Ib].
  - congruence.
  - inversion Ia; subst. exfalso. apply Nin.
    change k with (fst (k, b)). apply in_map. exact Ib.
  - inversion Ib; subst. exfalso. apply Nin.
    change k with (fst (k, a)). apply in_map. exact Ia.
  - auto.
Qed.

(** ** The holder of a block *)

Lemma holder_cases st q :
  (find (fun e => is_proper_prefix (fst e) q) (detached st) = None
   /\ holder st q = ([], root st))
  \/ (exists e, find (fun e => is_proper_prefix (fst e) q) (detached st) = Some e
                /\ holder st q = e /\ In e (detached st)
                /\ is_proper_prefix (fst e) q = true).
Proof.
  unfold holder.
  destruct (find (fun e => is_proper_prefix (fst e) q) (detached st)) as [e|] eqn:F.
  - right. exists e. apply find_in in F. tauto.
  - left. auto.
Qed.

Lemma holder_prefix st q : is_prefix (fst (holder st q)) q = true.
Proof.
  destruct (holder_cases st q) as [[_ ->]|(e & _ & -> & _ & P)]; [reflexivity|].
  apply proper_prefix_iff in P. tauto.
Qed.

Lemma path_under_holder st q :
  q = fst (holder st q) ++ skipn (List.length (fst (holder st q))) q.
Proof. apply is_prefix_split, holder_prefix. Qed.

(** A block inside the block at [p] is held by the tree that holds [p]. *)
Lemma holder_below st p q :
  (forall k, In k (keys st) -> precedes k p = true) ->
  is_proper_prefix p q = true ->
  holder st q = holder st p.
Proof.
  intros B P. unfold holder.
  rewrite (find_agree (fun e => is_proper_prefix (fst e) q)
                      (fun e => is_proper_prefix (fst e) p)); [reflexivity|].
  intros e I. assert (Bk : precedes (fst e) p = true) by (apply B, in_map, I).
  apply proper_prefix_iff in P. destruct P as [Ppq Npq].
  apply eq_true_iff_eq. rewrite !proper_prefix_iff. split.
  - intros [Pk Nk]. assert (Np := precedes_not_prefix _ _ Bk).
    destruct (prefixes_comparable _ _ _ Ppq Pk) as [C|C]; [congruence|].
    split; auto. intros E. rewrite E, precedes_irrefl in Bk. discriminate.
  - intros [Pk Nk]. split; [eapply is_prefix_trans; eauto|].
    intros E. apply Nk. apply is_prefix_antisym; auto.
    rewrite E. exact Ppq.
Qed.

Lemma skipn_under k : forall p q,
  is_prefix k p = true -> is_prefix p q = true ->
  skipn (List.length k) q = skipn (List.length k) p ++ skipn (List.length p) q.
Proof.
  induction k as [|i k IH]; intros p q A B.
  - simpl. apply is_prefix_split. exact B.
  - destruct p as [|j p]; [discriminate|]. destruct q as [|l q]; [discriminate|].
    simpl in *. apply andb_true_iff in A. apply andb_true_iff in B.
    apply IH; tauto.
Qed.

Lemma fetch_below st p q c :
  (forall k, In k (keys st) -> precedes k p = true) ->
  is_proper_prefix p q = true ->
  fetch st p = Some c ->
  fetch st q = node_at c (skipn (List.length p) q).
Proof.
  intros B P F. unfold fetch in *. rewrite (holder_below st p q B P).
  assert (Pq : is_prefix p q = true) by (apply proper_prefix_iff in P; tauto).
  rewrite (skipn_under _ _ _ (holder_prefix st p) Pq), node_at_app, F.
  reflexivity.
Qed.

(** ** Writing a tree back *)

Lemma fetch_put st p q f :
  Filed st p ->
  precedes p q = true ->
  is_prefix p q = false \/ (forall n, childNodes (f n) = childNodes n) ->
  fetch (rewritten st p f) q = fetch st q.
Proof.
  intros [ND KB KN] Bpq Side. unfold rewritten.
  set (k := fst (holder st p)). set (t := snd (holder st p)).
  set (rel := skipn (List.length k) p).
  assert (Ep : p = k ++ rel) by apply path_under_holder.
  (* the update leaves alone what is fetched below the same key *)
  assert (Upd : forall relq, q = k ++ relq ->
                node_at (update_at t rel f) relq = node_at t relq).
  { intros relq Eq.
    assert (Brel : precedes rel relq = true)
      by (rewrite <- (precedes_app k), <- Ep, <- Eq; exact Bpq).
    destruct (precedes_cases _ _ Brel) as [Pr|[A B]].
    - destruct Side as [Np|K].
      + apply proper_prefix_iff in Pr. destruct Pr as [Pr _].
        rewrite Ep, Eq, is_prefix_app_same in Np. congruence.
      + apply proper_prefix_iff in Pr. destruct Pr as [Pr Nr].
        rewrite (is_prefix_split _ _ Pr). apply node_at_update_below; auto.
        intro E. apply Nr. rewrite (is_prefix_split _ _ Pr), E, app_nil_r.
        reflexivity.
    - apply node_at_update_beside; auto. }
  destruct (holder_cases st p) as [[Fp Hp]|(ep & Fp & Hp & Ip & Pp)].
  - (* the root holds [p] *)
    assert (Ek : k = []) by (unfold k; rewrite Hp; reflexivity).
    assert (Et : t = root st) by (unfold t; rewrite Hp; reflexivity).
    rewrite Ek. unfold put_tree, fetch, holder. simpl.
    destruct (find (fun e => is_proper_prefix (fst e) q) (detached st)) as [e|];
      [reflexivity|].
    simpl. rewrite <- Et. apply Upd. rewrite Ek. reflexivity.
  - (* a detached tree holds [p] *)
    assert (Ek : k = fst ep) by (unfold k; rewrite Hp; reflexivity).
    assert (Et : t = snd ep) by (unfold t; rewrite Hp; reflexivity).
    assert (Nk : k <> []) by (apply KN; rewrite Ek; apply in_map; exact Ip).
    unfold put_tree. destruct k as [|k0 k'] eqn:Kshape; [congruence|].
    rewrite <- Kshape in *. unfold fetch, holder. cbn [detached root].
    rewrite find_map_same.
    2:{ intro e. cbn [fst].
        destruct (path_eqb (fst e) k) eqn:E; [|reflexivity].
        apply path_eqb_eq in E. cbn [fst]. rewrite E. reflexivity. }
    destruct (find (fun e => is_proper_prefix (fst e) q) (detached st)) as [e|] eqn:Fq;
      [|reflexivity].
    cbn [option_map]. apply find_in in Fq. destruct Fq as [Iq Pq].
    destruct (path_eqb (fst e) k) eqn:E; [|reflexivity].
    apply path_eqb_eq in E. cbn [fst snd].
    assert (Te : snd e = t).
    { rewrite Et. apply (same_key_same_tree (detached st) k); auto.
      - rewrite <- E. destruct e; exact Iq.
      - rewrite Ek. destruct ep; exact Ip. }
    rewrite Te, E. apply Upd.
    apply is_prefix_split. rewrite <- E. apply proper_prefix_iff in Pq. tauto.
Qed.

(** ** One visit *)

Lemma fetch_ext a b q :
  root a = root b -> detached a = detached b -> fetch a q = fetch b q.
Proof. unfold fetch, holder. intros -> ->. reflexivity. Qed.

Lemma keys_ext a b : detached a = detached b -> keys a = keys b.
Proof. unfold keys. intros ->. reflexivity. Qed.

Lemma put_tree_keys st k t : keys (put_tree st k t) = keys st.
Proof.
  unfold put_tree, keys. destruct k as [|i k]; [reflexivity|].
  cbn [detached]. rewrite map_map. apply map_ext. intro e.
  destruct (path_eqb (fst e) (i :: k)) eqn:E; [|reflexivity].
  apply path_eqb_eq in E. simpl. auto.
Qed.

Lemma put_tree_forest_ext a b k t :
  root a = root b -> detached a = detached b ->
  root (put_tree a k t) = root (put_tree b k t)
  /\ detached (put_tree a k t) = detached (put_tree b k t).
Proof. intros R D. destruct k; simpl; rewrite ?R, ?D; auto. Qed.

Lemma put_tree_visits st k t : visits (put_tree st k t) = visits st.
Proof. destruct k; reflexivity. Qed.

Lemma put_tree_next st k t :
  nextCodeBlockId (put_tree st k t) = nextCodeBlockId st.
Proof. destruct k; reflexivity. Qed.

(** A visit of a block that is found records it once, with a number
    unless it is retained. *)
Lemma enhanceBlock_visit `{Host} getCodeEl st p c :
  fetch st p = Some c ->
  exists v,
    visits (enhanceBlock getCodeEl st p) = visits st ++ [v]
    /\ visit_path v = p /\ visit_block v = c
    /\ Effect st p c (enhanceBlock getCodeEl st p) (visit_outcome v)
    /\ (visit_outcome v = Retained ->
        visit_id v = None
        /\ shouldRetainLegacyCodeBlock c = true
        /\ nextCodeBlockId (enhanceBlock getCodeEl st p) = nextCodeBlockId st)
    /\ (visit_outcome v <> Retained ->
        visit_id v = Some (nextCodeBlockId st)
        /\ shouldRetainLegacyCodeBlock c = false
        /\ nextCodeBlockId (enhanceBlock getCodeEl st p) = S (nextCodeBlockId st)).
Proof.
  intro F. unfold enhanceBlock. rewrite F.
  destruct (shouldRetainLegacyCodeBlock c) eqn:Retain.
  - eexists. split.
    { cbn [record_visit visits]. rewrite put_tree_visits. reflexivity. }
    cbn [visit_path visit_block visit_outcome visit_id].
    repeat split; auto; try congruence.
    + constructor; reflexivity.
    + cbn [record_visit nextCodeBlockId]. apply put_tree_next.
  - cbn [draw_id].
    destruct (parent_path _).
    2:{ eexists. split; [reflexivity|].
        cbn [visit_path visit_block visit_outcome visit_id].
        repeat split; auto; try congruence. constructor; reflexivity. }
    destruct (getCodeEl c) as [msgs [el|]].
    2:{ eexists. split; [reflexivity|].
        cbn [visit_path visit_block visit_outcome visit_id].
        repeat split; auto; try congruence. constructor; reflexivity. }
    destruct (createEnhancedCodeBlock _) as [msgs' [blk|]] eqn:Built.
    2:{ eexists. split; [reflexivity|].
        cbn [visit_path visit_block visit_outcome visit_id].
        repeat split; auto; try congruence. constructor; reflexivity. }
    eexists. split.
    { cbn [record_visit detach visits]. rewrite put_tree_visits. reflexivity. }
    cbn [visit_path visit_block visit_outcome visit_id].
    repeat split; auto; try congruence.
    + eapply effect_enhanced; cbn [record_visit detach root detached];
        [do 4 eexists; split; [exact Built|reflexivity]| |f_equal];
        apply put_tree_forest_ext; reflexivity.
    + cbn [record_visit detach nextCodeBlockId]. rewrite put_tree_next. reflexivity.
Qed.

(** A visit leaves alone the blocks that come later in tree order. *)
Lemma fetch_after_visit `{Host} st p c st' o q :
  Filed st p ->
  fetch st p = Some c ->
  Effect st p c st' o ->
  precedes p q = true ->
  fetch st' q = fetch st q.
Proof.
  intros Fi F E B. destruct E as [R D|R D|w _ R D].
  - rewrite (fetch_ext _ _ q R D). apply fetch_put; auto.
    right. intro n. apply classList_add_children.
  - apply fetch_ext; auto.
  - destruct (precedes_cases _ _ B) as [P|[A _]].
    + unfold fetch at 1, holder. rewrite D. cbn [find fst]. rewrite P. cbn [fst snd].
      symmetry. apply fetch_below; auto. apply Fi.
    + assert (NP : is_proper_prefix p q = false).
      { unfold is_proper_prefix. rewrite A. reflexivity. }
      transitivity (fetch (rewritten st p (fun _ => w)) q).
      * unfold fetch, holder. rewrite D, R. cbn [find fst]. rewrite NP. reflexivity.
      * apply fetch_put; auto.
Qed.

(** The trees stay filed as the pass moves on. *)
Lemma filed_after_visit `{Host} st p c st' o q :
  Filed st p ->
  Effect st p c st' o ->
  p <> [] ->
  precedes p q = true ->
  Filed st' q.
Proof.
  intros [ND KB KN] E Np B.
  assert (Old : forall k, In k (keys st) -> precedes k q = true).
  { intros k I. eapply precedes_trans; eauto. }
  destruct E as [R D|R D|w _ R D].
  - assert (K : keys st' = keys st) by (rewrite (keys_ext _ _ D); apply put_tree_keys).
    constructor; rewrite K; auto.
  - assert (K : keys st' = keys st) by (apply keys_ext; exact D).
    constructor; rewrite K; auto.
  - assert (K : keys st' = p :: keys st).
    { unfold keys at 1. rewrite D. cbn [map fst]. f_equal. apply put_tree_keys. }
    constructor; rewrite K.
    + constructor; auto. intro I. apply KB in I.
      rewrite precedes_irrefl in I. discriminate.
    + intros k [<-|I]; auto.
    + intros k [<-|I]; auto.
Qed.

(** ** A whole pass *)

Lemma drawn_ids_app a b : drawn_ids (a ++ b) = drawn_ids a ++ drawn_ids b.
Proof. unfold drawn_ids. apply flat_map_app. Qed.

Lemma pass_visits `{Host} getCodeEl : forall cands st,
  StronglySorted in_order cands ->
  (forall c, In c cands ->
             Filed st (fst c) /\ fst c <> [] /\ fetch st (fst c) = Some (snd c)) ->
  exists vs,
    visits (fold_left (enhanceBlock getCodeEl) (map fst cands) st) = visits st ++ vs
    /\ map visited vs = cands
    /\ drawn_ids vs = seq (nextCodeBlockId st) (List.length (drawn_ids vs))
    /\ nextCodeBlockId (fold_left (enhanceBlock getCodeEl) (map fst cands) st)
       = nextCodeBlockId st + List.length (drawn_ids vs)
    /\ Forall visit_sound vs.
Proof.
  induction cands as [|[p c] cands IH]; intros st Srt Ready.
  - exists []. simpl. rewrite app_nil_r, Nat.add_0_r. auto.
  - inversion Srt as [|? ? Srt' Later]; subst.
    destruct (Ready (p, c)) as (Fi & Np & Fe); [left; reflexivity|].
    cbn [fst snd] in *.
    destruct (enhanceBlock_visit getCodeEl st p c Fe)
      as (v & Vs & Vp & Vb & Eff & Ret & Num).
    set (st1 := enhanceBlock getCodeEl st p) in *.
    destruct (IH st1 Srt') as (vs & Vs' & Vc & Dr & Nx & So).
    { intros c' I. rewrite Forall_forall in Later.
      assert (B : precedes p (fst c') = true) by (apply (Later c' I)).
      destruct (Ready c') as (_ & Np' & Fe'); [right; exact I|].
      split; [|split; [exact Np'|]].
      - apply (filed_after_visit st p c st1 (visit_outcome v)); auto.
      - transitivity (fetch st (fst c')); [|exact Fe'].
        apply (fetch_after_visit st p c st1 (visit_outcome v)); auto. }
    exists (v :: vs). cbn [map fold_left fst]. fold st1.
    rewrite Vs', Vs, <- app_assoc. split; [reflexivity|].
    split; [unfold visited at 1; rewrite Vp, Vb, Vc; reflexivity|].
    assert (Sound : visit_sound v).
    { unfold visit_sound. rewrite Vb.
      destruct (visit_outcome v) eqn:O.
      - destruct Ret as (A & B & _); auto. tauto.
      - destruct Num as (A & B & _); [congruence|]. rewrite A, B.
        split; split; congruence.
      - destruct Num as (A & B & _); [congruence|]. rewrite A, B.
        split; split; congruence. }
    change (v :: vs) with ([v] ++ vs). rewrite drawn_ids_app.
    destruct (visit_outcome v) eqn:O.
    + destruct Ret as (A & _ & C); auto.
      replace (drawn_ids [v]) with (@nil nat)
        by (unfold drawn_ids; simpl; rewrite A; reflexivity).
      cbn [app]. rewrite Nx, <- C. auto.
    + destruct Num as (A & _ & C); [congruence|].
      replace (drawn_ids [v]) with [nextCodeBlockId st]
        by (unfold drawn_ids; simpl; rewrite A; reflexivity).
      cbn [app List.length seq]. rewrite Nx, C. rewrite C in Dr.
      split; [f_equal; exact Dr|]. split; [lia|auto].
    + destruct Num as (A & _ & C); [congruence|].
      replace (drawn_ids [v]) with [nextCodeBlockId st]
        by (unfold drawn_ids; simpl; rewrite A; reflexivity).
      cbn [app List.length seq]. rewrite Nx, C. rewrite C in Dr.
      split; [f_equal; exact Dr|]. split; [lia|auto].
Qed.

Lemma filed_fresh mainEl n c v q :
  Filed {| root := mainEl; detached := []; nextCodeBlockId := n;
           console := c; visits := v |} q.
Proof. constructor; unfold keys; simpl; [constructor|contradiction|contradiction]. Qed.

Lemma unprocessed_sorted mainEl sel :
  StronglySorted in_order (unprocessed mainEl (querySelectorAll mainEl sel)).
Proof.
  unfold unprocessed, querySelectorAll.
  apply sorted_filter, sorted_filter, descendants_sorted.
Qed.

Lemma unprocessed_in mainEl sel p e :
  In (p, e) (unprocessed mainEl (querySelectorAll mainEl sel)) ->
  node_at mainEl p = Some e /\ p <> [] /\ matches sel e = true
  /\ notProcessed mainEl (p, e) = true.
Proof.
  unfold unprocessed, querySelectorAll. intro I.
  apply filter_In in I. destruct I as [I NP].
  apply filter_In in I. destruct I as [I M].
  apply descendants_at in I. tauto.
Qed.

(** A pass of [enhanceBlocks] over the blocks a selector finds: every
    block that passes the filter is visited once, in tree order, as it was
    when the pass began, and the numbers drawn count up from [startId]. *)
Lemma enhanceBlocks_visits `{Host} sel getCodeEl startId page :
  let result := enhanceBlocks (querySelectorAll (main page) sel) getCodeEl startId page in
  exists vs,
    page_visits (fst result) = page_visits page ++ vs
    /\ map visited vs = unprocessed (main page) (querySelectorAll (main page) sel)
    /\ drawn_ids vs = seq startId (List.length (drawn_ids vs))
    /\ snd result = startId + List.length (drawn_ids vs)
    /\ Forall visit_sound vs.
Proof.
  unfold enhanceBlocks. cbn [fst snd page_visits].
  set (st := {| root := main page; detached := []; nextCodeBlockId := startId;
                console := page_console page; visits := page_visits page |}).
  destruct (pass_visits getCodeEl
              (unprocessed (main page) (querySelectorAll (main page) sel)) st)
    as (vs & A & B & C & D & E).
  - apply unprocessed_sorted.
  - intros [p e] I. apply unprocessed_in in I. destruct I as (At & Np & _).
    cbn [fst snd]. split; [apply filed_fresh|]. split; auto.
  - exists vs. auto.
Qed.

(** The numbers of the visits with one outcome rise strictly. *)
Lemma ids_with_rising o : forall vs a,
  drawn_ids vs = seq a (List.length (drawn_ids vs)) ->
  StronglySorted lt (ids_with o vs) /\ Forall (fun n => a <= n) (ids_with o vs).
Proof.
  induction vs as [|v vs IH]; intros a D.
  - split; constructor.
  - change (v :: vs) with ([v] ++ vs) in *. rewrite drawn_ids_app in D.
    unfold ids_with. rewrite flat_map_app. fold (ids_with o vs).
    destruct (visit_id v) as [n|] eqn:I.
    + replace (drawn_ids [v]) with [n] in D
        by (unfold drawn_ids; simpl; rewrite I; reflexivity).
      cbn [app List.length seq] in D. inversion D as [[E D']].
      rewrite <- E in D'. destruct (IH _ D') as [Srt F].
      assert (Lt : Forall (fun m => a < m) (ids_with o vs)).
      { eapply Forall_impl; [|exact F]. simpl. intros; lia. }
      assert (Le : Forall (fun m => a <= m) (ids_with o vs)).
      { eapply Forall_impl; [|exact F]. simpl. intros; lia. }
      cbn [flat_map]. rewrite I, app_nil_r. subst n.
      destruct (visit_outcome v), o; cbn [app];
        first [ split; [exact Srt|exact Le]
              | split; constructor; auto ].
    + replace (drawn_ids [v]) with (@nil nat) in D
        by (unfold drawn_ids; simpl; rewrite I; reflexivity).
      cbn [app] in D. destruct (IH _ D) as [Srt F].
      cbn [flat_map]. rewrite I, app_nil_r.
      destruct (visit_outcome v), o; cbn [app]; auto.
Qed.

End PassFacts.
(* ================================================================== *)
(** * Facts: strings and the markup of a span *)
(* ================================================================== *)

Module TextFacts.
Import JSString DOM.

Lemma split_app_sep sep a : forall b,
  split sep (a +++ String sep b) = split sep a ++ split sep b.
Proof.
  induction a as [|c a IH]; intro b; simpl.
  - rewrite Ascii.eqb_refl. reflexivity.
  - destruct (Ascii.eqb c sep); [rewrite IH; reflexivity|].
    rewrite IH. destruct (split sep a) as [|p ps] eqn:S; [|reflexivity].
    exfalso. exact (ExtractorFacts.split_nonempty sep a S).
Qed.

Lemma has_char_app c a b : has_char c (a +++ b) = has_char c a || has_char c b.
Proof.
  induction a as [|d a IH]; simpl; [reflexivity|].
  rewrite IH, orb_assoc. reflexivity.
Qed.

(** A string without the separator is its own single piece. *)
Lemma split_whole sep s : has_char sep s = false -> split sep s = [s].
Proof.
  induction s as [|c s IH]; simpl; intro N; [reflexivity|].
  apply orb_false_iff in N. destruct N as [N1 N2].
  rewrite N1, (IH N2). reflexivity.
Qed.

Ltac upper_cases c :=
  let E := fresh "E" in
  intro E;
  destruct c as [[] [] [] [] [] [] [] []]; vm_compute in E;
  first [discriminate E | left; reflexivity | right; reflexivity].

Lemma upper_S c : upper_char c = "S"%char -> c = "S"%char \/ c = "s"%char.
Proof. upper_cases c. Qed.

Lemma upper_P c : upper_char c = "P"%char -> c = "P"%char \/ c = "p"%char.
Proof. upper_cases c. Qed.

Lemma upper_A c : upper_char c = "A"%char -> c = "A"%char \/ c = "a"%char.
Proof. upper_cases c. Qed.

Lemma upper_N c : upper_char c = "N"%char -> c = "N"%char \/ c = "n"%char.
Proof. upper_cases c. Qed.

(** The sixteen spellings of the tag name the extractor accepts. *)
Lemma span_spellings t :
  String.eqb (toUpperCase t) "SPAN" = true ->
  exists c1 c2 c3 c4,
    t = String c1 (String c2 (String c3 (String c4 EmptyString))) /\
    (c1 = "S"%char \/ c1 = "s"%char) /\ (c2 = "P"%char \/ c2 = "p"%char) /\
    (c3 = "A"%char \/ c3 = "a"%char) /\ (c4 = "N"%char \/ c4 = "n"%char).
Proof.
  intro E. apply String.eqb_eq in E.
  destruct t as [|c1 [|c2 [|c3 [|c4 [|c5 t]]]]]; simpl in E; try discriminate E.
  injection E as E1 E2 E3 E4.
  exists c1, c2, c3, c4. split; [reflexivity|].
  repeat split; [apply upper_S | apply upper_P | apply upper_A | apply upper_N];
    assumption.
Qed.

Lemma append_nil_r s : s +++ EmptyString = s.
Proof. induction s as [|c s IH]; simpl; [|rewrite IH]; reflexivity. Qed.

Lemma length_append a b :
  String.length (a +++ b) = String.length a + String.length b.
Proof. induction a as [|c a IH]; simpl; [|rewrite IH]; reflexivity. Qed.

(** Escaping brings in no line feed and, inside an attribute value, leaves
    no double quote. *)
Lemma escape_keeps_lines flag s :
  has_char LF s = false -> has_char LF (escape flag s) = false.
Proof.
  induction s as [|c s IH]; simpl; intro N; [reflexivity|].
  apply orb_false_iff in N. destruct N as [N1 N2]. specialize (IH N2).
  destruct (Ascii.eqb c "&"); [exact IH|].
  destruct (Ascii.eqb c NBSP); [exact IH|].
  destruct flag.
  - destruct (Ascii.eqb c DQUOTE); [exact IH|]. simpl. rewrite N1. exact IH.
  - destruct (Ascii.eqb c "<"); [exact IH|].
    destruct (Ascii.eqb c ">"); [exact IH|]. simpl. rewrite N1. exact IH.
Qed.

Lemma escape_attribute_unquoted s : has_char DQUOTE (escape true s) = false.
Proof.
  induction s as [|c s IH]; simpl; [reflexivity|].
  destruct (Ascii.eqb c "&"); [exact IH|].
  destruct (Ascii.eqb c NBSP); [exact IH|].
  destruct (Ascii.eqb c DQUOTE) eqn:Q; [exact IH|]. simpl. rewrite Q. exact IH.
Qed.

End TextFacts.

Module SpanFacts.
Import JSString DOM Extractor ExtractorSpec Renderer TextFacts.

Lemma serialize_attrs_lines a :
  one_line_attrs a = true -> has_char LF (serialize_attrs a) = false.
Proof.
  induction a as [|[k v] a IH]; simpl; intro N; [reflexivity|].
  apply andb_true_iff in N. destruct N as [N N3].
  apply andb_true_iff in N. destruct N as [N1 N2].
  apply negb_true_iff in N1, N2.
  rewrite has_char_app. simpl. rewrite N1. simpl.
  rewrite has_char_app, (escape_keeps_lines true v N2). simpl.
  exact (IH N3).
Qed.

Ltac spell t H :=
  destruct (span_spellings t H)
    as (?c & ?c & ?c & ?c & -> & [-> | ->] & [-> | ->] & [-> | ->] & [-> | ->]).

(** The markup of a span around a text. *)
Lemma span_html t a x :
  String.eqb (toUpperCase t) "SPAN" = true ->
  outerHTML (Element t a [Text x])
  = "<" +++ t +++ serialize_attrs a +++ ">" +++ escape false x +++ "</" +++ t +++ ">".
Proof.
  intro H. spell t H; unfold outerHTML; cbn [serialize mem_string];
    rewrite append_nil_r; reflexivity.
Qed.

Lemma span_html_one_line t a x :
  String.eqb (toUpperCase t) "SPAN" = true ->
  one_line_attrs a = true ->
  has_char LF x = false ->
  has_char LF (outerHTML (Element t a [Text x])) = false.
Proof.
  intros H A X. rewrite (span_html t a x H).
  assert (T : has_char LF t = false) by (spell t H; reflexivity).
  rewrite !has_char_app, T, (serialize_attrs_lines a A),
    (escape_keeps_lines false x X).
  reflexivity.
Qed.

(** The last line of a block that ends with a span is kept. *)
Lemma span_html_kept t a x :
  String.eqb (toUpperCase t) "SPAN" = true ->
  String.eqb (outerHTML (Element t a [Text x])) EmptyString
  || String.eqb (outerHTML (Element t a [Text x])) "</span>" = false.
Proof.
  intro H. rewrite (span_html t a x H). spell t H; reflexivity.
Qed.

(** What is extracted from a code element whose only child is a span with
    three lines of text. *)
Lemma three_lines_extracted codeTag codeAttrs t a x y z :
  String.eqb (toUpperCase t) "SPAN" = true ->
  has_char LF x = false -> has_char LF y = false -> has_char LF z = false ->
  is_empty x = false -> is_empty y = false -> is_empty z = false ->
  getCodeblockContents
    (Element codeTag codeAttrs
       [Element t a [Text (x +++ String LF (y +++ String LF z))]])
  = outerHTML (Element t a [Text x])
    +++ String LF (outerHTML (Element t a [Text y])
    +++ String LF (outerHTML (Element t a [Text z]))).
Proof.
  intros H X Y Z Ex Ey Ez. unfold getCodeblockContents.
  rewrite ExtractorFacts.resultNode_contributions.
  cbn [flat_map contribution]. rewrite H.
  cbn [textContent]. rewrite append_nil_r, !split_app_sep.
  rewrite (split_whole LF x X), (split_whole LF y Y), (split_whole LF z Z).
  cbn [app lineClones]. unfold lineClone. rewrite Ex, Ey, Ez.
  cbn [app innerHTML fold_right].
  rewrite append_nil_r.
  destruct (mem_string codeTag raw_text_elements); reflexivity.
Qed.

Lemma three_lines codeTag codeAttrs t a x y z :
  String.eqb (toUpperCase t) "SPAN" = true ->
  one_line_attrs a = true ->
  has_char LF x = false -> has_char LF y = false -> has_char LF z = false ->
  is_empty x = false -> is_empty y = false -> is_empty z = false ->
  contentLines
    (getCodeblockContents
       (Element codeTag codeAttrs
          [Element t a [Text (x +++ String LF (y +++ String LF z))]]))
  = map outerHTML [Element t a [Text x]; Element t a [Text y]; Element t a [Text z]].
Proof.
  intros H A X Y Z Ex Ey Ez.
  rewrite (three_lines_extracted codeTag codeAttrs t a x y z H X Y Z Ex Ey Ez).
  unfold contentLines. cbv zeta. rewrite !split_app_sep.
  rewrite (split_whole LF _ (span_html_one_line t a x H A X)),
    (split_whole LF _ (span_html_one_line t a y H A Y)),
    (split_whole LF _ (span_html_one_line t a z H A Z)).
  cbn [app last]. rewrite (span_html_kept t a z H). reflexivity.
Qed.

(** *** Balanced tags *)

Lemma escape_text_no_tag x : has_char "<" (escape false x) = false.
Proof.
  induction x as [|c x IH]; simpl; [reflexivity|].
  destruct (Ascii.eqb c "&"); [exact IH|].
  destruct (Ascii.eqb c NBSP); [exact IH|].
  destruct (Ascii.eqb c "<") eqn:L; [exact IH|].
  destruct (Ascii.eqb c ">"); [exact IH|]. simpl. rewrite L. exact IH.
Qed.

(** Text without [<] is passed over, one character for each unit of
    fuel. *)
Lemma balanced_text e : forall f open rest,
  has_char "<" e = false ->
  balanced_from (String.length e + f) open (e +++ rest) = balanced_from f open rest.
Proof.
  induction e as [|c e IH]; intros f open rest N; [reflexivity|].
  cbn [has_char] in N. apply orb_false_iff in N. destruct N as [N1 N2].
  rewrite <- (IH f open rest N2).
  cbn [String.length append Nat.add].
  destruct c as [[] [] [] [] [] [] [] []]; try reflexivity.
  cbv in N1. discriminate N1.
Qed.

Lemma skip_plain x : forall fuel w,
  has_char ">" x = false -> has_char DQUOTE x = false ->
  skip_tag (String.length x + fuel) (x +++ w) = skip_tag fuel w.
Proof.
  induction x as [|c x IH]; intros fuel w G Q; [reflexivity|].
  cbn [has_char] in G, Q.
  apply orb_false_iff in G. destruct G as [G1 G2].
  apply orb_false_iff in Q. destruct Q as [Q1 Q2].
  cbn [String.length append Nat.add skip_tag]. rewrite G1, Q1.
  exact (IH fuel w G2 Q2).
Qed.

Lemma skip_quoted_value v w :
  has_char DQUOTE v = false ->
  skip_quoted DQUOTE (v +++ String DQUOTE w) = w.
Proof.
  induction v as [|c v IH]; cbn [has_char append skip_quoted]; intro Q.
  - rewrite Ascii.eqb_refl. reflexivity.
  - apply orb_false_iff in Q. destruct Q as [Q1 Q2]. rewrite Q1. exact (IH Q2).
Qed.

(** The attributes of a tag are passed over up to the [>] that ends the
    tag. *)
Lemma skip_attrs a : forall fuel w,
  forallb plain_name (map fst a) = true ->
  skip_tag (String.length (serialize_attrs a) + S fuel)
           (serialize_attrs a +++ String ">" w) = w.
Proof.
  induction a as [|[k v] a IH]; intros fuel w P; [reflexivity|].
  cbn [map fst forallb] in P. apply andb_true_iff in P. destruct P as [P1 P2].
  unfold plain_name in P1. apply andb_true_iff in P1. destruct P1 as [G Q].
  apply negb_true_iff in G, Q.
  cbn [serialize_attrs fold_right fst snd].
  fold (serialize_attrs a).
  set (V := escape true v).
  assert (E : (" " +++ k +++ "=" +++ String DQUOTE (V +++ String DQUOTE (serialize_attrs a)))
              +++ String ">" w
              = (" " +++ k +++ "=")
                +++ String DQUOTE (V +++ String DQUOTE (serialize_attrs a +++ String ">" w))).
  { rewrite !ExtractorFacts.append_assoc. cbn [append].
    rewrite !ExtractorFacts.append_assoc. reflexivity. }
  rewrite E.
  assert (L : String.length (" " +++ k +++ "=" +++ String DQUOTE (V +++ String DQUOTE (serialize_attrs a)))
              + S fuel
              = String.length (" " +++ k +++ "=")
                + S (String.length (serialize_attrs a) + S (String.length V + S fuel))).
  { rewrite !length_append. cbn [String.length]. rewrite !length_append.
    cbn [String.length]. lia. }
  rewrite L, skip_plain.
  - cbn [skip_tag]. change (Ascii.eqb DQUOTE ">") with false.
    rewrite Ascii.eqb_refl. cbv iota.
    rewrite (skip_quoted_value V _ (escape_attribute_unquoted v)).
    exact (IH _ w P2).
  - rewrite !has_char_app, G. reflexivity.
  - rewrite !has_char_app, Q. reflexivity.
Qed.

Lemma tag_name_attrs a w : tag_name (serialize_attrs a +++ String ">" w) = EmptyString.
Proof. destruct a as [|[k v] a]; reflexivity. Qed.

(** A span around a text is balanced markup. *)
Lemma span_html_balanced t a x :
  String.eqb (toUpperCase t) "SPAN" = true ->
  forallb plain_name (map fst a) = true ->
  tags_balanced (outerHTML (Element t a [Text x])) = true.
Proof.
  intros H P. rewrite (span_html t a x H). unfold tags_balanced.
  set (e := escape false x).
  assert (F : forall u, String.length u = 4 ->
            S (String.length ("<" +++ u +++ serialize_attrs a +++ ">" +++ e +++ "</" +++ u +++ ">"))
            = S (String.length e + S (S (String.length (serialize_attrs a) + 11)))).
  { intros u U. rewrite !length_append. cbn [String.length]. rewrite U. lia. }
  assert (K : forall u w, String.length u = 4 ->
            has_char ">" u = false -> has_char DQUOTE u = false ->
            skip_tag (String.length (u +++ serialize_attrs a +++ ">" +++ w))
                     (u +++ serialize_attrs a +++ ">" +++ w) = w).
  { intros u w U G Q.
    replace (String.length (u +++ serialize_attrs a +++ ">" +++ w))
      with (String.length u + (String.length (serialize_attrs a) + S (String.length w)))
      by (rewrite !length_append; cbn [String.length]; lia).
    rewrite (skip_plain u _ _ G Q). exact (skip_attrs a _ w P). }
  assert (K4 : forall c1 c2 c3 c4 w,
            let u := String c1 (String c2 (String c3 (String c4 EmptyString))) in
            has_char ">" u = false -> has_char DQUOTE u = false ->
            skip_tag (String.length (String c1 (String c2 (String c3 (String c4
                        (serialize_attrs a +++ String ">" w))))))
                     (String c1 (String c2 (String c3 (String c4
                        (serialize_attrs a +++ String ">" w))))) = w).
  { intros c1 c2 c3 c4 w u G Q. exact (K u w eq_refl G Q). }
  assert (T4 : forall c1 c2 c3 c4 w,
            Ascii.eqb c1 ">" || is_ascii_whitespace c1 = false ->
            Ascii.eqb c2 ">" || is_ascii_whitespace c2 = false ->
            Ascii.eqb c3 ">" || is_ascii_whitespace c3 = false ->
            Ascii.eqb c4 ">" || is_ascii_whitespace c4 = false ->
            tag_name (String c1 (String c2 (String c3 (String c4
                        (serialize_attrs a +++ String ">" w)))))
            = String c1 (String c2 (String c3 (String c4 EmptyString)))).
  { intros c1 c2 c3 c4 w H1 H2 H3 H4. cbn [tag_name].
    rewrite H1, H2, H3, H4, tag_name_attrs. reflexivity. }
  spell t H; rewrite F by reflexivity;
    cbn [append balanced_from];
    rewrite T4 by reflexivity;
    rewrite K4 by reflexivity;
    cbn [mem_string void_elements String.eqb Ascii.eqb Bool.eqb orb];
    rewrite (balanced_text e _ _ _ (escape_text_no_tag x));
    reflexivity.
Qed.

End SpanFacts.

(* ================================================================== *)
(** * The range parser: claims C1 and C5 *)
(* ================================================================== *)

(** C1 (as amended): for every input and every maximum that is not a
    finite number above 2^53 - 1 or infinity, [parseCodeHighlightRanges]
    returns (within [loop_tests] tests of its loop condition), and the set
    it returns has the members of the reference algorithm of section 4.1
    (split on commas; a token that is a number within [1, max] is added;
    otherwise the trimmed token is split on hyphens into exactly two parts
    that must both be numbers within [1, max] with lower <= upper), where a
    pair of bounds stands for lower, lower + 1, (lower + 1) + 1, ..., each
    sum rounded to a double, as long as the value does not exceed upper.
    For an integer lower bound these are the integers of [lower, upper].
    The two examples of the specification hold. *)
Theorem C1_parser_refines_reference :
  (forall raw max,
      RangeSpec.safe max = true ->
      exists result,
        (forall fuel,
            RangeParser.loop_tests max <= fuel ->
            RangeParser.parseCodeHighlightRanges fuel raw max = Some result)
        /\ forall x,
             JSSet.has x result
             = JSSet.has x (RangeSpec.parseRanges RangeSpec.steps_between raw max))
  /\ (forall (lower : Z) (upper : Q),
         (1 <= lower)%Z ->
         (upper <= inject_Z (2 ^ 53 - 1))%Q ->
         RangeSpec.steps_between (JSNumber.Fin (inject_Z lower)) (JSNumber.Fin upper)
         = RangeSpec.integers_between (JSNumber.Fin (inject_Z lower)) (JSNumber.Fin upper))
  /\ RangeParser.parseCodeHighlightRanges
       (RangeParser.loop_tests (JSNumber.Fin 100%Q))
       (Some (CodeUnits.units "13,24-26,25-27")) (JSNumber.Fin 100%Q)
     = Some [JSNumber.Fin 13%Q; JSNumber.Fin 24%Q; JSNumber.Fin 25%Q;
             JSNumber.Fin 26%Q; JSNumber.Fin 27%Q]
  /\ RangeParser.parseCodeHighlightRanges
       (RangeParser.loop_tests (JSNumber.Fin 10%Q))
       (Some (CodeUnits.units "3-1")) (JSNumber.Fin 10%Q)
     = Some [].
Proof.
  split; [exact RangeFacts.parse_spec|].
  split; [exact RangeFacts.steps_between_integers|].
  split; vm_compute; reflexivity.
Qed.

(** C1, witness: the range "2-4" with maximum 10. *)
Lemma C1_parser_refines_reference_witness :
  RangeSpec.safe (JSNumber.Fin 10%Q) = true
  /\ (1 <= 2)%Z /\ (4 <= inject_Z (2 ^ 53 - 1))%Q
  /\ (exists result,
         (forall fuel,
             RangeParser.loop_tests (JSNumber.Fin 10%Q) <= fuel ->
             RangeParser.parseCodeHighlightRanges
               fuel (Some (CodeUnits.units "2-4")) (JSNumber.Fin 10%Q) = Some result)
         /\ forall x,
              JSSet.has x result
              = JSSet.has x (RangeSpec.parseRanges RangeSpec.steps_between
                               (Some (CodeUnits.units "2-4")) (JSNumber.Fin 10%Q)))
  /\ RangeSpec.steps_between (JSNumber.Fin (inject_Z 2)) (JSNumber.Fin 4%Q)
     = RangeSpec.integers_between (JSNumber.Fin (inject_Z 2)) (JSNumber.Fin 4%Q).
Proof.
  assert (S : RangeSpec.safe (JSNumber.Fin 10%Q) = true) by reflexivity.
  assert (L : (1 <= 2)%Z) by lia.
  assert (U : (4 <= inject_Z (2 ^ 53 - 1))%Q) by (vm_compute; discriminate).
  split; [exact S|]. split; [exact L|]. split; [exact U|]. split.
  - exact (proj1 C1_parser_refines_reference
                 (Some (CodeUnits.units "2-4")) (JSNumber.Fin 10%Q) S).
  - exact (proj1 (proj2 C1_parser_refines_reference) 2%Z 4%Q L U).
Defined.

(** C1, counterexample: with the bounds "1.5-3" the code adds 1.5 and 2.5,
    whereas the integers of [1.5, 3] are 2 and 3.  And the function does
    not return for every maximum: with the maximum 2^53 + 2 both bounds of
    "9007199254740992-9007199254740993" are the double 2^53, which [++i]
    leaves as it is, and with the maximum infinity the loop over
    "1-Infinity" has no end either; however many tests of the loop
    condition are allowed, the loop is still running. *)
Lemma C1_fractional_lower_bound :
  RangeParser.parseCodeHighlightRanges
    (RangeParser.loop_tests (JSNumber.Fin 10%Q))
    (Some (CodeUnits.units "1.5-3")) (JSNumber.Fin 10%Q)
  = Some [JSNumber.Fin (3 # 2)%Q; JSNumber.Fin (5 # 2)%Q]
  /\ RangeSpec.parseRanges RangeSpec.integers_between
       (Some (CodeUnits.units "1.5-3")) (JSNumber.Fin 10%Q)
     = [JSNumber.Fin 2%Q; JSNumber.Fin 3%Q]
  /\ (forall fuel,
         RangeParser.parseCodeHighlightRanges
           fuel (Some (CodeUnits.units "9007199254740992-9007199254740993"))
           (JSNumber.Fin (inject_Z (2 ^ 53 + 2)))
         = None)
  /\ (forall fuel,
         RangeParser.parseCodeHighlightRanges
           fuel (Some (CodeUnits.units "1-Infinity")) (JSNumber.Inf false)
         = None).
Proof.
  split; [vm_compute; reflexivity|].
  split; [vm_compute; reflexivity|].
  split.
  - intro fuel.
    rewrite (RangeFacts.parse_one_range fuel
               (CodeUnits.units "9007199254740992-9007199254740993")
               (JSNumber.Fin (inject_Z (2 ^ 53 + 2)))
               (CodeUnits.units "9007199254740992")
               (CodeUnits.units "9007199254740993"));
      [|vm_compute; reflexivity..].
    rewrite RangeFacts.addRange_stuck; [reflexivity| |]; vm_compute; reflexivity.
  - intro fuel.
    rewrite (RangeFacts.parse_one_range fuel
               (CodeUnits.units "1-Infinity") (JSNumber.Inf false)
               (CodeUnits.units "1") (CodeUnits.units "Infinity"));
      [|vm_compute; reflexivity..].
    replace (JSNumber.ToNumber (CodeUnits.units "Infinity")) with (JSNumber.Inf false)
      by (vm_compute; reflexivity).
    rewrite RangeFacts.addRange_unbounded; [reflexivity|].
    vm_compute. reflexivity.
Qed.

(** C5: whatever the input and the maximum, every member of a set that
    [parseCodeHighlightRanges] returns is a number within
    [1, maxLineNumber]; the function raises nothing, and it returns for
    every maximum that is not a finite number above 2^53 - 1 or infinity; a
    token that is neither a number within the bounds nor a pair of such
    numbers in order leaves the set as it is; and
    [parseCodeHighlightRanges("0,5,200", 10)] is {5}. *)
Theorem C5_members_within_bounds :
  (forall fuel raw max result x,
      RangeParser.parseCodeHighlightRanges fuel raw max = Some result ->
      In x result ->
      JSNumber.isNaN x = false
      /\ JSNumber.num_le (JSNumber.Fin 1%Q) x = true
      /\ JSNumber.num_le x max = true)
  /\ (forall raw max,
         RangeSpec.safe max = true ->
         exists result,
           RangeParser.parseCodeHighlightRanges (RangeParser.loop_tests max) raw max
           = Some result)
  /\ (forall fuel max set token,
         RangeParser.isNumWithinInclusiveRange
           (JSNumber.ToNumber token) (JSNumber.Fin 1%Q) max = false ->
         (forall a b,
             CodeUnits.split RangeParser.HYPHEN (CodeUnits.trim token) = [a; b] ->
             RangeParser.isNumWithinInclusiveRange
               (JSNumber.ToNumber a) (JSNumber.Fin 1%Q) max
             && RangeParser.isNumWithinInclusiveRange
                  (JSNumber.ToNumber b) (JSNumber.Fin 1%Q) max
             && JSNumber.num_le (JSNumber.ToNumber a) (JSNumber.ToNumber b) = false) ->
         RangeParser.parseRange fuel max set token = Some set)
  /\ RangeParser.parseCodeHighlightRanges
       (RangeParser.loop_tests (JSNumber.Fin 10%Q))
       (Some (CodeUnits.units "0,5,200")) (JSNumber.Fin 10%Q)
     = Some [JSNumber.Fin 5%Q].
Proof.
  split.
  { intros fuel raw max result x E I.
    assert (W := RangeFacts.parse_within fuel raw max result E x I).
    apply RangeFacts.within_spec in W. destruct W as [L U].
    split; [|split; assumption]. destruct x; [discriminate|reflexivity|reflexivity]. }
  split.
  { intros raw max S. destruct (RangeFacts.parse_spec raw max S) as (r & E & _).
    exists r. apply E. apply le_n. }
  split.
  { intros fuel max set token W G. apply RangeFacts.parseRange_nothing.
    - rewrite <- RangeFacts.isNumWithinInclusiveRange_within. exact W.
    - intros a b S. rewrite <- !RangeFacts.isNumWithinInclusiveRange_within. auto. }
  vm_compute. reflexivity.
Qed.

(** C5, witness: the parse of "0,5,200" with maximum 10, its member 5,
    and the token "200". *)
Lemma C5_members_within_bounds_witness :
  RangeParser.parseCodeHighlightRanges
    (RangeParser.loop_tests (JSNumber.Fin 10%Q))
    (Some (CodeUnits.units "0,5,200")) (JSNumber.Fin 10%Q)
  = Some [JSNumber.Fin 5%Q]
  /\ In (JSNumber.Fin 5%Q) [JSNumber.Fin 5%Q]
  /\ RangeSpec.safe (JSNumber.Fin 10%Q) = true
  /\ (JSNumber.isNaN (JSNumber.Fin 5%Q) = false
      /\ JSNumber.num_le (JSNumber.Fin 1%Q) (JSNumber.Fin 5%Q) = true
      /\ JSNumber.num_le (JSNumber.Fin 5%Q) (JSNumber.Fin 10%Q) = true)
  /\ (exists result,
         RangeParser.parseCodeHighlightRanges
           (RangeParser.loop_tests (JSNumber.Fin 10%Q))
           (Some (CodeUnits.units "0,5,200")) (JSNumber.Fin 10%Q)
         = Some result)
  /\ RangeParser.parseRange 5 (JSNumber.Fin 10%Q) [JSNumber.Fin 5%Q]
       (CodeUnits.units "200")
     = Some [JSNumber.Fin 5%Q].
Proof.
  assert (E : RangeParser.parseCodeHighlightRanges
                (RangeParser.loop_tests (JSNumber.Fin 10%Q))
                (Some (CodeUnits.units "0,5,200")) (JSNumber.Fin 10%Q)
              = Some [JSNumber.Fin 5%Q]) by (vm_compute; reflexivity).
  assert (I : In (JSNumber.Fin 5%Q) [JSNumber.Fin 5%Q]) by (left; reflexivity).
  assert (S : RangeSpec.safe (JSNumber.Fin 10%Q) = true) by reflexivity.
  split; [exact E|]. split; [exact I|]. split; [exact S|]. split.
  { exact (proj1 C5_members_within_bounds _ _ _ _ _ E I). }
  split.
  { exact (proj1 (proj2 C5_members_within_bounds)
                 (Some (CodeUnits.units "0,5,200")) (JSNumber.Fin 10%Q) S). }
  apply (proj1 (proj2 (proj2 C5_members_within_bounds))).
  - vm_compute. reflexivity.
  - intros a b Sp. vm_compute in Sp. discriminate.
Defined.

(* ================================================================== *)
(** * The content extractor: claims C2 and C10 *)
(* ================================================================== *)

(** C2 (as amended): the node [getCodeblockContents] serialises is the code
    element with every child replaced by its contribution: for a [span]
    child, a shallow clone (same tag and attributes) around each non-empty
    line of its text, with a line-feed text node between neighbouring lines;
    for a child that is not an element, the child itself.  The clones of a
    span carry its whole text.  Consequently, for every code element whose
    only child is a span, whatever the spelling of its tag name and
    whatever its attributes as long as none of them holds a line feed, with
    three non-empty lines of text (such as "a\nb\nc"), the extracted content
    has exactly three lines, each the markup of the same span around one
    line of the text; and each of them has balanced tags when no attribute
    name holds a [>] or a double quote. *)
Theorem C2_span_children_split_per_line :
  (forall t a cs,
      Extractor.codeblockResultNode (DOM.Element t a cs)
      = DOM.Element t a (flat_map ExtractorSpec.contribution cs))
  /\ (forall t a cs,
         String.eqb (JSString.toUpperCase t) "SPAN" = true ->
         ExtractorSpec.textOf (ExtractorSpec.contribution (DOM.Element t a cs))
         = DOM.textContent (DOM.Element t a cs))
  /\ (forall child,
         DOM.isElement child = false ->
         ExtractorSpec.contribution child = [DOM.cloneNode true child])
  /\ (forall codeTag codeAttrs t a x y z,
         String.eqb (JSString.toUpperCase t) "SPAN" = true ->
         ExtractorSpec.one_line_attrs a = true ->
         JSString.has_char DOM.LF x = false ->
         JSString.has_char DOM.LF y = false ->
         JSString.has_char DOM.LF z = false ->
         JSString.is_empty x = false ->
         JSString.is_empty y = false ->
         JSString.is_empty z = false ->
         let text := x +++ String DOM.LF (y +++ String DOM.LF z) in
         let code := DOM.Element codeTag codeAttrs [DOM.Element t a [DOM.Text text]] in
         Renderer.contentLines (Extractor.getCodeblockContents code)
         = map DOM.outerHTML [DOM.Element t a [DOM.Text x];
                              DOM.Element t a [DOM.Text y];
                              DOM.Element t a [DOM.Text z]]
         /\ (forallb ExtractorSpec.plain_name (map fst a) = true ->
             forallb ExtractorSpec.tags_balanced
                     (Renderer.contentLines (Extractor.getCodeblockContents code))
             = true)).
Proof.
  split; [exact ExtractorFacts.resultNode_contributions|].
  split; [exact ExtractorFacts.textOf_contribution_span|].
  split; [exact ExtractorFacts.contribution_non_element|].
  intros codeTag codeAttrs t a x y z H A X Y Z Ex Ey Ez text code.
  assert (L := SpanFacts.three_lines codeTag codeAttrs t a x y z H A X Y Z Ex Ey Ez).
  fold text in L. fold code in L.
  split; [exact L|].
  intro P. rewrite L. cbn [map forallb].
  rewrite !(SpanFacts.span_html_balanced t a _ H P). reflexivity.
Qed.

(** C2, witness: a code element whose only child is a span with a class
    and the text "a\nb\nc"; a text node beside it. *)
Lemma C2_span_children_split_per_line_witness :
  let abc := "a" +++ DOM.NEWLINE +++ "b" +++ DOM.NEWLINE +++ "c" in
  let code := DOM.Element "code" [] [ExampleHost.span "k" abc] in
  (String.eqb (JSString.toUpperCase "span") "SPAN" = true
   /\ ExtractorSpec.one_line_attrs [("class", "k")] = true
   /\ forallb ExtractorSpec.plain_name (map fst [("class", "k")]) = true)
  /\ ExtractorSpec.textOf (ExtractorSpec.contribution (ExampleHost.span "k" abc))
     = DOM.textContent (ExampleHost.span "k" abc)
  /\ (DOM.isElement (DOM.Text "x") = false
      /\ ExtractorSpec.contribution (DOM.Text "x") = [DOM.Text "x"])
  /\ Renderer.contentLines (Extractor.getCodeblockContents code)
     = map DOM.outerHTML [ExampleHost.span "k" "a"; ExampleHost.span "k" "b";
                          ExampleHost.span "k" "c"]
  /\ forallb ExtractorSpec.tags_balanced
             (Renderer.contentLines (Extractor.getCodeblockContents code)) = true.
Proof.
  pose proof C2_span_children_split_per_line as (_ & T2 & T3 & T4).
  pose proof (T4 "code" [] "span" [("class", "k")] "a" "b" "c"
                 eq_refl eq_refl eq_refl eq_refl eq_refl eq_refl eq_refl eq_refl)
    as (L & B).
  split; [repeat split|].
  split; [exact (T2 "span" [("class", "k")] _ eq_refl)|].
  split; [split; [reflexivity | exact (T3 (DOM.Text "x") eq_refl)]|].
  split; [exact L | exact (B eq_refl)].
Defined.

(** C2, counterexample: an inline element that is not a span, here [em]
    with text "a\nb\nc" as the only child, is not split into three lines:
    the extracted content is empty and no line is left. *)
Lemma C2_inline_element_other_than_span :
  let abc := "a" +++ DOM.NEWLINE +++ "b" +++ DOM.NEWLINE +++ "c" in
  let code := DOM.Element "code" [] [DOM.Element "em" [] [DOM.Text abc]] in
  Extractor.getCodeblockContents code = EmptyString
  /\ Renderer.contentLines (Extractor.getCodeblockContents code) = [].
Proof. split; vm_compute; reflexivity. Qed.

(** C10: a child of the code element that is an element but not a span
    contributes nothing: the result node and the extracted HTML are those of
    the code element without that child.  A child that is not an element is
    carried over as it is. *)
Theorem C10_other_elements_contribute_nothing :
  (forall t a before child after,
      DOM.isElement child = true ->
      DOM.tagName_is child "SPAN" = false ->
      Extractor.codeblockResultNode (DOM.Element t a (before ++ child :: after))
      = Extractor.codeblockResultNode (DOM.Element t a (before ++ after))
      /\ Extractor.getCodeblockContents (DOM.Element t a (before ++ child :: after))
         = Extractor.getCodeblockContents (DOM.Element t a (before ++ after)))
  /\ (forall t a before child after,
         DOM.isElement child = false ->
         Extractor.codeblockResultNode (DOM.Element t a (before ++ child :: after))
         = DOM.Element t a
             (flat_map ExtractorSpec.contribution before
              ++ child :: flat_map ExtractorSpec.contribution after)).
Proof.
  split.
  - intros t a before child after El Sp.
    assert (E : Extractor.codeblockResultNode (DOM.Element t a (before ++ child :: after))
                = Extractor.codeblockResultNode (DOM.Element t a (before ++ after))).
    { rewrite !ExtractorFacts.resultNode_contributions, !flat_map_app. simpl.
      rewrite (ExtractorFacts.contribution_other_element child El Sp). reflexivity. }
    split; [exact E|]. unfold Extractor.getCodeblockContents. rewrite E. reflexivity.
  - intros t a before child after El.
    rewrite ExtractorFacts.resultNode_contributions, flat_map_app. simpl.
    rewrite (ExtractorFacts.contribution_non_element child El).
    destruct child; try discriminate; reflexivity.
Qed.

(** C10, witness: an [em] between a span and a text node. *)
Lemma C10_other_elements_contribute_nothing_witness :
  let em := DOM.Element "em" [] [DOM.Text "x"] in
  DOM.isElement em = true /\ DOM.tagName_is em "SPAN" = false
  /\ Extractor.getCodeblockContents
       (DOM.Element "code" [] ([ExampleHost.span "c" "a"] ++ em :: [DOM.Text "b"]))
     = Extractor.getCodeblockContents
         (DOM.Element "code" [] ([ExampleHost.span "c" "a"] ++ [DOM.Text "b"])).
Proof.
  split; [reflexivity|]. split; [reflexivity|].
  exact (proj2 (proj1 C10_other_elements_contribute_nothing
                      "code" [] [ExampleHost.span "c" "a"]
                      (DOM.Element "em" [] [DOM.Text "x"]) [DOM.Text "b"]
                      eq_refl eq_refl)).
Defined.

(* ================================================================== *)
(** * The copy controller: claim C4 *)
(* ================================================================== *)

(** C4: what copying with the console extractor does.  A line that holds
    an output marker ([go]) gives nothing.  A line that starts with a
    prompt gives the rendered text of the selection-scoped wrapper
    [createCodeBlockLine] builds after the leading prompt and white-space
    spans.  A line of a console block that does not start with a prompt
    and holds no output marker has no wrapper: its content cell carries
    the line identifier itself, the extractor looks for the identifier
    below the cell, finds nothing, and the line is left out of the copy.
    For the lines "$ ls", "file.txt" (output) and "$ pwd" the text copied
    is "ls\npwd"; for a command continued on a second line, "$ ls \",
    "  -la", "$ pwd", the text copied has the two lines "ls \" and "pwd",
    without the line "  -la", which the default extractor copies. *)
Theorem C4_console_copy_drops_lines_without_prompt :
  (forall (H : Collaborators.Host) line lineNumber codeblock,
      DOM.querySelector line (DOM.ByClass "go") <> None ->
      Copy.CONSOLE_COPY_LINES_MAP_FN line lineNumber codeblock = None)
  /\ (forall (H : Collaborators.Host) (o : Renderer.LineOptions) first rest codeblock,
         Renderer.language_is_console (Renderer.line_language o) = true ->
         Collaborators.parseFragment (Renderer.line_html o) = first :: rest ->
         DOM.tagName_is first "SPAN" && DOM.classList_contains first "gp" = true ->
         let cs := first :: rest in
         let LC_ID := Renderer.line_codeblockId o +++ "-LC"
                      +++ JSString.nat_toString (Renderer.lineNumber o) in
         forallb (DOM.every_element
                    (fun e => negb (DOM.matches (DOM.ByClass "go") e))) cs = true ->
         forallb (DOM.every_element
                    (fun e => negb (DOM.matches (DOM.ById LC_ID) e)))
                 (firstn (Renderer.excludedPrefix cs) cs) = true ->
         DOM.id codeblock = Renderer.line_codeblockId o ->
         exists cell,
           Renderer.contentCell (Renderer.createCodeBlockLine o) = Some cell
           /\ Copy.CONSOLE_COPY_LINES_MAP_FN cell (Renderer.lineNumber o) codeblock
              = Some (Collaborators.innerText
                        (DOM.Element "span" [("id", LC_ID)]
                                     (skipn (Renderer.excludedPrefix cs) cs))))
  /\ (forall (H : Collaborators.Host) (o : Renderer.LineOptions) codeblock,
         Renderer.language_is_console (Renderer.line_language o) = true ->
         let cs := Collaborators.parseFragment (Renderer.line_html o) in
         let LC_ID := Renderer.line_codeblockId o +++ "-LC"
                      +++ JSString.nat_toString (Renderer.lineNumber o) in
         Renderer.startsWithPrompt cs = false ->
         forallb (DOM.every_element
                    (fun e => negb (DOM.matches (DOM.ByClass "go") e))) cs = true ->
         forallb (DOM.every_element
                    (fun e => negb (DOM.matches (DOM.ById LC_ID) e))) cs = true ->
         DOM.id codeblock = Renderer.line_codeblockId o ->
         exists cell,
           Renderer.contentCell (Renderer.createCodeBlockLine o) = Some cell
           /\ DOM.getAttribute cell "id" = Some LC_ID
           /\ DOM.childNodes cell = cs
           /\ Copy.CONSOLE_COPY_LINES_MAP_FN cell (Renderer.lineNumber o) codeblock
              = None)
  /\ option_map
       (fun block =>
          Copy.copyLines block (@Copy.CONSOLE_COPY_LINES_MAP_FN ExampleHost.host))
       ExampleHost.renderedConsoleBlock
     = Some ("ls" +++ DOM.NEWLINE +++ "pwd")
  /\ option_map
       (fun block =>
          Copy.copyLines block (@Copy.CONSOLE_COPY_LINES_MAP_FN ExampleHost.host))
       ExampleHost.renderedContinuedBlock
     = Some ("ls \" +++ DOM.NEWLINE +++ "pwd")
  /\ option_map
       (fun block =>
          Copy.copyLines block (@Copy.DEFAULT_COPY_LINES_MAP_FN ExampleHost.host))
       ExampleHost.renderedContinuedBlock
     = Some ("$ ls \" +++ DOM.NEWLINE +++ "  -la" +++ DOM.NEWLINE +++ "$ pwd").
Proof.
  split; [exact @CopyFacts.console_output_line|].
  split; [exact @CopyFacts.console_prompt_line|].
  split; [exact @CopyFacts.console_bare_line|].
  split; [vm_compute; reflexivity|].
  split; vm_compute; reflexivity.
Qed.

(** C4, witness: the three kinds of line of a console block with the
    identifier [primer-spec-code-block-0]: a line of output, the line
    "$ pwd" with its prompt, and the line "  -la" without one. *)
Lemma C4_console_copy_witness :
  let block := DOM.Element "div" [("id", "primer-spec-code-block-0")] [] in
  let output := DOM.Element "td" [] [ExampleHost.span "go" "file.txt"] in
  let options := fun html number =>
    {| Renderer.line_codeblockId := "primer-spec-code-block-0";
       Renderer.line_language := Some "console";
       Renderer.line_html := html;
       Renderer.lineNumber := number;
       Renderer.shouldHighlight := false;
       Renderer.line_showLineNumbers := true |} in
  let prompt := DOM.outerHTML (ExampleHost.span "gp" "$")
                +++ DOM.outerHTML (ExampleHost.span "w" " ") +++ "pwd" in
  (DOM.querySelector output (DOM.ByClass "go") <> None
   /\ @Copy.CONSOLE_COPY_LINES_MAP_FN ExampleHost.host output 2 block = None)
  /\ (@Collaborators.parseFragment ExampleHost.host prompt
      = [ExampleHost.span "gp" "$"; ExampleHost.span "w" " "; DOM.Text "pwd"]
      /\ exists cell,
           @Renderer.contentCell (@Renderer.createCodeBlockLine ExampleHost.host
                                    (options prompt 3)) = Some cell
           /\ @Copy.CONSOLE_COPY_LINES_MAP_FN ExampleHost.host cell 3 block
              = Some "pwd")
  /\ (@Collaborators.parseFragment ExampleHost.host "  -la" = [DOM.Text "  -la"]
      /\ Renderer.startsWithPrompt [DOM.Text "  -la"] = false
      /\ exists cell,
           @Renderer.contentCell (@Renderer.createCodeBlockLine ExampleHost.host
                                    (options "  -la" 2)) = Some cell
           /\ DOM.getAttribute cell "id" = Some "primer-spec-code-block-0-LC2"
           /\ DOM.childNodes cell = [DOM.Text "  -la"]
           /\ @Copy.CONSOLE_COPY_LINES_MAP_FN ExampleHost.host cell 2 block = None).
Proof.
  intros block output options prompt.
  pose proof C4_console_copy_drops_lines_without_prompt as (T1 & T2 & T3 & _).
  assert (Q : DOM.querySelector output (DOM.ByClass "go") <> None)
    by (vm_compute; discriminate).
  split; [split; [exact Q | exact (T1 ExampleHost.host output 2 block Q)]|].
  split.
  - split; [vm_compute; reflexivity|].
    exact (T2 ExampleHost.host (options prompt 3)
              (ExampleHost.span "gp" "$")
              [ExampleHost.span "w" " "; DOM.Text "pwd"] block
              eq_refl eq_refl eq_refl eq_refl eq_refl eq_refl).
  - split; [vm_compute; reflexivity|]. split; [reflexivity|].
    exact (T3 ExampleHost.host (options "  -la" 2) block
              eq_refl eq_refl eq_refl eq_refl eq_refl).
Defined.

(* ================================================================== *)
(** * The selection controller: claims C6 and C7 *)
(* ================================================================== *)

(** C6: [selectLines(id, a, b)] and [selectLines(id, b, a)] leave the
    browser in the same state; when both content cells are found, the cell
    of the lower line does not come after the end of the cell of the higher
    line and the document has a selection, the selection becomes the one
    range from the start of the content cell of the lower line to the end of
    the content cell of the higher line. *)
Theorem C6_selectLines_ignores_direction :
  (forall codeblockId a b br,
      Selection.selectLines codeblockId a b br
      = Selection.selectLines codeblockId b a br)
  /\ (forall codeblockId a b br ps ns pe ne,
         DOM.getElementById (Selection.document br)
           (Selection.contentCellId codeblockId (Z.min a b)) = Some (ps, ns) ->
         DOM.getElementById (Selection.document br)
           (Selection.contentCellId codeblockId (Z.max a b)) = Some (pe, ne) ->
         Selection.point_before (pe, List.length (DOM.childNodes ne)) (ps, 0) = false ->
         Selection.selectionAvailable br = true ->
         Selection.ranges (Selection.selectLines codeblockId a b br)
         = [{| Selection.startContainer := ps; Selection.startOffset := 0;
               Selection.endContainer := pe;
               Selection.endOffset := List.length (DOM.childNodes ne) |}]).
Proof.
  split.
  - intros codeblockId a b br.
    rewrite !SelectionFacts.selectLines_ordered, Z.min_comm, Z.max_comm. reflexivity.
  - intros codeblockId a b br ps ns pe ne S E O A.
    rewrite SelectionFacts.selectLines_ordered,
      (SelectionFacts.selectOrdered_found _ _ _ _ _ _ _ _ S E),
      (SelectionFacts.range_in_order _ _ _ O).
    apply SelectionFacts.replaced_selection. exact A.
Qed.

(** C6, witness: lines 2 and 1 of the first block of the rendered example
    page, given bottom-up. *)
Lemma C6_selectLines_ignores_direction_witness :
  exists ps ns pe ne,
    DOM.getElementById (Selection.document ExampleHost.exampleBrowser)
      (Selection.contentCellId "primer-spec-code-block-0" (Z.min 2 1)) = Some (ps, ns)
    /\ DOM.getElementById (Selection.document ExampleHost.exampleBrowser)
         (Selection.contentCellId "primer-spec-code-block-0" (Z.max 2 1)) = Some (pe, ne)
    /\ Selection.point_before (pe, List.length (DOM.childNodes ne)) (ps, 0) = false
    /\ DOM.precedes ps pe = true
    /\ Selection.ranges
         (Selection.selectLines "primer-spec-code-block-0" 2 1 ExampleHost.exampleBrowser)
       = [{| Selection.startContainer := ps; Selection.startOffset := 0;
             Selection.endContainer := pe;
             Selection.endOffset := List.length (DOM.childNodes ne) |}].
Proof.
  destruct (DOM.getElementById (Selection.document ExampleHost.exampleBrowser)
              (Selection.contentCellId "primer-spec-code-block-0" (Z.min 2 1)))
    as [[ps ns]|] eqn:S; [|vm_compute in S; discriminate].
  destruct (DOM.getElementById (Selection.document ExampleHost.exampleBrowser)
              (Selection.contentCellId "primer-spec-code-block-0" (Z.max 2 1)))
    as [[pe ne]|] eqn:E; [|vm_compute in E; discriminate].
  assert (O : Selection.point_before (pe, List.length (DOM.childNodes ne)) (ps, 0) = false).
  { vm_compute in S, E. inversion S; inversion E; subst. reflexivity. }
  exists ps, ns, pe, ne. split; [reflexivity|]. split; [reflexivity|].
  split; [exact O|]. split.
  - vm_compute in S, E. inversion S; inversion E; subst. reflexivity.
  - exact (proj2 C6_selectLines_ignores_direction
                 "primer-spec-code-block-0" 2%Z 1%Z ExampleHost.exampleBrowser ps ns pe ne
                 S E O eq_refl).
Defined.

(** C7: when the content cell of the first or of the last line of the range
    cannot be found, [selectLines] writes its error to the console and
    changes nothing else: the ranges of the selection and the document are
    those before the call.  So the selection changes only when both cells
    were found. *)
Theorem C7_selectLines_aborts_when_cell_missing :
  (forall codeblockId a b br,
      DOM.getElementById (Selection.document br)
        (Selection.contentCellId codeblockId (Z.min a b)) = None
      \/ DOM.getElementById (Selection.document br)
           (Selection.contentCellId codeblockId (Z.max a b)) = None ->
      Selection.ranges (Selection.selectLines codeblockId a b br) = Selection.ranges br
      /\ Selection.document (Selection.selectLines codeblockId a b br)
         = Selection.document br
      /\ Selection.console (Selection.selectLines codeblockId a b br)
         = Selection.console br ++ [Selection.SELECT_ERROR])
  /\ (forall codeblockId a b br,
         Selection.ranges (Selection.selectLines codeblockId a b br)
         <> Selection.ranges br ->
         exists ps ns pe ne,
           DOM.getElementById (Selection.document br)
             (Selection.contentCellId codeblockId (Z.min a b)) = Some (ps, ns)
           /\ DOM.getElementById (Selection.document br)
                (Selection.contentCellId codeblockId (Z.max a b)) = Some (pe, ne)).
Proof.
  assert (Missing : forall codeblockId a b br,
      DOM.getElementById (Selection.document br)
        (Selection.contentCellId codeblockId (Z.min a b)) = None
      \/ DOM.getElementById (Selection.document br)
           (Selection.contentCellId codeblockId (Z.max a b)) = None ->
      Selection.selectLines codeblockId a b br
      = Selection.console_error Selection.SELECT_ERROR br).
  { intros codeblockId a b br M.
    rewrite SelectionFacts.selectLines_ordered.
    apply SelectionFacts.selectOrdered_missing. exact M. }
  split.
  - intros codeblockId a b br M. rewrite (Missing _ _ _ _ M). auto.
  - intros codeblockId a b br Changed.
    destruct (DOM.getElementById (Selection.document br)
                (Selection.contentCellId codeblockId (Z.min a b)))
      as [[ps ns]|] eqn:S.
    + destruct (DOM.getElementById (Selection.document br)
                  (Selection.contentCellId codeblockId (Z.max a b)))
        as [[pe ne]|] eqn:E.
      * exists ps, ns, pe, ne. auto.
      * exfalso. apply Changed. rewrite (Missing _ _ _ _ (or_intror E)). reflexivity.
    + exfalso. apply Changed. rewrite (Missing _ _ _ _ (or_introl S)). reflexivity.
Qed.

(** C7, witness: line 9 does not exist in the first block of the rendered
    example page; the selection that was there stays. *)
Lemma C7_selectLines_aborts_witness :
  DOM.getElementById (Selection.document ExampleHost.exampleBrowser)
    (Selection.contentCellId "primer-spec-code-block-0" (Z.max 1 9)) = None
  /\ Selection.ranges
       (Selection.selectLines "primer-spec-code-block-0" 1 9 ExampleHost.exampleBrowser)
     = Selection.ranges ExampleHost.exampleBrowser.
Proof.
  assert (E : DOM.getElementById (Selection.document ExampleHost.exampleBrowser)
                (Selection.contentCellId "primer-spec-code-block-0" (Z.max 1 9)) = None)
    by (vm_compute; reflexivity).
  split; [exact E|].
  exact (proj1 (proj1 C7_selectLines_aborts_when_cell_missing
                      "primer-spec-code-block-0" 1%Z 9%Z ExampleHost.exampleBrowser
                      (or_intror E))).
Defined.

(* ================================================================== *)
(** * The block assembly: claim C9 *)
(* ================================================================== *)

(** C9, the code at the failing input: [createEnhancedCodeBlock] never
    returns [null] and never warns, because a split has at least one piece
    and the guard on the number of lines comes before the last, empty line
    is dropped.  An empty [pre] is replaced by an enhanced block whose table
    has no row. *)
Theorem C9_block_without_lines_is_enhanced :
  (forall (H : Collaborators.Host) (o : Renderer.BlockOptions),
      exists block, Renderer.createEnhancedCodeBlock o = ([], Some block))
  /\ (forall sep s, JSString.split sep s <> [])
  /\ Renderer.contentLines EmptyString = []
  /\ map Orchestrator.visit_outcome (Orchestrator.page_visits ExampleHost.emptyBlockPage)
     = [Orchestrator.Enhanced]
  /\ Orchestrator.page_console ExampleHost.emptyBlockPage = []
  /\ option_map (fun found => Renderer.tableRows (snd found))
       (DOM.getElementById (Orchestrator.main ExampleHost.emptyBlockPage) "primer-spec-code-block-0")
     = Some []
  /\ DOM.querySelectorAll (Orchestrator.main ExampleHost.emptyBlockPage) Orchestrator.BARE = [].
Proof.
  split; [exact @RendererFacts.createEnhancedCodeBlock_some|].
  split; [exact ExtractorFacts.split_nonempty|].
  repeat split; vm_compute; reflexivity.
Qed.

(* ================================================================== *)
(** * The orchestrator: claims C8 and C3 *)
(* ================================================================== *)

(** C8, the code at the failing input: a block draws its number before
    the checks that can skip it.  On a page whose first wrapped block lacks
    the inner levels, followed by a regular wrapped block of two lines, the
    first block draws the number 0 and is skipped with a warning, the
    second draws 1 and is enhanced: the identifiers in the document after
    the run are those of block 1 and of its two lines, and no element has
    the identifier of block 0.  The identifier of a block is always the
    one derived from the number handed to [createEnhancedCodeBlock]. *)
Theorem C8_skipped_block_leaves_a_gap :
  let page :=
    @Orchestrator.enhancePage ExampleHost.host
      (Orchestrator.freshPage ExampleHost.gapPage) in
  map (fun v => (Orchestrator.visit_path v, Orchestrator.visit_id v,
                 Orchestrator.visit_outcome v))
      (Orchestrator.page_visits page)
  = [([0], Some 0, Orchestrator.Skipped); ([1], Some 1, Orchestrator.Enhanced)]
  /\ DOM.element_ids (Orchestrator.main page)
     = ["primer-spec-code-block-1";
        "primer-spec-code-block-1-LR1"; "primer-spec-code-block-1-L1";
        "primer-spec-code-block-1-LC1";
        "primer-spec-code-block-1-LR2"; "primer-spec-code-block-1-L2";
        "primer-spec-code-block-1-LC2"]
  /\ DOM.getElementById (Orchestrator.main page) "primer-spec-code-block-0" = None
  /\ Orchestrator.page_console page = [Orchestrator.MALFORMED_WARNING]
  /\ (forall (H : Collaborators.Host) (o : Renderer.BlockOptions),
         option_map DOM.id (snd (Renderer.createEnhancedCodeBlock o))
         = Some ("primer-spec-code-block-"
                 +++ JSString.nat_toString (Renderer.codeblockNumericId o))).
Proof.
  split; [vm_compute; reflexivity|].
  split; [vm_compute; reflexivity|].
  split; [vm_compute; reflexivity|].
  split; [vm_compute; reflexivity|].
  intros H o. destruct (RendererFacts.createEnhancedCodeBlock_some o) as [block B].
  rewrite B. cbn [snd option_map]. f_equal.
  eapply RendererFacts.block_id. exact B.
Qed.

(** C3, the code at the failing input: a wrapped block without the inner
    levels around a titled [pre] of two lines.  The first run skips the
    wrapped block, leaves no marker class anywhere and enhances the [pre]
    as block 1.  The second run over the resulting document visits the
    wrapped block again, finds the three levels in the enhanced markup,
    takes the header of the enhanced block for the code element and
    replaces the whole block by a new block 0 that holds the title as its
    only line: the document changes and the two lines of code are lost. *)
Theorem C3_second_run_changes_the_document :
  let first :=
    Orchestrator.main
      (@Orchestrator.enhancePage ExampleHost.host
         (Orchestrator.freshPage ExampleHost.malformedPage)) in
  let second :=
    @Orchestrator.enhancePage ExampleHost.host (Orchestrator.freshPage first) in
  Orchestrator.main second <> first
  /\ DOM.querySelectorAll first (DOM.ByClass Renderer.CODEBLOCK_PROCESSED_CLASS) = []
  /\ map (fun v => (Orchestrator.visit_path v, Orchestrator.visit_id v,
                    Orchestrator.visit_outcome v))
         (Orchestrator.page_visits second)
     = [([0], Some 0, Orchestrator.Enhanced)]
  /\ DOM.element_ids first
     = ["demo-1"; "primer-spec-code-block-1";
        "primer-spec-code-block-1-LR1"; "primer-spec-code-block-1-L1";
        "primer-spec-code-block-1-LC1";
        "primer-spec-code-block-1-LR2"; "primer-spec-code-block-1-L2";
        "primer-spec-code-block-1-LC2"]
  /\ DOM.element_ids (Orchestrator.main second)
     = ["primer-spec-code-block-0";
        "primer-spec-code-block-0-LR1"; "primer-spec-code-block-0-L1";
        "primer-spec-code-block-0-LC1"]
  /\ DOM.textContent first = "demoxy"
  /\ DOM.textContent (Orchestrator.main second) = "demo".
Proof.
  intros first second.
  assert (T1 : DOM.textContent first = "demoxy") by (vm_compute; reflexivity).
  assert (T2 : DOM.textContent (Orchestrator.main second) = "demo")
    by (vm_compute; reflexivity).
  split.
  { intro E.
    pose proof (eq_trans (eq_sym T2) (eq_trans (f_equal DOM.textContent E) T1)) as D.
    discriminate D. }
  split; [vm_compute; reflexivity|].
  split; [vm_compute; reflexivity|].
  split; [vm_compute; reflexivity|].
  split; [vm_compute; reflexivity|].
  split; assumption.
Qed.

(* ================================================================== *)
(** * Further properties of the code *)
(* ================================================================== *)

(** The visits of one run of [useEnhancedCodeBlocks]: every block that
    passes the filter is visited once, the wrapped blocks in document order
    first and then the bare [pre] blocks in document order; every visited
    block that is not retained draws the next number of one counter that
    starts at 0, so the numbers drawn are 0, 1, 2, ... without a gap,
    whether the block is then enhanced or skipped; the numbers of the
    blocks that are enhanced rise strictly in visiting order; and the root
    of a block built by [createEnhancedCodeBlock] has the identifier
    derived from the number it is given. *)
Theorem numbers_are_drawn_in_visiting_order :
  forall (H : Collaborators.Host) (mainEl : DOM.Node),
    let afterWrapped :=
      Orchestrator.main
        (fst (Orchestrator.enhanceBlocks
                (DOM.querySelectorAll mainEl Orchestrator.WRAPPED)
                Orchestrator.getCodeElFromJekyllRougeCodeblock 0
                (Orchestrator.freshPage mainEl))) in
    let wrapped :=
      Orchestrator.unprocessed mainEl
        (DOM.querySelectorAll mainEl Orchestrator.WRAPPED) in
    let bare :=
      Orchestrator.unprocessed afterWrapped
        (DOM.querySelectorAll afterWrapped Orchestrator.BARE) in
    let visits :=
      Orchestrator.page_visits
        (Orchestrator.enhancePage (Orchestrator.freshPage mainEl)) in
    map Orchestrator.visited visits = wrapped ++ bare
    /\ StronglySorted DOM.in_order wrapped
    /\ StronglySorted DOM.in_order bare
    /\ Orchestrator.drawn_ids visits
       = seq 0 (List.length (Orchestrator.drawn_ids visits))
    /\ Forall Orchestrator.visit_sound visits
    /\ StronglySorted lt (Orchestrator.ids_with Orchestrator.Enhanced visits)
    /\ (forall o : Renderer.BlockOptions,
           option_map DOM.id (snd (Renderer.createEnhancedCodeBlock o))
           = Some ("primer-spec-code-block-"
                   +++ JSString.nat_toString (Renderer.codeblockNumericId o))).
Proof.
  intros H mainEl afterWrapped wrapped bare visits.
  assert (P1 := PassFacts.enhanceBlocks_visits
                  Orchestrator.WRAPPED Orchestrator.getCodeElFromJekyllRougeCodeblock
                  0 (Orchestrator.freshPage mainEl)).
  cbv zeta in P1. cbn [Orchestrator.freshPage Orchestrator.main] in P1.
  destruct P1 as (vs1 & V1 & C1 & D1 & N1 & S1).
  unfold visits, Orchestrator.enhancePage.
  cbn [Orchestrator.freshPage Orchestrator.main] in *.
  destruct (Orchestrator.enhanceBlocks
              (DOM.querySelectorAll mainEl Orchestrator.WRAPPED)
              Orchestrator.getCodeElFromJekyllRougeCodeblock 0
              (Orchestrator.freshPage mainEl)) as [page1 n1] eqn:E1.
  cbn [fst snd] in *.
  assert (P2 := PassFacts.enhanceBlocks_visits
                  Orchestrator.BARE Orchestrator.getCodeElFromPreCodeblock n1 page1).
  cbv zeta in P2. destruct P2 as (vs2 & V2 & C2 & D2 & N2 & S2).
  rewrite V2, V1. cbn [Orchestrator.freshPage Orchestrator.page_visits app].
  assert (Drawn : Orchestrator.drawn_ids (vs1 ++ vs2)
                  = seq 0 (List.length (Orchestrator.drawn_ids (vs1 ++ vs2)))).
  { rewrite PassFacts.drawn_ids_app, length_app, seq_app, <- D1.
    f_equal. rewrite <- N1. exact D2. }
  split; [rewrite map_app, C1, C2; reflexivity|].
  split; [apply PassFacts.unprocessed_sorted|].
  split; [apply PassFacts.unprocessed_sorted|].
  split; [exact Drawn|].
  split; [apply Forall_app; split; assumption|].
  split; [exact (proj1 (PassFacts.ids_with_rising Orchestrator.Enhanced _ _ Drawn))|].
  intro o. destruct (RendererFacts.createEnhancedCodeBlock_some o) as [block B].
  rewrite B. cbn [snd option_map]. f_equal.
  eapply RendererFacts.block_id. exact B.
Qed.

(** For every number of lines an array can have (any count up to
    2^53 - 1), the range parser returns within the tests [highlightedLines]
    allows it, so the set [createEnhancedCodeBlock] works with is the one
    the parser returns, and its members are line numbers within
    [1, lineCount]. *)
Theorem highlightedLines_returns :
  forall (raw : option string) (lineCount : nat),
    (Z.of_nat lineCount <= 2 ^ 53 - 1)%Z ->
    let max := Renderer.line_number_value lineCount in
    RangeParser.parseCodeHighlightRanges
      (RangeParser.loop_tests max) (option_map CodeUnits.units raw) max
    = Some (Renderer.highlightedLines raw lineCount)
    /\ forall x, In x (Renderer.highlightedLines raw lineCount) ->
                 JSNumber.num_le (JSNumber.Fin 1%Q) x = true
                 /\ JSNumber.num_le x max = true.
Proof.
  intros raw lineCount B max.
  assert (S : RangeSpec.safe max = true).
  { unfold max, Renderer.line_number_value, RangeSpec.safe.
    apply Qle_bool_iff. rewrite <- Zle_Qle. exact B. }
  destruct (RangeFacts.parse_spec (option_map CodeUnits.units raw) max S)
    as (r & E & _).
  specialize (E _ (le_n _)).
  assert (R : Renderer.highlightedLines raw lineCount = r).
  { unfold Renderer.highlightedLines. fold max. rewrite E. reflexivity. }
  rewrite R. split; [exact E|].
  intros x I.
  assert (W := RangeFacts.parse_within _ _ _ _ E x I).
  apply RangeFacts.within_spec in W. exact W.
Qed.

(** The range "2-3" on a block of four lines. *)
Lemma highlightedLines_returns_witness :
  (Z.of_nat 4 <= 2 ^ 53 - 1)%Z
  /\ Renderer.highlightedLines (Some "2-3") 4 = [JSNumber.Fin 2%Q; JSNumber.Fin 3%Q]
  /\ RangeParser.parseCodeHighlightRanges
       (RangeParser.loop_tests (Renderer.line_number_value 4))
       (option_map CodeUnits.units (Some "2-3")) (Renderer.line_number_value 4)
     = Some (Renderer.highlightedLines (Some "2-3") 4).
Proof.
  assert (B : (Z.of_nat 4 <= 2 ^ 53 - 1)%Z) by (vm_compute; discriminate).
  split; [exact B|]. split; [vm_compute; reflexivity|].
  exact (proj1 (highlightedLines_returns (Some "2-3") 4 B)).
Defined.

(** The line feed that ends the content of a block opens no line: the
    lines of a content followed by a line feed are the pieces of the
    content. *)
Theorem contentLines_drops_trailing_line_feed :
  forall content,
    Renderer.contentLines (content +++ DOM.NEWLINE) = JSString.split DOM.LF content.
Proof.
  intro content. unfold Renderer.contentLines, DOM.NEWLINE. cbv zeta.
  rewrite TextFacts.split_app_sep. cbn [JSString.split].
  rewrite last_last. cbn [String.eqb orb].
  unfold JSArray.pop. apply removelast_last.
Qed.

(** An attribute value with a line feed breaks the lines of a span: the
    span with the title "x\ny" around "a\nb\nc" gives six lines, none of
    them with balanced tags. *)
Theorem span_attribute_with_line_feed_breaks_lines :
  let title := "x" +++ DOM.NEWLINE +++ "y" in
  let abc := "a" +++ DOM.NEWLINE +++ "b" +++ DOM.NEWLINE +++ "c" in
  let code :=
    DOM.Element "code" [] [DOM.Element "span" [("title", title)] [DOM.Text abc]] in
  ExtractorSpec.one_line_attrs [("title", title)] = false
  /\ List.length (Renderer.contentLines (Extractor.getCodeblockContents code)) = 6
  /\ existsb ExtractorSpec.tags_balanced
             (Renderer.contentLines (Extractor.getCodeblockContents code)) = false.
Proof.
  intros title abc code.
  split; [vm_compute; reflexivity|].
  split; vm_compute; reflexivity.
Qed.

(** A second run over a page whose blocks were all enhanced or retained:
    on the example page with a regular wrapped block, a legacy block and a
    bare [pre], the first run enhances two blocks and marks the legacy one;
    the second run visits nothing and leaves the document as it is. *)
Theorem second_run_is_idle_on_regular_page :
  let first :=
    @Orchestrator.enhancePage ExampleHost.host
      (Orchestrator.freshPage ExampleHost.regularPage) in
  let second :=
    @Orchestrator.enhancePage ExampleHost.host
      (Orchestrator.freshPage (Orchestrator.main first)) in
  map (fun v => (Orchestrator.visit_path v, Orchestrator.visit_id v,
                 Orchestrator.visit_outcome v))
      (Orchestrator.page_visits first)
  = [([0], Some 0, Orchestrator.Enhanced); ([1], None, Orchestrator.Retained);
     ([2], Some 1, Orchestrator.Enhanced)]
  /\ Orchestrator.page_visits second = []
  /\ DOM.outerHTML (Orchestrator.main second) = DOM.outerHTML (Orchestrator.main first).
Proof.
  intros first second.
  split; [vm_compute; reflexivity|].
  split; vm_compute; reflexivity.
Qed.

(** The step [++i] of the loop is exact on the integers below 2^53 and
    leaves 2^53 as it is. *)
Theorem increment_is_exact_below_2_53 :
  (forall z, (0 <= z)%Z -> (z + 1 <= 2 ^ 53)%Z ->
             JSNumber.num_succ (JSNumber.Fin (inject_Z z))
             = JSNumber.Fin (inject_Z (z + 1)))
  /\ JSNumber.num_succ (JSNumber.Fin (inject_Z (2 ^ 53)))
     = JSNumber.Fin (inject_Z (2 ^ 53)).
Proof.
  split; [exact NumberFacts.num_succ_integer|]. vm_compute. reflexivity.
Qed.

(** The step from 41 to 42. *)
Lemma increment_is_exact_below_2_53_witness :
  (0 <= 41)%Z /\ (41 + 1 <= 2 ^ 53)%Z
  /\ JSNumber.num_succ (JSNumber.Fin (inject_Z 41)) = JSNumber.Fin (inject_Z (41 + 1)).
Proof.
  assert (P : (0 <= 41)%Z) by lia.
  assert (U : (41 + 1 <= 2 ^ 53)%Z) by (vm_compute; discriminate).
  split; [exact P|]. split; [exact U|].
  exact (proj1 increment_is_exact_below_2_53 41%Z P U).
Defined.
